(** * sacho-re prototype: MIDI-triggered video recording with pre-roll

    A shallow embedding of [prototype.py]: the MIDI listener
    ([MidiListener]), the video recorder ([VideoRecorder]: capture loop,
    encode worker, start/stop/finalize) and the polling loop of
    [__main__], followed by the properties proved about them.

    Conventions.
    - Python objects are records; a method [o.m(args)] is a function that
      takes the object last and returns the updated object.
    - Code that can raise lives in the monad [Py St], a state monad whose
      outcome is [Return] or [Raise]; [try_except] is Python's
      [try: ... except: ...].
    - [print] appends a [LogLine] to the object's log (the timestamps that
      the module-level [print] wrapper prepends are not kept).
    - [time.time()] is a binary64 float, as in Python; the clock reading is
      an argument of the function that reads it.
    - Each method runs as one step: the interleavings of the three threads
      are taken at method granularity (one capture iteration, one worker
      iteration, one [start_recording], one [stop_recording]). *)

From stdpp Require Import gmap list strings pretty.
From Stdlib Require Import QArith PrimFloat.

Set Default Proof Using "Type".
Local Open Scope nat_scope.

(** ** Python outcomes *)

Inductive exn : Set :=
  | IndexError          (* subscript of an empty sequence *)
  | ZeroDivisionError   (* [Fraction(1, 0)] *)
  | EncoderError        (* raised by PyAV while encoding or muxing *)
  | OSError             (* raised by [open]/[write] *)
  | QueueEmpty.         (* [Queue.get(timeout=1)] timed out *)

Inductive outcome (A : Type) : Type :=
  | Return (a : A)
  | Raise (e : exn).
Arguments Return {A} a.
Arguments Raise {A} e.

Definition Py (St A : Type) : Type := St → outcome A * St.

Definition py_ret {St A} (a : A) : Py St A := λ s, (Return a, s).
Definition py_raise {St A} (e : exn) : Py St A := λ s, (Raise e, s).
Definition py_bind {St A B} (m : Py St A) (k : A → Py St B) : Py St B :=
  λ s, match m s with
       | (Return a, s') => k a s'
       | (Raise e, s') => (Raise e, s')
       end.
Definition py_get {St} : Py St St := λ s, (Return s, s).
Definition py_modify {St} (f : St → St) : Py St unit := λ s, (Return tt, f s).
(** [try: body except Exception: handler] *)
Definition try_except {St A} (body : Py St A) (handler : exn → Py St A) : Py St A :=
  λ s, match body s with
       | (Return a, s') => (Return a, s')
       | (Raise e, s') => handler e s'
       end.
Definition exec {St A} (m : Py St A) (s : St) : St := snd (m s).
Definition result {St A} (m : Py St A) (s : St) : outcome A := fst (m s).

Declare Scope py_scope.
Delimit Scope py_scope with py.
Notation "x <- m ;; k" := (py_bind m (λ x, k))
  (at level 63, m at level 62, right associativity) : py_scope.
Notation "m ;;; k" := (py_bind m (λ _, k))
  (at level 63, right associativity) : py_scope.

(** ** MidiListener *)

Module Midi.

(** The lines [midi_callback] prints. *)
Inductive LogLine : Set :=
  | PedalReleased (value : Z)
  | IgnoringNoisyPedal (value : Z)
  | PedalPressed (value : Z).

Record MidiListener := {
  last_event_time : option float;
  pedal_pressed : bool;
  note_event_occurred : bool;
  midi_log : list LogLine
}.

(** [__init__], after the port has been opened. *)
Definition init : MidiListener :=
  {| last_event_time := None; pedal_pressed := false;
     note_event_occurred := false; midi_log := [] |}.

Definition set_last_event_time (t : float) (m : MidiListener) : MidiListener :=
  {| last_event_time := Some t; pedal_pressed := pedal_pressed m;
     note_event_occurred := note_event_occurred m; midi_log := midi_log m |}.
Definition set_pedal_pressed (b : bool) (m : MidiListener) : MidiListener :=
  {| last_event_time := last_event_time m; pedal_pressed := b;
     note_event_occurred := note_event_occurred m; midi_log := midi_log m |}.
Definition set_note_event_occurred (b : bool) (m : MidiListener) : MidiListener :=
  {| last_event_time := last_event_time m; pedal_pressed := pedal_pressed m;
     note_event_occurred := b; midi_log := midi_log m |}.
Definition print (l : LogLine) (m : MidiListener) : MidiListener :=
  {| last_event_time := last_event_time m; pedal_pressed := pedal_pressed m;
     note_event_occurred := note_event_occurred m; midi_log := midi_log m ++ [l] |}.

Local Open Scope Z_scope.
Local Open Scope py_scope.

(** The guard of the sustain branch:
    [len(midi_message) >= 3 and midi_message[0] == 176 and midi_message[1] == 64]. *)
Definition is_sustain (midi_message : list Z) : bool :=
  bool_decide (3 ≤ length midi_message)%nat
  && bool_decide (midi_message !! 0%nat = Some 176)
  && bool_decide (midi_message !! 1%nat = Some 64).

(** [midi_message[i]]: raises [IndexError] out of range. *)
Definition subscript (midi_message : list Z) (i : nat) : Py MidiListener Z :=
  match midi_message !! i with
  | Some b => py_ret b
  | None => py_raise IndexError
  end.

(** [midi_callback(message, _)]: [midi_message] is the list of bytes of the
    message, [now] what [time.time()] returns when it is read. *)
Definition midi_callback (now : float) (midi_message : list Z) : Py MidiListener unit :=
  m <- py_get ;;
  if is_sustain midi_message then
    pedal_value <- subscript midi_message 2 ;;
    if bool_decide (pedal_value < 40) then
      if pedal_pressed m then
        py_modify (print (PedalReleased pedal_value)) ;;;
        py_modify (set_last_event_time now) ;;;
        py_modify (set_pedal_pressed false)
      else
        py_modify (print (IgnoringNoisyPedal pedal_value))
    else
      (if negb (pedal_pressed m) then
         py_modify (print (PedalPressed pedal_value)) ;;;
         py_modify (set_pedal_pressed true)
       else py_ret tt) ;;;
      py_modify (set_note_event_occurred true) ;;;
      py_modify (set_last_event_time now)
  else
    b0 <- subscript midi_message 0 ;;
    if bool_decide (Z.land b0 240 = 144) then
      py_modify (set_note_event_occurred true) ;;;
      py_modify (set_last_event_time now)
    else py_ret tt.

(** [check_and_clear_event()] *)
Definition check_and_clear_event : Py MidiListener bool :=
  m <- py_get ;;
  if note_event_occurred m then
    py_modify (set_note_event_occurred false) ;;; py_ret true
  else py_ret false.

(** A ControlChange message on the channel the callback listens to
    (status byte 176), as [rtmidi] delivers it. *)
Definition ControlChange (controller value : Z) : list Z := [176; controller; value].

(** The callback run over a sequence of (receive time, sustain value)
    messages; an exception ends the run. *)
Fixpoint run_sustain (msgs : list (float * Z)) : Py MidiListener unit :=
  match msgs with
  | [] => py_ret tt
  | (t, v) :: rest => midi_callback t (ControlChange 64 v) ;;; run_sustain rest
  end.

(** The transitions to "released" among printed lines. *)
Definition is_release (l : LogLine) : bool :=
  match l with PedalReleased _ => true | _ => false end.

(** The lines printed by a step from [m] to [m']. *)
Definition emitted (m m' : MidiListener) : list LogLine :=
  drop (length (midi_log m)) (midi_log m').

End Midi.

(** ** VideoRecorder *)

Module Video.

(** *** Wall-clock time and the file name *)

(** What [datetime.now()] returns, to the second. *)
Record DateTime := {
  year : nat; month : nat; day : nat;
  hour : nat; minute : nat; second : nat
}.

(** The ranges of the fields of a Python [datetime]. *)
Definition valid_datetime (t : DateTime) : Prop :=
  1 ≤ year t < 10 ^ 4 ∧ 1 ≤ month t ≤ 12 ∧ 1 ≤ day t ≤ 31
  ∧ hour t ≤ 23 ∧ minute t ≤ 59 ∧ second t ≤ 59.

Fixpoint zeros (k : nat) : string :=
  match k with
  | 0 => ""
  | S k' => "0" +:+ zeros k'
  end.

(** A decimal number padded with zeros on the left to [width] characters,
    as [strftime] prints the fields of a date. *)
Definition zero_pad (width n : nat) : string :=
  let digits := pretty n in
  zeros (width - String.length digits) +:+ digits.

(** [t.strftime("110bpm---%Y-%m-%d---%H-%M-%S")] *)
Definition strftime (t : DateTime) : string :=
  "110bpm---" +:+ zero_pad 4 (year t) +:+ "-" +:+ zero_pad 2 (month t)
  +:+ "-" +:+ zero_pad 2 (day t) +:+ "---" +:+ zero_pad 2 (hour t)
  +:+ "-" +:+ zero_pad 2 (minute t) +:+ "-" +:+ zero_pad 2 (second t).

Definition video_recordings_dir : string :=
  "C:/Users/shayan/Desktop/piano/video_recordings".

(** [f"C:/Users/shayan/Desktop/piano/video_recordings/{ts}.mp4"] *)
Definition video_file (t : DateTime) : string :=
  video_recordings_dir +:+ "/" +:+ strftime t +:+ ".mp4".

(** *** Data *)

(** A PyAV frame as the encoder receives it: the image, its presentation
    timestamp and its time base. *)
Record AVFrame (Frame : Type) := {
  av_data : Frame;
  av_pts : nat;
  av_time_base : Q
}.
Arguments av_data {Frame} _.
Arguments av_pts {Frame} _.
Arguments av_time_base {Frame} _.

(** The container, stream and output buffer created by one call of
    [start_recording]: the frames encoded and muxed so far, in order, and
    whether [container.close()] has run. The encoder's internal delay is
    not modelled: a frame counts as muxed once [stream.encode] and
    [container.mux] have returned for it. *)
Record Container (Frame : Type) := {
  muxed : list (AVFrame Frame);
  closed : bool
}.
Arguments muxed {Frame} _.
Arguments closed {Frame} _.

(** An entry of [active_recordings]. Its ['container'], ['stream'] and
    ['buffer'] are references to the objects kept in [containers] under
    the recording's id. *)
Record RecordingData := {
  start_time : DateTime;
  frame_count : nat
}.

(** A task of [encoding_queue]; [None] is Python's [None]. *)
Inductive Task (Frame : Type) :=
  | EncodeFrames (frames : list Frame) (recording_id : option nat)
  | FinalizeRecording (recording_id : option nat).
Arguments EncodeFrames {Frame} frames recording_id.
Arguments FinalizeRecording {Frame} recording_id.

Inductive LogLine : Set :=
  | LogStarting
  | LogStopping
  | LogEncoding (n : nat) (recording_id : option nat)
  | LogNotFound (recording_id : option nat)
  | LogEncoded (n : nat) (recording_id : option nat)
  | LogEncodeError (e : exn)
  | LogSaved (path : string) (frames : nat)
  | LogFinalizeError (recording_id : option nat) (e : exn).

Record VideoRecorder (Frame : Type) := {
  fps : nat;
  recording : bool;
  next_recording_id : nat;
  current_recording_id : option nat;
  active_recordings : gmap nat RecordingData;
  frame_buffer : list Frame;                 (* deque(maxlen=buffer_size) *)
  encoding_queue : list (Task Frame);        (* Queue(), head first *)
  containers : gmap nat (Container Frame);   (* the objects behind the ids *)
  files : gmap string (list (AVFrame Frame));(* the files written *)
  log : list LogLine
}.
Arguments fps {Frame} _.
Arguments recording {Frame} _.
Arguments next_recording_id {Frame} _.
Arguments current_recording_id {Frame} _.
Arguments active_recordings {Frame} _.
Arguments frame_buffer {Frame} _.
Arguments encoding_queue {Frame} _.
Arguments containers {Frame} _.
Arguments files {Frame} _.
Arguments log {Frame} _.

(** What can go wrong in [_finalize_recording] after the entry is taken. *)
Inductive FinalizeFault : Set :=
  | FlushFails   (* [stream.encode()] or [container.mux] raises *)
  | CloseFails   (* [container.close()] raises *)
  | WriteFails.  (* [open(video_file, 'wb')] raises *)

Global Instance FinalizeFault_eq_dec : EqDecision FinalizeFault.
Proof. solve_decision. Defined.

(** The behaviour of PyAV and of the file system during one iteration of
    the encode worker: the index of the first frame of the batch whose
    encoding or muxing raises, and the stage of finalization that raises. *)
Record Oracle := {
  encode_fault : option nat;
  finalize_fault : option FinalizeFault
}.

Definition no_fault : Oracle := {| encode_fault := None; finalize_fault := None |}.

Section recorder.
Context {Frame : Type}.

Local Abbreviation VideoRecorder := (VideoRecorder Frame).
Local Abbreviation Task := (Task Frame).
Local Abbreviation AVFrame := (AVFrame Frame).
Local Abbreviation Container := (Container Frame).

(** *** Field updates *)

Definition set_recording (b : bool) (v : VideoRecorder) : VideoRecorder :=
  {| fps := fps v; recording := b; next_recording_id := next_recording_id v;
     current_recording_id := current_recording_id v;
     active_recordings := active_recordings v; frame_buffer := frame_buffer v;
     encoding_queue := encoding_queue v; containers := containers v;
     files := files v; log := log v |}.
Definition set_next_recording_id (n : nat) (v : VideoRecorder) : VideoRecorder :=
  {| fps := fps v; recording := recording v; next_recording_id := n;
     current_recording_id := current_recording_id v;
     active_recordings := active_recordings v; frame_buffer := frame_buffer v;
     encoding_queue := encoding_queue v; containers := containers v;
     files := files v; log := log v |}.
Definition set_current_recording_id (r : option nat) (v : VideoRecorder) : VideoRecorder :=
  {| fps := fps v; recording := recording v; next_recording_id := next_recording_id v;
     current_recording_id := r;
     active_recordings := active_recordings v; frame_buffer := frame_buffer v;
     encoding_queue := encoding_queue v; containers := containers v;
     files := files v; log := log v |}.
Definition set_active_recordings (a : gmap nat RecordingData) (v : VideoRecorder) : VideoRecorder :=
  {| fps := fps v; recording := recording v; next_recording_id := next_recording_id v;
     current_recording_id := current_recording_id v;
     active_recordings := a; frame_buffer := frame_buffer v;
     encoding_queue := encoding_queue v; containers := containers v;
     files := files v; log := log v |}.
Definition set_frame_buffer (b : list Frame) (v : VideoRecorder) : VideoRecorder :=
  {| fps := fps v; recording := recording v; next_recording_id := next_recording_id v;
     current_recording_id := current_recording_id v;
     active_recordings := active_recordings v; frame_buffer := b;
     encoding_queue := encoding_queue v; containers := containers v;
     files := files v; log := log v |}.
Definition set_encoding_queue (q : list Task) (v : VideoRecorder) : VideoRecorder :=
  {| fps := fps v; recording := recording v; next_recording_id := next_recording_id v;
     current_recording_id := current_recording_id v;
     active_recordings := active_recordings v; frame_buffer := frame_buffer v;
     encoding_queue := q; containers := containers v;
     files := files v; log := log v |}.
Definition set_containers (c : gmap nat Container) (v : VideoRecorder) : VideoRecorder :=
  {| fps := fps v; recording := recording v; next_recording_id := next_recording_id v;
     current_recording_id := current_recording_id v;
     active_recordings := active_recordings v; frame_buffer := frame_buffer v;
     encoding_queue := encoding_queue v; containers := c;
     files := files v; log := log v |}.
Definition set_files (f : gmap string (list AVFrame)) (v : VideoRecorder) : VideoRecorder :=
  {| fps := fps v; recording := recording v; next_recording_id := next_recording_id v;
     current_recording_id := current_recording_id v;
     active_recordings := active_recordings v; frame_buffer := frame_buffer v;
     encoding_queue := encoding_queue v; containers := containers v;
     files := f; log := log v |}.
Definition print (l : LogLine) (v : VideoRecorder) : VideoRecorder :=
  {| fps := fps v; recording := recording v; next_recording_id := next_recording_id v;
     current_recording_id := current_recording_id v;
     active_recordings := active_recordings v; frame_buffer := frame_buffer v;
     encoding_queue := encoding_queue v; containers := containers v;
     files := files v; log := log v ++ [l] |}.

(** [self.encoding_queue.put(task)] *)
Definition put (t : Task) (v : VideoRecorder) : VideoRecorder :=
  set_encoding_queue (encoding_queue v ++ [t]) v.

(** *** [__init__] *)

Definition preroll_seconds : nat := 3.

(** [self.buffer_size = int(self.fps * self.preroll_seconds)] *)
Definition buffer_size (v : VideoRecorder) : nat := fps v * preroll_seconds.

(** The recorder once [__init__] has chosen the camera; [fps0] is
    [int(self.capture.get(cv2.CAP_PROP_FPS))]. *)
Definition init (fps0 : nat) : VideoRecorder :=
  {| fps := fps0; recording := false; next_recording_id := 0;
     current_recording_id := None; active_recordings := ∅;
     frame_buffer := []; encoding_queue := []; containers := ∅;
     files := ∅; log := [] |}.

(** *** The pre-roll buffer *)

(** [deque.append] on a deque built with [maxlen]: the item is appended on
    the right and, if the deque is then longer than [maxlen], one item is
    popped on the left. *)
Definition deque_append (maxlen : nat) (d : list Frame) (x : Frame) : list Frame :=
  let d' := d ++ [x] in
  if bool_decide (maxlen < length d') then drop 1 d' else d'.

(** Truth value of a Python list. *)
Definition truthy {A} (l : list A) : bool :=
  match l with [] => false | _ :: _ => true end.

(** *** [_capture_frames] *)

(** The region under [self.lock] of one iteration that got [frame]; the
    second component is [frames_to_encode] ([None] when it was not set). *)
Definition capture_locked (frame : Frame) (v : VideoRecorder)
    : VideoRecorder * option (list Frame) :=
  let '(v1, frames_to_encode) :=
    if recording v && bool_decide (buffer_size v ≤ length (frame_buffer v))
    then (set_frame_buffer [] v, Some (frame_buffer v))
    else (v, None) in
  (set_frame_buffer (deque_append (buffer_size v) (frame_buffer v1) frame) v1,
   frames_to_encode).

(** One iteration of the [while self.capture_running] loop, given what
    [self.capture.read()] returned. *)
Definition capture_iteration (ret : bool) (frame : option Frame) (v : VideoRecorder)
    : VideoRecorder :=
  match ret, frame with
  | true, Some f =>
      let '(v1, frames_to_encode) := capture_locked f v in
      match frames_to_encode with
      | Some frames =>
          if truthy frames
          then put (EncodeFrames frames (current_recording_id v1)) v1
          else v1
      | None => v1
      end
  | _, _ => v   (* time.sleep(0.01) *)
  end.

(** *** [start_recording] *)

(** [recording_id = self.next_recording_id; self.next_recording_id += 1] *)
Definition reserve_recording_id (v : VideoRecorder) : nat * VideoRecorder :=
  (next_recording_id v, set_next_recording_id (next_recording_id v + 1) v).

(** The region under [self.encode_lock]: the new entry of
    [active_recordings], with the container opened just before. *)
Definition register_recording (now : DateTime) (recording_id : nat) (v : VideoRecorder)
    : VideoRecorder :=
  set_active_recordings
    (<[recording_id := {| start_time := now; frame_count := 0 |}]> (active_recordings v))
    (set_containers
       (<[recording_id := {| muxed := []; closed := false |}]> (containers v)) v).

(** The region under [self.lock]: flip the state and snapshot the buffer. *)
Definition snapshot_preroll (recording_id : nat) (v : VideoRecorder)
    : VideoRecorder * list Frame :=
  let v1 := set_current_recording_id (Some recording_id) (set_recording true v) in
  if bool_decide (0 < length (frame_buffer v1))
  then (set_frame_buffer [] v1, frame_buffer v1)
  else (v1, []).

(** [start_recording()]; [now] is what [datetime.now()] returns. [av.open]
    and [container.add_stream] are taken to return: the method has no
    handler for them. *)
Definition start_recording (now : DateTime) (v : VideoRecorder) : VideoRecorder :=
  if recording v then v
  else
    let '(recording_id, v1) := reserve_recording_id (print LogStarting v) in
    let v2 := register_recording now recording_id v1 in
    let '(v3, frames_to_encode) := snapshot_preroll recording_id v2 in
    if truthy frames_to_encode
    then put (EncodeFrames frames_to_encode (Some recording_id)) v3
    else v3.

(** *** [stop_recording] *)

Definition stop_recording (v : VideoRecorder) : VideoRecorder :=
  if negb (recording v) then v
  else
    let v0 := print LogStopping v in
    let recording_id := current_recording_id v0 in
    let v1 :=
      if bool_decide (0 < length (frame_buffer v0))
      then put (EncodeFrames (frame_buffer v0) recording_id) v0
      else v0 in
    let v2 := put (FinalizeRecording recording_id) v1 in
    set_current_recording_id None (set_recording false v2).

(** *** [_encode_frames] *)

Local Open Scope py_scope.

(** [Fraction(1, self.fps)] *)
Definition fraction_1 (den : nat) : Py VideoRecorder Q :=
  match den with
  | 0 => py_raise ZeroDivisionError
  | S _ => py_ret (1 # Pos.of_nat den)%Q
  end.

(** [container.mux(packet)] for the packets of one frame, on the container
    of recording [recording_id]. *)
Definition mux (recording_id : nat) (f : AVFrame) (v : VideoRecorder) : VideoRecorder :=
  set_containers
    (alter (λ c, {| muxed := muxed c ++ [f]; closed := closed c |})
           recording_id (containers v)) v.

(** [for i, frame in enumerate(frames): ...], from index [i] on. [fault] is
    the index at which PyAV raises, if it does. *)
Fixpoint encode_loop (fault : option nat) (recording_id frame_count0 i : nat)
    (frames : list Frame) : Py VideoRecorder unit :=
  match frames with
  | [] => py_ret tt
  | frame :: rest =>
      v <- py_get ;;
      time_base <- fraction_1 (fps v) ;;
      (if bool_decide (fault = Some i) then py_raise EncoderError else py_ret tt) ;;;
      py_modify (mux recording_id
                   {| av_data := frame; av_pts := frame_count0 + i;
                      av_time_base := time_base |}) ;;;
      encode_loop fault recording_id frame_count0 (S i) rest
  end.

(** [self.active_recordings[recording_id]['frame_count'] = n], guarded by
    [if recording_id in self.active_recordings]. *)
Definition update_frame_count (recording_id n : nat) (v : VideoRecorder) : VideoRecorder :=
  set_active_recordings
    (alter (λ d, {| start_time := start_time d; frame_count := n |})
           recording_id (active_recordings v)) v.

(** [self.active_recordings.get(recording_id)], with [None] never a key. *)
Definition lookup_recording (recording_id : option nat) (v : VideoRecorder)
    : option (nat * RecordingData) :=
  r ← recording_id; d ← active_recordings v !! r; Some (r, d).

Definition _encode_frames (fault : option nat) (frames : list Frame)
    (recording_id : option nat) : Py VideoRecorder unit :=
  if negb (truthy frames) then py_ret tt
  else
    py_modify (print (LogEncoding (length frames) recording_id)) ;;;
    v <- py_get ;;
    match lookup_recording recording_id v with
    | None => py_modify (print (LogNotFound recording_id))
    | Some (r, recording_data) =>
        let frame_count0 := frame_count recording_data in
        try_except
          (encode_loop fault r frame_count0 0 frames ;;;
           py_modify (update_frame_count r (frame_count0 + length frames)) ;;;
           py_modify (print (LogEncoded (length frames) recording_id)))
          (λ e, py_modify (print (LogEncodeError e)))
    end.

(** *** [_finalize_recording] *)

Definition close_container (recording_id : nat) (v : VideoRecorder) : VideoRecorder :=
  set_containers
    (alter (λ c, {| muxed := muxed c; closed := true |}) recording_id (containers v)) v.

(** [output_buffer.getvalue()] *)
Definition getvalue (recording_id : nat) (v : VideoRecorder) : list AVFrame :=
  match containers v !! recording_id with
  | Some c => muxed c
  | None => []
  end.

(** [with open(video_file, 'wb') as f: f.write(output_buffer.getvalue())] *)
Definition write_file (path : string) (recording_id : nat) (v : VideoRecorder)
    : VideoRecorder :=
  set_files (<[path := getvalue recording_id v]> (files v)) v.

Definition fails (fault : option FinalizeFault) (stage : FinalizeFault) (e : exn)
    : Py VideoRecorder unit :=
  if bool_decide (fault = Some stage) then py_raise e else py_ret tt.

Definition _finalize_recording (fault : option FinalizeFault)
    (recording_id : option nat) : Py VideoRecorder unit :=
  try_except
    (v <- py_get ;;
     match lookup_recording recording_id v with
     | None => py_modify (print (LogNotFound recording_id))
     | Some (r, recording_data) =>
         py_modify (set_active_recordings (delete r (active_recordings v))) ;;;
         fails fault FlushFails EncoderError ;;;
         fails fault CloseFails EncoderError ;;;
         py_modify (close_container r) ;;;
         fails fault WriteFails OSError ;;;
         py_modify (write_file (video_file (start_time recording_data)) r) ;;;
         py_modify (print (LogSaved (video_file (start_time recording_data))
                                    (frame_count recording_data)))
     end)
    (λ e, py_modify (print (LogFinalizeError recording_id e))).

(** *** [_encoding_worker] *)

(** [self.encoding_queue.get(timeout=1)] *)
Definition queue_get : Py VideoRecorder Task :=
  λ v, match encoding_queue v with
       | [] => (Raise QueueEmpty, v)
       | task :: q => (Return task, set_encoding_queue q v)
       end.

(** One iteration of [while self.encoding_running]. *)
Definition worker_iteration (o : Oracle) : Py VideoRecorder unit :=
  try_except
    (task <- queue_get ;;
     match task with
     | EncodeFrames frames recording_id =>
         _encode_frames (encode_fault o) frames recording_id
     | FinalizeRecording recording_id =>
         _finalize_recording (finalize_fault o) recording_id
     end)
    (λ _, py_ret tt).


(** *** Runs of the recorder *)

Inductive Event :=
  | Capture (ret : bool) (frame : option Frame)  (* a capture iteration *)
  | Start (now : DateTime)                       (* [start_recording()] *)
  | Stop                                         (* [stop_recording()] *)
  | Worker (o : Oracle).                         (* a worker iteration *)

Definition step (v : VideoRecorder) (e : Event) : VideoRecorder :=
  match e with
  | Capture ret frame => capture_iteration ret frame v
  | Start now => start_recording now v
  | Stop => stop_recording v
  | Worker o => exec (worker_iteration o) v
  end.

Definition run (tr : list Event) (v : VideoRecorder) : VideoRecorder :=
  foldl step v tr.

End recorder.
End Video.

(** ** The polling loop of [__main__] *)

Module Main.

(** The calls the loop makes on the recorder. *)
Inductive Call : Set := CallStart | CallStop.

Global Instance Call_eq_dec : EqDecision Call.
Proof. solve_decision. Defined.

Record Program (Frame : Type) := {
  midi_listener : Midi.MidiListener;
  video_recorder : Video.VideoRecorder Frame;
  device_connected : bool;
  calls : list Call          (* the calls made so far, oldest first *)
}.
Arguments midi_listener {Frame} _.
Arguments video_recorder {Frame} _.
Arguments device_connected {Frame} _.
Arguments calls {Frame} _.

Section main.
Context {Frame : Type}.

Local Abbreviation Program := (Program Frame).
Local Open Scope py_scope.

(** A method of [midi_listener] run on the program's listener. *)
Definition on_midi {A} (f : Py Midi.MidiListener A) : Py Program A :=
  λ p, let '(r, m) := f (midi_listener p) in
       (r, {| midi_listener := m; video_recorder := video_recorder p;
              device_connected := device_connected p; calls := calls p |}).

(** A method of [video_recorder], recorded in [calls]. *)
Definition on_video (c : Call)
    (f : Video.VideoRecorder Frame → Video.VideoRecorder Frame) : Py Program unit :=
  py_modify (λ p, {| midi_listener := midi_listener p;
                     video_recorder := f (video_recorder p);
                     device_connected := device_connected p;
                     calls := calls p ++ [c] |}).

(** Truth value of [midi_listener.last_event_time]: [None] and [0.0] are
    false. *)
Definition time_truthy (t : option float) : bool :=
  match t with
  | None => false
  | Some x => negb (PrimFloat.eqb x 0)
  end.

(** [time.time() - midi_listener.last_event_time > 7], in binary64. *)
Definition lingered (clock : float) (t : option float) : bool :=
  match t with
  | None => false
  | Some x => PrimFloat.ltb 7 (PrimFloat.sub clock x)
  end.

(** [while midi_listener.check_and_clear_event(): pass], for at most [fuel]
    evaluations of the condition; returns whether the loop was left. *)
Fixpoint drain_events (fuel : nat) : Py Midi.MidiListener bool :=
  match fuel with
  | 0 => py_ret false
  | S k =>
      ev <- Midi.check_and_clear_event ;;
      if ev then drain_events k else py_ret true
  end.

(** Lines 504-513: the body of [while True] below the hotplug check.
    [clock] is what [time.time()] returns on line 510, [wall] what
    [datetime.now()] returns inside [start_recording]. Returns whether
    the inner loop was left within [fuel]. *)
Definition main_body (fuel : nat) (clock : float) (wall : Video.DateTime)
    : Py Program bool :=
  p <- py_get ;;
  if device_connected p then
    ev <- on_midi Midi.check_and_clear_event ;;
    (if ev && negb (Video.recording (video_recorder p))
     then on_video CallStart (Video.start_recording wall)
     else py_ret tt) ;;;
    p1 <- py_get ;;
    if Video.recording (video_recorder p1)
       && time_truthy (Midi.last_event_time (midi_listener p1))
    then
      if negb (Midi.pedal_pressed (midi_listener p1))
         && lingered clock (Midi.last_event_time (midi_listener p1))
      then
        on_video CallStop Video.stop_recording ;;;
        on_midi (drain_events fuel)
      else py_ret true
    else py_ret true
  else py_ret true.


(** The calls made by a step from [p] to [p']. *)
Definition new_calls (p p' : Program) : list Call :=
  drop (length (calls p)) (calls p').

End main.
End Main.

(** ** Notions used to state the properties

    Nothing here is code of the program: these are the observations and
    the invariant of reachable recorder states that the theorems speak of. *)

Module Sessions.
Import Video.

(** The number a string of decimal digits denotes; [None] if a character
    is not a digit. *)
Fixpoint decimal_value_from (acc : N) (s : string) : option N :=
  match s with
  | EmptyString => Some acc
  | String c s' =>
      match Ascii.is_nat c with
      | Some d => decimal_value_from (10 * acc + N.of_nat d) s'
      | None => None
      end
  end.

Definition decimal_value (s : string) : option N :=
  match s with
  | EmptyString => None
  | _ => decimal_value_from 0 s
  end.

(** [s] is [n] written with exactly [width] decimal digits. *)
Definition is_field (width n : nat) (s : string) : bool :=
  bool_decide (String.length s = width)
  && bool_decide (decimal_value s = Some (N.of_nat n)).

Section sessions.
Context {Frame : Type}.
Implicit Types (v : VideoRecorder Frame) (q : list (Task Frame)).

(** The frames read by a run of capture iterations, in order: an iteration
    pushes its frame iff [ret and frame is not None]. *)
Definition pushed_frame (read : bool * option Frame) : option Frame :=
  if read.1 then read.2 else None.

Definition captures (reads : list (bool * option Frame)) : list (Event (Frame:=Frame)) :=
  map (λ read, Capture read.1 read.2) reads.

(** The frames a trace pushes into the buffer. *)
Definition pushed (tr : list (Event (Frame:=Frame))) : list Frame :=
  omap (λ e, match e with
             | Capture ret frame => pushed_frame (ret, frame)
             | _ => None
             end) tr.

(** The task that hands [frames] to the encoder for [recording_id], if
    there are any. *)
Definition batch (frames : list Frame) (recording_id : option nat)
    : list (Task Frame) :=
  if truthy frames then [EncodeFrames frames recording_id] else [].

(** The frames of a batch with the timestamps [_encode_frames] gives them:
    frame [j] of the batch gets [pts = frame_count0 + i + j]. *)
Fixpoint stamp (time_base : Q) (frame_count0 i : nat) (frames : list Frame)
    : list (AVFrame Frame) :=
  match frames with
  | [] => []
  | f :: rest =>
      {| av_data := f; av_pts := frame_count0 + i; av_time_base := time_base |}
      :: stamp time_base frame_count0 (S i) rest
  end.

(** The frames of a batch that are muxed before the fault, if any. *)
Fixpoint muxed_until (fault : option nat) (i : nat) (frames : list Frame) : list Frame :=
  match frames with
  | [] => []
  | f :: rest =>
      if bool_decide (fault = Some i) then []
      else f :: muxed_until fault (S i) rest
  end.

(** [container.mux] for a list of frames, in order. *)
Definition mux_all (r : nat) (l : list (AVFrame Frame)) v : VideoRecorder Frame :=
  foldl (λ v f, mux r f v) v l.

(** The encoded output of recording [r]: what has been muxed into its
    container. *)
Definition output (r : nat) v : list (AVFrame Frame) :=
  match containers v !! r with
  | Some c => muxed c
  | None => []
  end.

(** The recording a task names. *)
Definition task_id (t : Task Frame) : option nat :=
  match t with
  | EncodeFrames _ recording_id => recording_id
  | FinalizeRecording recording_id => recording_id
  end.

(** The frames queued for recording [r] and not yet encoded. *)
Definition pending (r : nat) q : list Frame :=
  flat_map (λ t, match t with
                 | EncodeFrames frames (Some r') =>
                     if bool_decide (r' = r) then frames else []
                 | _ => []
                 end) q.

(** All frames handed to recording [r] so far, encoded or queued. *)
Definition handed (r : nat) v : list Frame :=
  (av_data <$> output r v) ++ pending r (encoding_queue v).

(** A queue that the worker can process starting from the live recordings
    [live]: every task names a recording that is still live when the task
    is reached, and no batch is empty. *)
Fixpoint queue_ok (live : gset nat) q : Prop :=
  match q with
  | [] => True
  | EncodeFrames frames (Some r) :: q' =>
      frames ≠ [] ∧ r ∈ live ∧ queue_ok live q'
  | FinalizeRecording (Some r) :: q' =>
      r ∈ live ∧ queue_ok (live ∖ {[r]}) q'
  | _ :: _ => False
  end.

(** The recordings still live once the worker has processed [q]. *)
Fixpoint live_after (live : gset nat) q : gset nat :=
  match q with
  | [] => live
  | FinalizeRecording (Some r) :: q' => live_after (live ∖ {[r]}) q'
  | _ :: q' => live_after live q'
  end.

(** The invariant of the states the recorder reaches. *)
Record wf v : Prop := {
  wf_buffer : length (frame_buffer v) ≤ buffer_size v;
  wf_ids : ∀ r, r ∈ dom (active_recordings v) → r < next_recording_id v;
  wf_containers : ∀ r, r ∈ dom (containers v) → r < next_recording_id v;
  wf_live : dom (active_recordings v) ⊆ dom (containers v);
  wf_queue : queue_ok (dom (active_recordings v)) (encoding_queue v);
  wf_current :
    if recording v
    then ∃ c, current_recording_id v = Some c
              ∧ c ∈ live_after (dom (active_recordings v)) (encoding_queue v)
    else current_recording_id v = None
}.

(** The output of recording [r] carries the timestamps 0, 1, 2, ... with
    time base [1/fps], and while [r] is live its [frame_count] is the
    number of frames muxed. *)
Definition stamped (r : nat) v : Prop :=
  av_pts <$> output r v = seq 0 (length (output r v))
  ∧ Forall (λ a, av_time_base a = (1 # Pos.of_nat (fps v))%Q) (output r v)
  ∧ ∀ d, active_recordings v !! r = Some d → frame_count d = length (output r v).

(** Recording [r], started with the pre-roll [b0], has been handed [b0]
    followed by frames pushed since, in order: all of [c], the frames
    pushed since the start, while [r] is current (the last of them are
    still in the buffer), a prefix of [c] once it is not. *)
Definition tracks (r : nat) (b0 c : list Frame) v : Prop :=
  wf v ∧ r < next_recording_id v ∧ stamped r v
  ∧ ∃ c1, handed r v = b0 ++ c1
          ∧ if decide (current_recording_id v = Some r)
            then c1 ++ frame_buffer v = c
            else c1 `prefix_of` c.

(** No encoding fault in the worker iterations of a trace. *)
Definition encodes_ok (e : Event (Frame:=Frame)) : Prop :=
  match e with
  | Worker o => encode_fault o = None
  | _ => True
  end.

End sessions.
End Sessions.

(** ** Concrete states and inputs *)

Module Examples.
Import Midi Video Main Sessions.

(** A start time used below: 2024-03-07 09:05:00. *)
Definition a_start_time : DateTime :=
  {| year := 2024; month := 3; day := 7; hour := 9; minute := 5; second := 0 |}.

(** Frames are numbered; the camera reports 1 fps, so the buffer holds 3. *)
Definition four_reads : list (bool * option nat) :=
  [(true, Some 1); (true, Some 2); (false, None); (true, Some 3); (true, Some 4)].

(** A recorder that started with frames 1 and 2 buffered and has since
    captured frames 3, 4 and 5: the buffer is full. *)
Definition recording_full : VideoRecorder nat :=
  run [Capture true (Some 1); Capture true (Some 2); Start a_start_time;
       Capture true (Some 3); Capture true (Some 4); Capture true (Some 5)]
      (init 1).


(** The scenario of the specification: 30 fps, so a capacity of 90. Push
    90 frames, start, push 30 more, stop, and let the worker take the three
    tasks then queued. *)
Definition frames_from (a n : nat) : list (Event (Frame:=nat)) :=
  (λ i, Capture true (Some i)) <$> seq a n.

Definition scenario_started : VideoRecorder nat :=
  run (frames_from 0 90 ++ [Start a_start_time]) (init 30).

Definition scenario_stopped : VideoRecorder nat :=
  run (frames_from 90 30 ++ [Stop]) scenario_started.

Definition scenario_done : VideoRecorder nat :=
  run [Worker no_fault; Worker no_fault; Worker no_fault] scenario_stopped.

End Examples.


(** ** Runs of the listener *)

Module MidiRuns.
Import Midi.

(** What happens to a listener between its creation and now: [rtmidi]
    delivers a message to [midi_callback], or the polling loop calls
    [check_and_clear_event]. *)
Inductive Op :=
  | Message (now : float) (midi_message : list Z)
  | Poll.

(** The listener after one operation; an exception raised by the callback
    leaves the listener as it was when it was raised. *)
Definition apply_op (m : MidiListener) (o : Op) : MidiListener :=
  match o with
  | Message now midi_message => exec (midi_callback now midi_message) m
  | Poll => exec check_and_clear_event m
  end.

Definition run_ops (ops : list Op) (m : MidiListener) : MidiListener :=
  foldl apply_op m ops.

(** The receive times of the messages of a run. *)
Definition receive_times (ops : list Op) : list float :=
  omap (λ o, match o with Message now _ => Some now | Poll => None end) ops.

End MidiRuns.

(** ** Passes of the polling loop *)

Module Passes.
Import Midi Video Main.

Section passes.
Context {Frame : Type}.
Implicit Types p : Program Frame.

(** Whether a pass calls [start_recording()], the recorder line 509 then
    finds, and whether the pass calls [stop_recording()]. *)
Definition starts p : bool :=
  device_connected p && note_event_occurred (midi_listener p)
  && negb (recording (video_recorder p)).

Definition recorder_after_start (wall : DateTime) p : VideoRecorder Frame :=
  if starts p then start_recording wall (video_recorder p) else video_recorder p.

Definition stops (clock : float) (wall : DateTime) p : bool :=
  device_connected p
  && recording (recorder_after_start wall p)
  && time_truthy (last_event_time (midi_listener p))
  && negb (pedal_pressed (midi_listener p))
  && lingered clock (last_event_time (midi_listener p)).

End passes.
End Passes.

(** ** Notions used to state what reachable recorder states satisfy *)

Module Reach.
Import Video Sessions.

Section reach.
Context {Frame : Type}.
Implicit Types (v : VideoRecorder Frame) (q : list (Task Frame)).

(** A batch of between one and [cap] frames; finalization tasks carry no
    frames. *)
Definition batch_ok (cap : nat) (t : Task Frame) : Prop :=
  match t with
  | EncodeFrames frames _ => 1 ≤ length frames ≤ cap
  | FinalizeRecording _ => True
  end.

(** The recording the capture loop feeds, as a set. *)
Definition current_set v : gset nat :=
  match current_recording_id v with
  | Some c => {[c]}
  | None => ∅
  end.

(** The recordings whose finalization is queued. *)
Definition finalizing q : gset nat :=
  list_to_set (omap (λ t, match t with
                          | FinalizeRecording rid => rid
                          | EncodeFrames _ _ => None
                          end) q).

(** The live recordings that have no finalization queued are exactly the
    current one. *)
Definition accounted v : Prop :=
  live_after (dom (active_recordings v)) (encoding_queue v) = current_set v.

(** No container that has been closed belongs to a live recording. *)
Definition closed_dead v : Prop :=
  ∀ r c, containers v !! r = Some c → closed c = true →
         r ∉ dom (active_recordings v).

(** The worker has never printed "Recording ... not found". *)
Definition all_found v : Prop := ∀ rid, LogNotFound rid ∉ log v.

(** Nothing has been encoded and nothing but empty files written. *)
Definition nothing_encoded v : Prop :=
  (∀ r, output r v = []) ∧ (∀ path l, files v !! path = Some l → l = []).

(** Recording [r] was registered with the start time [now]. *)
Definition born (r : nat) (now : DateTime) v : Prop :=
  r < next_recording_id v
  ∧ ∀ d, active_recordings v !! r = Some d → start_time d = now.

End reach.
End Reach.

(** ** MidiListener: finding and opening the port *)

Module Ports.

(** [name in port_name] on Python strings: [name] occurs in [port_name]. *)
Fixpoint contains (name port_name : string) {struct port_name} : bool :=
  String.prefix name port_name
  || match port_name with
     | EmptyString => false
     | String _ rest => contains name rest
     end.

(** [self.device_names = [f"RD-88 {i}" for i in range(4)]] *)
Definition device_names : list string :=
  (λ i : nat, "RD-88 " +:+ pretty i) <$> seq 0 4.

(** The line [_find_device_index_any] prints. *)
Inductive Line : Set :=
  | Found (name : string) (index : nat).

(** [for i in range(self.midi_in.get_port_count())], from index [i] on;
    [ports] are the names [get_port_name] gives for [i], [i + 1], ... *)
Fixpoint find_port (name : string) (i : nat) (ports : list string) : option nat :=
  match ports with
  | [] => None
  | port_name :: rest =>
      if contains name port_name then Some i else find_port name (S i) rest
  end.

(** [for name in self.device_names], over the names left to try. *)
Fixpoint find_device (names : list string) (ports : list string)
    : list Line * option (nat * string) :=
  match names with
  | [] => ([], None)
  | name :: names' =>
      match find_port name 0 ports with
      | Some i => ([Found name i], Some (i, name))
      | None => find_device names' ports
      end
  end.

(** [_find_device_index_any()], given the names of the MIDI input ports
    present, in port order; [None] is the pair [(None, None)]. *)
Definition _find_device_index_any (ports : list string)
    : list Line * option (nat * string) :=
  find_device device_names ports.

(** The part of a listener that concerns the port. *)
Record Handle := {
  device_name : string;
  open_port : option nat;   (* the port [midi_in] has open *)
  has_callback : bool;      (* [set_callback] has been called *)
  running : bool
}.

(** What the constructor can raise. *)
Inductive InitError : Set :=
  | RuntimeError (message : string)
  | PortError.              (* raised by [midi_in.open_port] *)

(** [MidiListener()]: the lines printed, and the listener's port part or
    the exception. The event fields of a new listener are [Midi.init].
    [open_fails] tells whether [open_port] raises. *)
Definition __init__ (ports : list string) (open_fails : bool)
    : list Line * (InitError + Handle) :=
  let '(lines, found) := _find_device_index_any ports in
  match found with
  | None =>
      (lines,
       inl (RuntimeError ("Could not find any RD-88 MIDI device (tried: "
                          +:+ String.concat ", " device_names +:+ ")")))
  | Some (device_index, found_name) =>
      if open_fails then (lines, inl PortError)
      else (lines,
            inr {| device_name := found_name; open_port := Some device_index;
                   has_callback := false; running := true |})
  end.

(** [is_device_connected()] *)
Definition is_device_connected (ports : list string) (h : Handle) : bool :=
  existsb (contains (device_name h)) ports.

(** [start()] *)
Definition start (h : Handle) : Handle :=
  {| device_name := device_name h; open_port := open_port h;
     has_callback := true; running := running h |}.

(** [stop()] *)
Definition stop (h : Handle) : Handle :=
  {| device_name := device_name h; open_port := None;
     has_callback := has_callback h; running := false |}.

(** [name'] is tried before [name]. *)
Definition tried_before (name' name : string) : Prop :=
  ∃ k' k, k' < k ∧ device_names !! k' = Some name' ∧ device_names !! k = Some name.

End Ports.

(** ** The polling loop with its hotplug check *)

Module Loop.
Import Midi Video Main.

Inductive Line : Set :=
  | Disconnected                           (* "MIDI device disconnected!" *)
  | Reconnected                            (* "MIDI device reconnected!" *)
  | ReconnectFailed (e : Ports.InitError)  (* "Reconnect failed: ..." *)
  | PortLine (l : Ports.Line).

(** What one pass of [while True] reads from its environment. *)
Record Tick := {
  clock_check : float;      (* [time.time()] on line 487 *)
  ports : list string;      (* the MIDI input ports present during the check *)
  open_fails : bool;        (* whether [open_port] raises on reconnection *)
  clock_checked : float;    (* [time.time()] on line 502 *)
  fuel : nat;               (* bound on the inner loop of line 512 *)
  clock : float;            (* [time.time()] on line 510 *)
  wall : DateTime           (* [datetime.now()] in [start_recording] *)
}.

(** The variables of [__main__]. The listener is split in two: its event
    fields are [midi_listener (program s)], its port part is [handle s]. *)
Record State (Frame : Type) := {
  program : Program Frame;
  handle : Ports.Handle;
  last_device_check : float;
  stdout : list Line
}.
Arguments program {Frame} _.
Arguments handle {Frame} _.
Arguments last_device_check {Frame} _.
Arguments stdout {Frame} _.

Section loop.
Context {Frame : Type}.

Local Abbreviation State := (State Frame).

Definition set_program (p : Program Frame) (s : State) : State :=
  {| program := p; handle := handle s;
     last_device_check := last_device_check s; stdout := stdout s |}.
Definition set_last_device_check (t : float) (s : State) : State :=
  {| program := program s; handle := handle s;
     last_device_check := t; stdout := stdout s |}.

(** Lines 472-482: the two constructors, [last_device_check = time.time()],
    [device_connected = True], [midi_listener.start()]. An exception of
    [MidiListener()] ends the program. [fps0] is the frame rate the camera
    reports, [clock0] the reading of line 478. *)
Definition boot (ports0 : list string) (open_fails0 : bool) (fps0 : nat)
    (clock0 : float) : Ports.InitError + State :=
  match Ports.__init__ ports0 open_fails0 with
  | (lines, inl e) => inl e
  | (lines, inr h) =>
      inr {| program := {| midi_listener := Midi.init;
                           video_recorder := Video.init fps0;
                           device_connected := true; calls := [] |};
             handle := Ports.start h;
             last_device_check := clock0;
             stdout := PortLine <$> lines |}
  end.

(** [time.time() - last_device_check > 2] *)
Definition check_due (k : Tick) (s : State) : bool :=
  PrimFloat.ltb 2 (PrimFloat.sub (clock_check k) (last_device_check s)).

(** Lines 487-502. *)
Definition hotplug_check (k : Tick) (s : State) : State :=
  if check_due k s then
    let p := program s in
    let s1 :=
      if negb (Ports.is_device_connected (ports k) (handle s)) then
        if device_connected p then
          {| program := {| midi_listener := midi_listener p;
                           video_recorder := video_recorder p;
                           device_connected := false; calls := calls p |};
             handle := Ports.stop (handle s);
             last_device_check := last_device_check s;
             stdout := stdout s ++ [Disconnected] |}
        else s
      else
        if negb (device_connected p) then
          match Ports.__init__ (ports k) (open_fails k) with
          | (lines, inr h) =>
              {| program := {| midi_listener := Midi.init;
                               video_recorder := video_recorder p;
                               device_connected := true; calls := calls p |};
                 handle := Ports.start h;
                 last_device_check := last_device_check s;
                 stdout := stdout s ++ [Reconnected] ++ (PortLine <$> lines) |}
          | (lines, inl e) =>
              {| program := p; handle := handle s;
                 last_device_check := last_device_check s;
                 stdout := stdout s ++ [Reconnected] ++ (PortLine <$> lines)
                           ++ [ReconnectFailed e] |}
          end
        else s in
    set_last_device_check (clock_checked k) s1
  else s.

(** One pass of [while True]: the hotplug check, then lines 504-513. *)
Definition iteration (k : Tick) (s : State) : State :=
  let s1 := hotplug_check k s in
  set_program (exec (main_body (fuel k) (clock k) (wall k)) (program s1)) s1.

(** What happens while the program runs: a pass of the loop, a MIDI
    message delivered to the callback of the current listener, an
    iteration of the capture thread or of the encode worker. *)
Inductive Event :=
  | Iterate (k : Tick)
  | Deliver (now : float) (midi_message : list Z)
  | Captured (ret : bool) (frame : option Frame)
  | Worked (o : Oracle).

Definition on_listener (f : MidiListener → MidiListener) (s : State) : State :=
  set_program {| midi_listener := f (midi_listener (program s));
                 video_recorder := video_recorder (program s);
                 device_connected := device_connected (program s);
                 calls := calls (program s) |} s.

Definition on_recorder (f : VideoRecorder Frame → VideoRecorder Frame) (s : State)
    : State :=
  set_program {| midi_listener := midi_listener (program s);
                 video_recorder := f (video_recorder (program s));
                 device_connected := device_connected (program s);
                 calls := calls (program s) |} s.

Definition step (s : State) (e : Event) : State :=
  match e with
  | Iterate k => iteration k s
  | Deliver now midi_message => on_listener (exec (midi_callback now midi_message)) s
  | Captured ret frame => on_recorder (capture_iteration ret frame) s
  | Worked o => on_recorder (exec (worker_iteration o)) s
  end.

Definition run (evs : list Event) (s : State) : State := foldl step s evs.

(** The calls [cs] alternate, beginning with a start if [recording] is
    false and with a stop if it is true. *)
Fixpoint alternates (recording : bool) (cs : list Call) : bool :=
  match cs with
  | [] => true
  | CallStart :: cs' => negb recording && alternates true cs'
  | CallStop :: cs' => recording && alternates false cs'
  end.

(** Whether a recording is in progress after the calls [cs]. *)
Definition recording_after (recording : bool) (cs : list Call) : bool :=
  foldl (λ _ c, match c with CallStart => true | CallStop => false end)
        recording cs.

(** The listener has nothing to report: it is disconnected, or it has seen
    no event since it was created. *)
Definition silent (p : Program Frame) : Prop :=
  device_connected p = false
  ∨ (last_event_time (midi_listener p) = None
     ∧ note_event_occurred (midi_listener p) = false).

(** The calls alternate, the recorder's flag follows them, and each start
    has taken one id. *)
Definition in_step (s : State) : Prop :=
  let v := video_recorder (program s) in
  let cs := calls (program s) in
  alternates false cs = true
  ∧ recording v = recording_after false cs
  ∧ next_recording_id v = length (filter (λ c, c = CallStart) cs).

(** The last event the listener has seen, if any, was at time [t]. *)
Definition held (t : float) (s : State) : Prop :=
  ∀ t', last_event_time (midi_listener (program s)) = Some t' → t' = t.

End loop.
End Loop.

(** ** Shutting down *)

Module Shutdown.
Import Video.

Inductive Line : Set :=
  | ResourcesReleased    (* "Resources released" *)
  | ErrorReleasing.      (* "Error releasing resources: ..." *)

(** The recorder together with the flags its two threads test, and with
    what [release] prints. *)
Record Recorder (Frame : Type) := {
  core : VideoRecorder Frame;
  capture_running : bool;
  encoding_running : bool;
  capture_released : bool;    (* [self.capture.release()] has returned *)
  release_log : list Line
}.
Arguments core {Frame} _.
Arguments capture_running {Frame} _.
Arguments encoding_running {Frame} _.
Arguments capture_released {Frame} _.
Arguments release_log {Frame} _.

Section shutdown.
Context {Frame : Type}.

Local Abbreviation Recorder := (Recorder Frame).

(** The flags as [__init__] sets them. *)
Definition started (v : VideoRecorder Frame) : Recorder :=
  {| core := v; capture_running := true; encoding_running := true;
     capture_released := false; release_log := [] |}.

(** [release()]; [capture_fails] tells whether [self.capture.release()]
    raises. The three assignments come first, so they are made either
    way. *)
Definition release (capture_fails : bool) (r : Recorder) : Recorder :=
  let v := set_recording false (core r) in
  if capture_fails
  then {| core := v; capture_running := false; encoding_running := false;
          capture_released := capture_released r;
          release_log := release_log r ++ [ErrorReleasing] |}
  else {| core := v; capture_running := false; encoding_running := false;
          capture_released := true;
          release_log := release_log r ++ [ResourcesReleased] |}.

(** A turn of one of the two loops: the loop condition, then the body. *)
Inductive Turn :=
  | CaptureTurn (ret : bool) (frame : option Frame)  (* [while self.capture_running] *)
  | WorkerTurn (o : Oracle).                         (* [while self.encoding_running] *)

Definition on_core (f : VideoRecorder Frame → VideoRecorder Frame) (r : Recorder)
    : Recorder :=
  {| core := f (core r); capture_running := capture_running r;
     encoding_running := encoding_running r;
     capture_released := capture_released r; release_log := release_log r |}.

Definition turn (r : Recorder) (t : Turn) : Recorder :=
  match t with
  | CaptureTurn ret frame =>
      if capture_running r then on_core (capture_iteration ret frame) r else r
  | WorkerTurn o =>
      if encoding_running r then on_core (exec (worker_iteration o)) r else r
  end.

Definition turns (ts : list Turn) (r : Recorder) : Recorder := foldl turn r ts.

End shutdown.
End Shutdown.

(** ** VideoRecorder.__init__: choosing the camera *)

Module Camera.

(** What [cv2.VideoCapture(i)] gives: the device does not open, it opens
    but [read()] returns no frame, or [read()] returns a frame with
    [frame.shape[1] = width] and [frame.shape[0] = height]. *)
Inductive Probe : Set :=
  | NotOpened
  | NoFrame
  | Shape (width height : nat).

(** What the prompt gets: an empty line, a line [int()] accepts, a line it
    rejects, or an exception of [input()]. *)
Inductive Answer : Set :=
  | Blank
  | Number (n : Z)
  | NotANumber
  | NoAnswer.

(** The lines of the scan (the backend name of a camera is left out). *)
Inductive Line : Set :=
  | Scanning
  | Found700
  | NotFound700
  | CameraLine (i width height : nat)
  | FoundHighResolution (i : nat)
  | WarningNotFound
  | AvailableCameras
  | AvailableLine (i width height : nat)
  | PleaseSpecify.

(** [frame.shape[1] >= 1280 or frame.shape[0] >= 720] *)
Definition high_resolution (width height : nat) : bool :=
  bool_decide (1280 ≤ width) || bool_decide (720 ≤ height).

(** Whether the scan stops at a camera. *)
Definition high (p : Probe) : bool :=
  match p with
  | Shape width height => high_resolution width height
  | _ => false
  end.

Section camera.
Variable cams : nat → Probe.

(** [for i in range(1000)], from index [i] on with [n] indices to go:
    the camera found, [available_cameras] and the lines printed. *)
Fixpoint scan (i n : nat) (available : list (nat * (nat * nat))) (out : list Line)
    : option nat * list (nat * (nat * nat)) * list Line :=
  match n with
  | 0 => (None, available, out)
  | S n' =>
      match cams i with
      | Shape width height =>
          let available' := available ++ [(i, (width, height))] in
          let out' := out ++ [CameraLine i width height] in
          if high_resolution width height
          then (Some i, available', out' ++ [FoundHighResolution i])
          else scan (S i) n' available' out'
      | _ => scan (S i) n' available out
      end
  end.

(** The prompt: [int(user_input)] if the line is not empty, 0 if it is
    empty or anything raises. *)
Definition answered (answer : Answer) : Z :=
  match answer with
  | Number n => n
  | _ => 0%Z
  end.

(** Lines 141-195: [self.video_source] as it is when the capture is
    opened, and the lines printed. *)
Definition choose_camera (answer : Answer) : Z * list Line :=
  match cams 700 with
  | NotOpened =>
      let '(found, available, out) := scan 0 1000 [] [Scanning; NotFound700] in
      match found with
      | Some i => (Z.of_nat i, out)
      | None =>
          (answered answer,
           out ++ [WarningNotFound; AvailableCameras]
               ++ ((λ c, AvailableLine c.1 c.2.1 c.2.2) <$> available)
               ++ [PleaseSpecify])
      end
  | _ => (700%Z, [Scanning; Found700])
  end.

(** The cameras among [indices] that deliver a frame, with their shapes. *)
Definition delivering (indices : list nat) : list (nat * (nat * nat)) :=
  omap (λ i, match cams i with
             | Shape width height => Some (i, (width, height))
             | _ => None
             end) indices.

End camera.
End Camera.

(** ** The timestamps of [print] *)

Module Stamp.
Import Video.

(** What [datetime.now()] returns, to the microsecond. *)
Record Instant := {
  date : DateTime;
  microsecond : nat
}.

(** [strftime('%Y-%m-%d %H:%M:%S')] *)
Definition strftime_seconds (t : DateTime) : string :=
  zero_pad 4 (year t) +:+ "-" +:+ zero_pad 2 (month t) +:+ "-"
  +:+ zero_pad 2 (day t) +:+ " " +:+ zero_pad 2 (hour t) +:+ ":"
  +:+ zero_pad 2 (minute t) +:+ ":" +:+ zero_pad 2 (second t).

(** [strftime('%Y-%m-%d %H:%M:%S.%f')]: [%f] is the microsecond in six
    digits. *)
Definition strftime_f (t : Instant) : string :=
  strftime_seconds (date t) +:+ "." +:+ zero_pad 6 (microsecond t).

(** [s[:-3]] *)
Definition but_last_3 (s : string) : string :=
  String.substring 0 (String.length s - 3) s.

(** [timestamp = datetime.now().strftime('%Y-%m-%d %H:%M:%S.%f')[:-3]] *)
Definition timestamp (t : Instant) : string := but_last_3 (strftime_f t).

(** The line the wrapper hands to the built-in [print]:
    [f"[{timestamp}] {message}"] with [message = sep.join(str(arg) ...)];
    [args] are the arguments as [str] gives them. *)
Definition print (now : Instant) (sep : string) (args : list string) : string :=
  "[" +:+ timestamp now +:+ "] " +:+ String.concat sep args.

End Stamp.

(** ** More concrete states and inputs *)

Module Cases.
Import Midi Video Main Sessions Examples.

(** A note-on on channel 10 (status byte [0x99]) with velocity zero. *)
Definition note_on_10 : list Z := [153; 36; 0]%Z.

(** One second later than [a_start_time]. *)
Definition a_later_time : DateTime :=
  {| year := 2024; month := 3; day := 7; hour := 9; minute := 5; second := 1 |}.

(** Two recordings, both stopped, none of their tasks taken yet: at 1 fps,
    frame 1 is the pre-roll of recording 0 and frame 2 its only other
    frame; frame 2 is also the pre-roll of recording 1. *)
Definition two_sessions : VideoRecorder nat :=
  run [Capture true (Some 1); Start a_start_time; Capture true (Some 2); Stop;
       Start a_later_time; Capture true (Some 3); Stop]
      (init 1).


(** The program started with one keyboard plugged in, at 1 fps. *)
Definition one_keyboard : list string := ["Roland RD-88 0"].

Definition booted : Loop.State nat :=
  {| Loop.program := {| midi_listener := Midi.init; video_recorder := init 1;
                   device_connected := true; calls := [] |};
     Loop.handle := {| Ports.device_name := "RD-88 0"; Ports.open_port := Some 0;
                  Ports.has_callback := true; Ports.running := true |};
     Loop.last_device_check := 0%float;
     Loop.stdout := [Loop.PortLine (Ports.Found "RD-88 0" 0)] |}.

(** A pass at time [t] (in seconds) that sees [ports]. *)
Definition tick (t : float) (ports : list string) : Loop.Tick :=
  {| Loop.clock_check := t; Loop.ports := ports; Loop.open_fails := false;
     Loop.clock_checked := t; Loop.fuel := 2; Loop.clock := t;
     Loop.wall := a_start_time |}.

(** A key is struck at second 1 and the pass at second 1.5 starts the
    recording. *)
Definition playing : Loop.State nat :=
  Loop.run [Loop.Deliver 1%float note_on_10;
            Loop.Iterate (tick 1.5%float one_keyboard)]
           booted.

(** Then the keyboard is unplugged, which the pass at second 3 finds. *)
Definition unplugged : Loop.State nat :=
  Loop.run [Loop.Iterate (tick 3%float [])] playing.

(** 4567 microseconds past [a_start_time]. *)
Definition an_instant : Stamp.Instant :=
  {| Stamp.date := a_start_time; Stamp.microsecond := 4567 |}.

End Cases.

(** * Properties *)

(** ** The sustain pedal *)

Module MidiProofs.
Import Midi.
Local Open Scope Z_scope.

Lemma is_sustain_cc v : is_sustain (ControlChange 64 v) = true.
Proof. reflexivity. Qed.

(** What the callback does on a sustain message, by cases. *)
Lemma callback_sustain t v m :
  midi_callback t (ControlChange 64 v) m =
  (Return tt,
   if bool_decide (v < 40) then
     if pedal_pressed m
     then set_pedal_pressed false (set_last_event_time t (print (PedalReleased v) m))
     else print (IgnoringNoisyPedal v) m
   else
     set_last_event_time t
       (set_note_event_occurred true
          (if pedal_pressed m then m
           else set_pedal_pressed true (print (PedalPressed v) m)))).
Proof.
  unfold midi_callback, py_bind, py_get, py_modify, py_ret, subscript; simpl.
  case_bool_decide; destruct (pedal_pressed m); reflexivity.
Qed.

Lemma run_sustain_cons t v rest m :
  run_sustain ((t, v) :: rest) m
  = run_sustain rest (exec (midi_callback t (ControlChange 64 v)) m).
Proof.
  simpl. unfold py_bind, exec. rewrite callback_sustain. reflexivity.
Qed.

Lemma run_sustain_returns pre m :
  run_sustain pre m = (Return tt, exec (run_sustain pre) m).
Proof.
  revert m. induction pre as [|[t v] pre IH]; intros m; [done|].
  unfold exec. rewrite run_sustain_cons, IH. reflexivity.
Qed.

Lemma run_sustain_app pre post m :
  run_sustain (pre ++ post) m = run_sustain post (exec (run_sustain pre) m).
Proof.
  revert m. induction pre as [|[t v] pre IH]; intros m; [done|].
  unfold exec. rewrite <- app_comm_cons, !run_sustain_cons. apply IH.
Qed.

Lemma emitted_log m m' ls :
  midi_log m' = midi_log m ++ ls → emitted m m' = ls.
Proof. unfold emitted. intros ->. by rewrite drop_app_length. Qed.

(** C4. Debounce correctness. Take any run of the callback over sustain
    messages (ControlChange, controller 64) and one more such message with
    value [v], received at time [t] in the state [m] the run has reached.
    The callback returns normally; it prints a release iff [m] was pressed
    and [v < 40], and then the pedal is released and [last_event_time] is
    [t]; with [v < 40] and [m] already released, the pedal state, the pulse
    and [last_event_time] stay as they are and no transition is printed;
    with [v >= 40], whatever [m] was, the pedal is pressed, the pulse is
    set and [last_event_time] is [t]. *)
Theorem debounce_correct (m0 : MidiListener) (pre : list (float * Z))
    (t : float) (v : Z) :
  let m := exec (run_sustain pre) m0 in
  let m' := exec (midi_callback t (ControlChange 64 v)) m in
  run_sustain (pre ++ [(t, v)]) m0 = (Return tt, m')
  ∧ (existsb is_release (emitted m m') = true ↔ pedal_pressed m = true ∧ v < 40)
  ∧ (pedal_pressed m = true → v < 40 →
       emitted m m' = [PedalReleased v]
       ∧ pedal_pressed m' = false
       ∧ last_event_time m' = Some t
       ∧ note_event_occurred m' = note_event_occurred m)
  ∧ (pedal_pressed m = false → v < 40 →
       emitted m m' = [IgnoringNoisyPedal v]
       ∧ pedal_pressed m' = false
       ∧ last_event_time m' = last_event_time m
       ∧ note_event_occurred m' = note_event_occurred m)
  ∧ (40 ≤ v →
       pedal_pressed m' = true
       ∧ note_event_occurred m' = true
       ∧ last_event_time m' = Some t
       ∧ emitted m m' = if pedal_pressed m then [] else [PedalPressed v]).
Proof.
  intros m m'.
  assert (Hm' : midi_callback t (ControlChange 64 v) m = (Return tt, m')).
  { subst m'. unfold exec. rewrite callback_sustain. reflexivity. }
  split.
  { rewrite run_sustain_app. fold m. rewrite run_sustain_cons. reflexivity. }
  subst m'. unfold exec. rewrite callback_sustain. simpl.
  case_bool_decide as Hv; destruct (pedal_pressed m) eqn:Hp; simpl.
  - rewrite (emitted_log _ _ [PedalReleased v]) by done.
    simpl. repeat split; try done; try lia; intros [? ?]; done || lia.
  - rewrite (emitted_log _ _ [IgnoringNoisyPedal v]) by done.
    simpl. repeat split; try done; try lia; intros [? ?]; done || lia.
  - rewrite (emitted_log _ _ []) by (simpl; by rewrite app_nil_r).
    simpl. repeat split; try done; try lia; intros [? ?]; done || lia.
  - rewrite (emitted_log _ _ [PedalPressed v]) by done.
    simpl. repeat split; try done; try lia; intros [? ?]; done || lia.
Qed.

End MidiProofs.

(** ** The recorder: closed forms of the methods *)

Module VideoFacts.
Import Video Sessions.

Section facts.
Context {Frame : Type}.
Implicit Types v : VideoRecorder Frame.

Lemma truthy_length {A} (l : list A) : bool_decide (0 < length l) = truthy l.
Proof. destruct l; [done|]. apply bool_decide_eq_true_2. simpl. lia. Qed.

Lemma truthy_true {A} (l : list A) : truthy l = true ↔ l ≠ [].
Proof. destruct l; simpl; split; congruence. Qed.

Lemma start_recording_idle now v :
  recording v = false →
  start_recording now v =
  {| fps := fps v; recording := true;
     next_recording_id := next_recording_id v + 1;
     current_recording_id := Some (next_recording_id v);
     active_recordings :=
       <[next_recording_id v := {| start_time := now; frame_count := 0 |}]>
         (active_recordings v);
     frame_buffer := [];
     encoding_queue :=
       encoding_queue v ++ batch (frame_buffer v) (Some (next_recording_id v));
     containers :=
       <[next_recording_id v := {| muxed := []; closed := false |}]> (containers v);
     files := files v; log := log v ++ [LogStarting] |}.
Proof.
  intros Hrec. unfold start_recording, snapshot_preroll, batch. rewrite Hrec. simpl.
  rewrite truthy_length.
  unfold put, set_frame_buffer, set_current_recording_id, set_recording; simpl.
  destruct (frame_buffer v) eqn:Hb; simpl; rewrite ?Hb, ?app_nil_r; reflexivity.
Qed.

Lemma start_recording_active now v :
  recording v = true → start_recording now v = v.
Proof. intros Hrec. unfold start_recording. by rewrite Hrec. Qed.

Lemma stop_recording_active v :
  recording v = true →
  stop_recording v =
  {| fps := fps v; recording := false;
     next_recording_id := next_recording_id v;
     current_recording_id := None;
     active_recordings := active_recordings v;
     frame_buffer := frame_buffer v;
     encoding_queue :=
       encoding_queue v ++ batch (frame_buffer v) (current_recording_id v)
       ++ [FinalizeRecording (current_recording_id v)];
     containers := containers v;
     files := files v; log := log v ++ [LogStopping] |}.
Proof.
  intros Hrec. unfold stop_recording, batch. rewrite Hrec. simpl.
  rewrite truthy_length.
  unfold put, set_current_recording_id, set_recording; simpl.
  destruct (frame_buffer v) eqn:Hb; simpl; rewrite ?Hb, <- ?app_assoc; reflexivity.
Qed.

Lemma stop_recording_idle v :
  recording v = false → stop_recording v = v.
Proof. intros Hrec. unfold stop_recording. by rewrite Hrec. Qed.

Lemma recording_start now v : recording (start_recording now v) = true.
Proof.
  destruct (recording v) eqn:Hrec.
  - by rewrite start_recording_active.
  - by rewrite start_recording_idle.
Qed.

Lemma recording_stop v : recording (stop_recording v) = false.
Proof.
  destruct (recording v) eqn:Hrec.
  - by rewrite stop_recording_active.
  - by rewrite stop_recording_idle.
Qed.

Lemma deque_append_drop cap (b : list Frame) (f : Frame) :
  length b ≤ cap →
  deque_append cap b f = drop (length (b ++ [f]) - cap) (b ++ [f])
  ∧ length (deque_append cap b f) ≤ cap.
Proof.
  intros Hb. unfold deque_append. rewrite length_app. simpl.
  case_bool_decide as Hfull.
  - replace (length b + 1 - cap) with 1 by lia.
    split; [done|]. rewrite length_drop, length_app. simpl. lia.
  - replace (length b + 1 - cap) with 0 by lia.
    split; [done|]. rewrite length_app. simpl. lia.
Qed.

End facts.
End VideoFacts.

(** ** The stop decision *)

Module MainProofs.
Import Midi Video Main VideoFacts.

Section proofs.
Context {Frame : Type}.
Implicit Types p : Program Frame.

Lemma check_and_clear_event_spec (m : MidiListener) :
  ∃ m', check_and_clear_event m = (Return (note_event_occurred m), m')
        ∧ note_event_occurred m' = false
        ∧ last_event_time m' = last_event_time m
        ∧ pedal_pressed m' = pedal_pressed m.
Proof.
  unfold check_and_clear_event, py_bind, py_get, py_modify, py_ret.
  destruct (note_event_occurred m) eqn:Hn; simpl; eauto.
Qed.

Lemma drain_events_spec (k : nat) (m : MidiListener) :
  ∃ m', drain_events (S (S k)) m = (Return true, m')
        ∧ note_event_occurred m' = false.
Proof.
  destruct (check_and_clear_event_spec m) as (m1 & H1 & Hn1 & _).
  destruct (check_and_clear_event_spec m1) as (m2 & H2 & Hn2 & _).
  rewrite Hn1 in H2.
  simpl. unfold py_bind at 1. rewrite H1.
  destruct (note_event_occurred m).
  - unfold py_bind at 1. rewrite H2. eauto.
  - eauto.
Qed.

Lemma elem_of_new_calls_app p cs c :
  c ∈ drop (length (calls p)) (calls p ++ cs) ↔ c ∈ cs.
Proof. by rewrite drop_app_length. Qed.



End proofs.
End MainProofs.

(** ** The pre-roll buffer and the capture loop *)

Module CaptureProofs.
Import Video Sessions VideoFacts.

Section proofs.
Context {Frame : Type}.
Implicit Types (v : VideoRecorder Frame) (b fs : list Frame).

(** A capture iteration with no recording active: the read frame, if any,
    goes through [deque.append]; nothing else changes. *)
Lemma capture_idle ret frame v :
  recording v = false →
  capture_iteration ret frame v =
  match pushed_frame (ret, frame) with
  | Some f => set_frame_buffer (deque_append (buffer_size v) (frame_buffer v) f) v
  | None => v
  end.
Proof.
  intros Hrec. unfold capture_iteration, capture_locked, pushed_frame. simpl.
  rewrite Hrec. simpl. by destruct ret, frame.
Qed.

Lemma drop_keep_last cap b (f : Frame) fs :
  let k := length (b ++ [f]) - cap in
  drop (length (drop k (b ++ [f]) ++ fs) - cap) (drop k (b ++ [f]) ++ fs)
  = drop (length (b ++ f :: fs) - cap) (b ++ f :: fs).
Proof.
  intros k.
  assert (Hk : k ≤ length (b ++ [f])) by (subst k; lia).
  rewrite <- (drop_app_le (b ++ [f]) fs k) by done.
  rewrite drop_drop, length_drop, <- app_assoc. simpl. f_equal.
  subst k. rewrite !length_app. simpl. lia.
Qed.

(** The buffer after a run of capture iterations with no recording active
    holds the most recent frames, as many as fit. *)
Lemma preroll_run reads v :
  recording v = false →
  length (frame_buffer v) ≤ buffer_size v →
  run (captures reads) v =
  set_frame_buffer
    (drop (length (frame_buffer v ++ omap pushed_frame reads) - buffer_size v)
          (frame_buffer v ++ omap pushed_frame reads)) v.
Proof.
  revert v. induction reads as [|[ret frame] reads IH]; intros v Hrec Hb.
  - simpl. rewrite app_nil_r. replace (_ - _) with 0 by lia.
    by destruct v.
  - unfold run in *. simpl. rewrite capture_idle by done.
    destruct (pushed_frame (ret, frame)) as [f|] eqn:Hf; [|by apply IH].
    destruct (deque_append_drop (buffer_size v) (frame_buffer v) f Hb) as [Hd Hl].
    rewrite IH; [|done|done]. clear IH.
    unfold set_frame_buffer. simpl. f_equal.
    change (buffer_size (set_frame_buffer ?b v)) with (buffer_size v).
    rewrite Hd. apply drop_keep_last.
Qed.

(** C5. Pre-roll invariant. Starting from an empty buffer with no recording
    active, after any run of capture iterations that pushed [n] frames the
    buffer holds [min capacity n] frames, where
    [capacity = fps * preroll_seconds], and they are the last
    [min capacity n] frames pushed, in push order. *)
Theorem preroll_invariant (reads : list (bool * option Frame)) v :
  recording v = false →
  frame_buffer v = [] →
  let fs := omap pushed_frame reads in
  let n := length fs in
  let capacity := fps v * preroll_seconds in
  let v' := run (captures reads) v in
  buffer_size v' = capacity
  ∧ length (frame_buffer v') = min capacity n
  ∧ frame_buffer v' = drop (n - min capacity n) fs
  ∧ recording v' = false
  ∧ encoding_queue v' = encoding_queue v.
Proof.
  intros Hrec Hb fs n capacity v'.
  assert (Hv' : v' = set_frame_buffer (drop (n - capacity) fs) v).
  { subst v' n capacity. rewrite preroll_run by (rewrite ?Hb; simpl; done || lia).
    rewrite Hb. reflexivity. }
  rewrite Hv'. unfold buffer_size. simpl.
  rewrite length_drop. fold n.
  repeat split; try done; try lia.
  f_equal. lia.
Qed.

(** C6. Drain-on-full while recording. In a capture iteration that got a
    frame (capacity positive, buffer within capacity): if a recording is
    active and the buffer has reached capacity, the whole buffer, which
    holds exactly [capacity] frames, leaves as one [EncodeFrames] task for
    the current recording, appended to the queue, and the buffer then holds
    the new frame alone; otherwise no task is queued and the frame is
    pushed (appended, with the oldest frame evicted if the buffer was full).
    Nothing else changes. *)
Theorem drain_on_full (f : Frame) v :
  0 < buffer_size v →
  length (frame_buffer v) ≤ buffer_size v →
  let v' := capture_iteration true (Some f) v in
  (recording v = true ∧ buffer_size v ≤ length (frame_buffer v) →
     length (frame_buffer v) = buffer_size v
     ∧ encoding_queue v' =
         encoding_queue v ++ [EncodeFrames (frame_buffer v) (current_recording_id v)]
     ∧ frame_buffer v' = [f])
  ∧ (recording v = false ∨ length (frame_buffer v) < buffer_size v →
     encoding_queue v' = encoding_queue v
     ∧ frame_buffer v' = deque_append (buffer_size v) (frame_buffer v) f
     ∧ (length (frame_buffer v) < buffer_size v →
        frame_buffer v' = frame_buffer v ++ [f]))
  ∧ v' = set_encoding_queue (encoding_queue v')
           (set_frame_buffer (frame_buffer v') v).
Proof.
  intros Hcap Hb v'. subst v'.
  assert (Hpush : length (frame_buffer v) < buffer_size v →
                  deque_append (buffer_size v) (frame_buffer v) f = frame_buffer v ++ [f]).
  { intros Hlt. unfold deque_append. rewrite length_app. simpl.
    case_bool_decide; [lia|done]. }
  unfold capture_iteration, capture_locked.
  destruct (recording v) eqn:Hrec; simpl.
  - case_bool_decide as Hfull; simpl.
    + assert (Hne : truthy (frame_buffer v) = true).
      { destruct (frame_buffer v); simpl in *; [lia|done]. }
      rewrite Hne. simpl.
      assert (Hd : deque_append (buffer_size v) [] f = [f]).
      { unfold deque_append. simpl. case_bool_decide; [lia|done]. }
      change (buffer_size (set_frame_buffer [] v)) with (buffer_size v).
      rewrite Hd.
      split; [intros _; split; [lia|done]|].
      split; [intros [?|?]; [done|lia]|done].
    + split; [intros [_ ?]; lia|].
      split; [intros _; auto|done].
  - split; [intros [? _]; done|].
    split; [intros _; auto|done].
Qed.

End proofs.
End CaptureProofs.

(** ** The encode worker: closed forms *)

Module WorkerFacts.
Import Video Sessions VideoFacts.

Section facts.
Context {Frame : Type}.
Implicit Types (v : VideoRecorder Frame) (frames : list Frame).

Lemma mux_all_fields r l v :
  mux_all r l v = set_containers (containers (mux_all r l v)) v.
Proof.
  revert v. induction l as [|a l IH]; intros v; simpl.
  - by destruct v.
  - rewrite IH. unfold mux at 2. by destruct v.
Qed.

Lemma mux_all_lookup r l v r' :
  containers (mux_all r l v) !! r' =
  if decide (r = r')
  then (λ c, {| muxed := muxed c ++ l; closed := closed c |}) <$> containers v !! r
  else containers v !! r'.
Proof.
  revert v. induction l as [|a l IH]; intros v; simpl.
  - case_decide as Hr; [subst r'|done].
    destruct (containers v !! r) as [[m c]|]; simpl; by rewrite ?app_nil_r.
  - rewrite IH. unfold mux. simpl. rewrite !lookup_alter.
    rewrite (decide_True (P:=r = r)) by done.
    case_decide as Hr; [|done].
    destruct (containers v !! r) as [[m c]|]; simpl; [|done].
    by rewrite <- app_assoc.
Qed.

Lemma muxed_until_length fault i frames :
  length (muxed_until fault i frames) ≤ length frames.
Proof.
  revert i. induction frames as [|f frames IH]; intros i; simpl; [done|].
  case_bool_decide; simpl; [lia|]. specialize (IH (S i)). lia.
Qed.

Lemma muxed_until_no_fault i frames : muxed_until None i frames = frames.
Proof.
  revert i. induction frames as [|f frames IH]; intros i; simpl; [done|].
  by rewrite IH.
Qed.

Lemma muxed_until_prefix fault i frames :
  muxed_until fault i frames `prefix_of` frames.
Proof.
  revert i. induction frames as [|f frames IH]; intros i; simpl; [done|].
  case_bool_decide; [apply prefix_nil|]. by apply prefix_cons.
Qed.

(** The loop of [_encode_frames] when the frame rate is positive: the
    frames before the fault are muxed with their timestamps, and the loop
    raises iff there is a fault within the batch. *)
Lemma encode_loop_spec fault r fc i frames v n :
  fps v = S n →
  encode_loop fault r fc i frames v =
  (if bool_decide (length (muxed_until fault i frames) = length frames)
   then Return tt else Raise EncoderError,
   mux_all r (stamp (1 # Pos.of_nat (S n)) fc i (muxed_until fault i frames)) v).
Proof.
  revert i v. induction frames as [|f frames IH]; intros i v Hfps; [done|].
  cbn [encode_loop muxed_until]. unfold py_bind at 1, py_get.
  unfold py_bind at 1, fraction_1. rewrite Hfps.
  change (py_ret (A:=Q) ?q v) with (Return q, v).
  cbn beta iota. unfold py_bind at 1.
  case_bool_decide as Hfault.
  - reflexivity.
  - change (py_ret tt v) with (Return tt, v). cbn beta iota.
    unfold py_bind at 1, py_modify. rewrite IH by done.
    cbn [stamp mux_all foldl length].
    repeat case_bool_decide; try lia; reflexivity.
Qed.

(** With a frame rate of zero [Fraction(1, self.fps)] raises on the first
    frame. *)
Lemma encode_loop_zero_fps fault r fc i f frames v :
  fps v = 0 →
  encode_loop fault r fc i (f :: frames) v = (Raise ZeroDivisionError, v).
Proof.
  intros Hfps. cbn [encode_loop]. unfold py_bind at 1, py_get.
  unfold py_bind at 1, fraction_1. by rewrite Hfps.
Qed.

Lemma encode_frames_empty fault rid v :
  _encode_frames fault [] rid v = (Return tt, v).
Proof. reflexivity. Qed.

Lemma encode_frames_not_found fault frames rid v :
  frames ≠ [] →
  lookup_recording rid v = None →
  _encode_frames fault frames rid v =
  (Return tt,
   print (LogNotFound rid) (print (LogEncoding (length frames) rid) v)).
Proof.
  intros Hne Hlook. unfold _encode_frames.
  destruct frames as [|f frames]; [done|]. cbn [truthy negb].
  unfold py_bind, py_modify, py_get.
  change (lookup_recording rid (print ?l v)) with (lookup_recording rid v).
  by rewrite Hlook.
Qed.

Lemma lookup_recording_Some r d v :
  active_recordings v !! r = Some d → lookup_recording (Some r) v = Some (r, d).
Proof. intros H. unfold lookup_recording. simpl. by rewrite H. Qed.

Lemma lookup_recording_None rid v :
  lookup_recording rid v = None ↔
  ∀ r, rid = Some r → active_recordings v !! r = None.
Proof.
  unfold lookup_recording. destruct rid as [r|]; simpl.
  - destruct (active_recordings v !! r) eqn:Hr; simpl.
    + split; [done|]. intros H. specialize (H r eq_refl). congruence.
    + split; [|done]. intros _ ? [= <-]. done.
  - split; [|done]. intros _ ? [=].
Qed.

(** [_encode_frames] on a batch for a live recording, frame rate positive. *)
Lemma encode_frames_live fault frames r d v n :
  frames ≠ [] →
  active_recordings v !! r = Some d →
  fps v = S n →
  _encode_frames fault frames (Some r) v =
  (Return tt,
   let v1 := mux_all r (stamp (1 # Pos.of_nat (S n)) (frame_count d) 0
                              (muxed_until fault 0 frames))
                     (print (LogEncoding (length frames) (Some r)) v) in
   if bool_decide (length (muxed_until fault 0 frames) = length frames)
   then print (LogEncoded (length frames) (Some r))
              (update_frame_count r (frame_count d + length frames) v1)
   else print (LogEncodeError EncoderError) v1).
Proof.
  intros Hne Hd Hfps. unfold _encode_frames.
  destruct frames as [|f frames]; [done|]. cbn [truthy negb].
  unfold py_bind at 1, py_modify at 1. unfold py_bind at 1, py_get.
  change (lookup_recording (Some r) (print ?l v)) with (lookup_recording (Some r) v).
  rewrite (lookup_recording_Some r d) by done.
  unfold try_except, py_bind at 1.
  rewrite (encode_loop_spec _ _ _ _ _ _ n) by done.
  cbn zeta. case_bool_decide; reflexivity.
Qed.

Lemma encode_frames_zero_fps fault frames r d v :
  frames ≠ [] →
  active_recordings v !! r = Some d →
  fps v = 0 →
  _encode_frames fault frames (Some r) v =
  (Return tt,
   print (LogEncodeError ZeroDivisionError)
         (print (LogEncoding (length frames) (Some r)) v)).
Proof.
  intros Hne Hd Hfps. unfold _encode_frames.
  destruct frames as [|f frames]; [done|]. cbn [truthy negb].
  unfold py_bind at 1, py_modify at 1. unfold py_bind at 1, py_get.
  change (lookup_recording (Some r) (print ?l v)) with (lookup_recording (Some r) v).
  rewrite (lookup_recording_Some r d) by done.
  unfold try_except, py_bind at 1.
  by rewrite encode_loop_zero_fps.
Qed.

(** [_finalize_recording] when the recording is not in the map. *)
Lemma finalize_not_found fault rid v :
  lookup_recording rid v = None →
  _finalize_recording fault rid v = (Return tt, print (LogNotFound rid) v).
Proof.
  intros Hlook. unfold _finalize_recording, try_except, py_bind, py_get.
  by rewrite Hlook.
Qed.

(** [_finalize_recording] on a live recording, by outcome. *)
Lemma finalize_live fault r d v :
  active_recordings v !! r = Some d →
  _finalize_recording fault (Some r) v =
  (Return tt,
   let v0 := set_active_recordings (delete r (active_recordings v)) v in
   match fault with
   | Some FlushFails => print (LogFinalizeError (Some r) EncoderError) v0
   | Some CloseFails => print (LogFinalizeError (Some r) EncoderError) v0
   | Some WriteFails =>
       print (LogFinalizeError (Some r) OSError) (close_container r v0)
   | None =>
       print (LogSaved (video_file (start_time d)) (frame_count d))
             (write_file (video_file (start_time d)) r (close_container r v0))
   end).
Proof.
  intros Hd. unfold _finalize_recording, try_except, py_bind at 1, py_get.
  rewrite (lookup_recording_Some r d) by done.
  destruct fault as [[]|]; reflexivity.
Qed.

Lemma worker_idle o v :
  encoding_queue v = [] → worker_iteration o v = (Return tt, v).
Proof.
  intros Hq. unfold worker_iteration, try_except, py_bind, queue_get.
  by rewrite Hq.
Qed.

Lemma worker_encode o frames rid q v :
  encoding_queue v = EncodeFrames frames rid :: q →
  worker_iteration o v =
  (Return tt,
   (_encode_frames (encode_fault o) frames rid (set_encoding_queue q v)).2).
Proof.
  intros Hq. unfold worker_iteration, try_except, py_bind, queue_get.
  rewrite Hq.
  destruct (_encode_frames (encode_fault o) frames rid (set_encoding_queue q v))
    as [[[]|e] v'] eqn:He; reflexivity.
Qed.

Lemma worker_finalize o rid q v :
  encoding_queue v = FinalizeRecording rid :: q →
  worker_iteration o v =
  (Return tt,
   (_finalize_recording (finalize_fault o) rid (set_encoding_queue q v)).2).
Proof.
  intros Hq. unfold worker_iteration, try_except, py_bind, queue_get.
  rewrite Hq.
  destruct (_finalize_recording (finalize_fault o) rid (set_encoding_queue q v))
    as [[[]|e] v'] eqn:He; reflexivity.
Qed.

End facts.
End WorkerFacts.

(** ** The invariant of reachable states *)

Module Invariant.
Import Video Sessions VideoFacts WorkerFacts.

Section proofs.
Context {Frame : Type}.
Implicit Types (v : VideoRecorder Frame) (q : list (Task Frame)) (live : gset nat).

Lemma live_after_app live q1 q2 :
  live_after live (q1 ++ q2) = live_after (live_after live q1) q2.
Proof.
  revert live. induction q1 as [|[fs rid|[r|]] q1 IH]; intros live; simpl; auto.
Qed.

Lemma queue_ok_app live q1 q2 :
  queue_ok live (q1 ++ q2) ↔ queue_ok live q1 ∧ queue_ok (live_after live q1) q2.
Proof.
  revert live. induction q1 as [|[fs [r|]|[r|]] q1 IH]; intros live; simpl;
    rewrite ?IH; tauto.
Qed.

Lemma live_after_subseteq live q : live_after live q ⊆ live.
Proof.
  revert live. induction q as [|[fs rid|[r|]] q IH]; intros live; simpl; auto.
  etrans; [apply IH|]. set_solver.
Qed.

Lemma queue_ok_mono live live' q :
  live ⊆ live' → queue_ok live q → queue_ok live' q.
Proof.
  revert live live'. induction q as [|[fs [r|]|[r|]] q IH]; intros live live' Hsub; simpl;
    try tauto.
  - intros (? & ? & ?). eauto.
  - intros (? & ?). split; [set_solver|]. eapply IH; [|done]. set_solver.
Qed.

(** A recording that no task of the queue can name stays live. *)
Lemma live_after_fresh live live' q r :
  queue_ok live q → r ∉ live → r ∈ live' → r ∈ live_after live' q.
Proof.
  revert live live'. induction q as [|[fs [r'|]|[r'|]] q IH]; intros live live'; simpl;
    try tauto.
  - intros (? & ? & ?) ? ?. eauto.
  - intros (? & ?) ? ?. eapply IH; [done| |]; set_solver.
Qed.

Lemma pending_fresh live q r :
  queue_ok live q → r ∉ live → pending r q = [].
Proof.
  revert live. induction q as [|[fs [r'|]|[r'|]] q IH]; intros live; simpl; try tauto.
  - intros (? & ? & ?) ?. rewrite bool_decide_eq_false_2 by set_solver. simpl. eauto.
  - intros (? & ?) ?. eapply IH; [done|]. set_solver.
Qed.

Lemma mux_all_dom r l v : dom (containers (mux_all r l v)) = dom (containers v).
Proof.
  apply set_eq. intros r'. rewrite !elem_of_dom, mux_all_lookup.
  case_decide as Hr; [subst r'|done]. by rewrite fmap_is_Some.
Qed.

Lemma wf_init fps0 : wf (init (Frame:=Frame) fps0).
Proof.
  split; simpl; try done.
  lia.
Qed.

Lemma wf_capture ret frame v : wf v → wf (capture_iteration ret frame v).
Proof.
  intros [Hb Hids Hcs Hlive Hq Hcur].
  unfold capture_iteration. destruct ret, frame as [f|]; try done.
  unfold capture_locked.
  destruct (recording v) eqn:Hrec; simpl.
  - destruct Hcur as (c & Hc & Hcl).
    case_bool_decide as Hfull; simpl.
    + destruct (truthy (frame_buffer v)) eqn:Hne; simpl.
      * split; simpl; rewrite ?Hrec; try done.
        -- apply (deque_append_drop (buffer_size v) [] f). simpl. lia.
        -- rewrite Hc. apply queue_ok_app. split; [done|]. simpl.
           split; [by apply truthy_true|done].
        -- exists c. split; [done|]. by rewrite live_after_app.
      * split; simpl; rewrite ?Hrec; try done; eauto.
        apply (deque_append_drop (buffer_size v) [] f). simpl. lia.
    + split; simpl; rewrite ?Hrec; try done; eauto.
      by apply (deque_append_drop (buffer_size v)).
  - split; simpl; rewrite ?Hrec; try done.
    by apply (deque_append_drop (buffer_size v)).
Qed.

Lemma wf_start now v : wf v → wf (start_recording now v).
Proof.
  intros [Hb Hids Hcs Hlive Hq Hcur].
  destruct (recording v) eqn:Hrec.
  { rewrite start_recording_active by done. split; rewrite ?Hrec; done. }
  rewrite start_recording_idle by done.
  assert (Hfresh : next_recording_id v ∉ dom (active_recordings v)).
  { intros ?%Hids. lia. }
  split; simpl.
  - lia.
  - intros r. rewrite dom_insert_L, elem_of_union, elem_of_singleton.
    intros [->|?%Hids]; lia.
  - intros r. rewrite dom_insert_L, elem_of_union, elem_of_singleton.
    intros [->|?%Hcs]; lia.
  - rewrite !dom_insert_L. set_solver.
  - rewrite dom_insert_L. apply queue_ok_app. split.
    + eapply queue_ok_mono; [|done]. set_solver.
    + unfold batch. destruct (truthy (frame_buffer v)) eqn:Hne; simpl; [|done].
      split; [by apply truthy_true|]. split; [|done].
      eapply live_after_fresh; [done|done|set_solver].
  - eexists. split; [done|]. rewrite dom_insert_L, live_after_app.
    assert (Hin : next_recording_id v
                  ∈ live_after ({[next_recording_id v]} ∪ dom (active_recordings v))
                               (encoding_queue v)).
    { eapply live_after_fresh; [done|done|set_solver]. }
    unfold batch. by destruct (truthy (frame_buffer v)).
Qed.

Lemma wf_stop v : wf v → wf (stop_recording v).
Proof.
  intros [Hb Hids Hcs Hlive Hq Hcur].
  destruct (recording v) eqn:Hrec.
  2:{ rewrite stop_recording_idle by done. split; rewrite ?Hrec; done. }
  rewrite stop_recording_active by done.
  destruct Hcur as (c & Hc & Hcl). rewrite Hc.
  split; simpl; try done.
  apply queue_ok_app. split; [done|].
  unfold batch. destruct (truthy (frame_buffer v)) eqn:Hne; simpl; [|done].
  split; [by apply truthy_true|]. done.
Qed.

(** The parts of the state the invariant reads. *)
Lemma wf_ext v v' :
  wf v →
  frame_buffer v' = frame_buffer v → fps v' = fps v →
  next_recording_id v' = next_recording_id v →
  dom (active_recordings v') = dom (active_recordings v) →
  dom (containers v') = dom (containers v) →
  encoding_queue v' = encoding_queue v →
  recording v' = recording v →
  current_recording_id v' = current_recording_id v →
  wf v'.
Proof.
  intros [Hb Hids Hcs Hlive Hq Hcur] Eb Ef En Ea Ec Eq Er Ecur.
  split; unfold buffer_size; rewrite ?Eb, ?Ef, ?En, ?Ea, ?Ec, ?Eq, ?Er, ?Ecur; done.
Qed.

Lemma wf_encode_frames fault frames rid v :
  wf v → wf (_encode_frames fault frames rid v).2.
Proof.
  intros Hwf.
  destruct frames as [|f frames]; [done|].
  set (fs := f :: frames). assert (Hne : fs ≠ []) by done. clearbody fs.
  destruct (lookup_recording rid v) as [[r d]|] eqn:Hlook.
  2:{ rewrite encode_frames_not_found by done. by eapply wf_ext. }
  unfold lookup_recording in Hlook. destruct rid as [r'|]; [|done]. simpl in Hlook.
  destruct (active_recordings v !! r') as [d'|] eqn:Hd; simplify_eq/=.
  destruct (fps v) as [|n] eqn:Hfps.
  { rewrite (encode_frames_zero_fps _ _ _ d) by done. by eapply wf_ext. }
  rewrite (encode_frames_live _ _ _ d _ n) by done. simpl.
  case_bool_decide; rewrite mux_all_fields; simpl.
  - eapply wf_ext; try done; simpl.
    + apply set_eq. intros r'. by rewrite !elem_of_dom, lookup_alter_is_Some.
    + by rewrite mux_all_dom.
  - eapply wf_ext; try done; simpl. by rewrite mux_all_dom.
Qed.

(** Taking a [FinalizeRecording] task from the head of the queue and
    deleting its recording keeps the invariant. *)
Lemma wf_finalized r q v v' :
  wf v → encoding_queue v = FinalizeRecording (Some r) :: q →
  frame_buffer v' = frame_buffer v → fps v' = fps v →
  next_recording_id v' = next_recording_id v →
  active_recordings v' = delete r (active_recordings v) →
  dom (containers v') = dom (containers v) →
  encoding_queue v' = q →
  recording v' = recording v →
  current_recording_id v' = current_recording_id v →
  wf v'.
Proof.
  intros [Hb Hids Hcs Hlive Hq Hcur] Hqueue Eb Ef En Ea Ec Eq Er Ecur.
  rewrite Hqueue in Hq, Hcur. destruct Hq as [Hr Hq]. simpl in Hcur.
  split; unfold buffer_size;
    rewrite ?Eb, ?Ef, ?En, ?Ea, ?Ec, ?Eq, ?Er, ?Ecur, ?dom_delete_L; try done.
  - intros r' [?%Hids _]%elem_of_difference. done.
  - intros r' [?%Hlive _]%elem_of_difference. done.
Qed.

(** Processing the task at the head of the queue keeps the invariant. *)
Lemma wf_worker o v : wf v → wf (exec (worker_iteration o) v).
Proof.
  intros Hwf. unfold exec.
  destruct (encoding_queue v) as [|[frames rid|rid] q] eqn:Hqueue.
  - by rewrite worker_idle.
  - rewrite (worker_encode _ _ _ q) by done. simpl.
    apply wf_encode_frames.
    destruct Hwf as [Hb Hids Hcs Hlive Hq Hcur]. rewrite Hqueue in Hq, Hcur.
    destruct rid as [r|]; [|done]. destruct Hq as (? & ? & ?).
    split; simpl; try done.
  - rewrite (worker_finalize _ _ q) by done. simpl.
    pose proof Hwf as [_ _ _ _ Hq _]. rewrite Hqueue in Hq.
    destruct rid as [r|]; [|done]. destruct Hq as [[d Hd]%elem_of_dom _].
    rewrite (finalize_live _ _ d) by done. simpl.
    destruct (finalize_fault o) as [[]|];
      (eapply wf_finalized; [exact Hwf|exact Hqueue|simpl..]);
      rewrite ?dom_alter_L; done.
Qed.

Lemma wf_step v e : wf v → wf (step v e).
Proof.
  destruct e; simpl; auto using wf_capture, wf_start, wf_stop, wf_worker.
Qed.

Lemma wf_run tr v : wf v → wf (run tr v).
Proof.
  revert v. induction tr as [|e tr IH]; intros v Hwf; [done|].
  unfold run in *. simpl. auto using wf_step.
Qed.

Lemma wf_reachable tr fps0 : wf (run tr (init (Frame:=Frame) fps0)).
Proof. apply wf_run, wf_init. Qed.

Lemma run_app tr1 tr2 v : run (tr1 ++ tr2) v = run tr2 (run tr1 v).
Proof. unfold run. apply foldl_app. Qed.

End proofs.
End Invariant.

(** ** Starting and stopping a recording *)

Module SessionProofs.
Import Video Sessions VideoFacts WorkerFacts Invariant.

Section proofs.
Context {Frame : Type}.
Implicit Types (v : VideoRecorder Frame) (q : list (Task Frame)) (live : gset nat).

Lemma queue_ok_ids live q t :
  queue_ok live q → t ∈ q → ∃ r, task_id t = Some r ∧ r ∈ live.
Proof.
  revert live. induction q as [|[fs [r|]|[r|]] q IH]; intros live; simpl;
    try tauto.
  - intros _ ?%elem_of_nil. done.
  - intros (? & ? & ?) [->|?]%elem_of_cons; simpl; eauto.
  - intros (? & ?) [->|?]%elem_of_cons; simpl; eauto.
    destruct (IH _ H0 H1) as (r' & ? & ?). exists r'. split; [done|]. set_solver.
Qed.

(** C2. [start_recording()], in any state the recorder can reach. With a
    recording active it changes nothing. Otherwise the new id is the
    current value of [next_recording_id], which no live recording, no
    container and no queued task carries, and the counter goes up by one;
    the recording is registered with [frame_count = 0] in a state where the
    recording flag is still down; then the flag is raised,
    [current_recording_id] is the new id, the buffer is emptied, and the
    frames it held are queued as one [EncodeFrames] task for the new id at
    the end of the queue iff there are any; the entries and containers of
    all other recordings are as before. *)
Theorem start_recording_spec (fps0 : nat) (tr : list (Event (Frame:=Frame)))
    (now : DateTime) :
  let v := run tr (init fps0) in
  let rid := next_recording_id v in
  let v' := start_recording now v in
  (recording v = true → v' = v)
  ∧ (recording v = false →
     ((rid ∉ dom (active_recordings v))
      ∧ (rid ∉ dom (containers v))
      ∧ ∀ t, t ∈ encoding_queue v → task_id t ≠ Some rid)
     ∧ next_recording_id v' = rid + 1
     ∧ (let v1 := register_recording now rid
                    (reserve_recording_id (print LogStarting v)).2 in
        active_recordings v1 !! rid = Some {| start_time := now; frame_count := 0 |}
        ∧ recording v1 = false
        ∧ frame_buffer v1 = frame_buffer v
        ∧ v' = let '(v3, frames) := snapshot_preroll rid v1 in
               if truthy frames then put (EncodeFrames frames (Some rid)) v3 else v3)
     ∧ recording v' = true
     ∧ current_recording_id v' = Some rid
     ∧ frame_buffer v' = []
     ∧ (frame_buffer v ≠ [] →
        encoding_queue v' =
          encoding_queue v ++ [EncodeFrames (frame_buffer v) (Some rid)])
     ∧ (frame_buffer v = [] → encoding_queue v' = encoding_queue v)
     ∧ active_recordings v' !! rid = Some {| start_time := now; frame_count := 0 |}
     ∧ ∀ r, r ≠ rid →
         active_recordings v' !! r = active_recordings v !! r
         ∧ containers v' !! r = containers v !! r).
Proof.
  intros v rid v'. split; [apply start_recording_active|]. intros Hrec.
  pose proof (wf_reachable tr fps0) as [Hb Hids Hcs Hlive Hq Hcur]. fold v in Hb, Hids, Hcs, Hlive, Hq, Hcur.
  split.
  { split; [intros ?%Hids; lia|]. split; [intros ?%Hcs; lia|].
    intros t Ht Hid. destruct (queue_ok_ids _ _ _ Hq Ht) as (r & Hr & ?%Hids).
    rewrite Hid in Hr. injection Hr as <-. fold rid in H. lia. }
  subst v'. split; [by rewrite start_recording_idle|]. split.
  { simpl. rewrite lookup_insert_eq. repeat split; try done.
    unfold start_recording. rewrite Hrec. reflexivity. }
  rewrite start_recording_idle by done. simpl. fold rid.
  repeat split; try done.
  - intros Hne. unfold batch. apply truthy_true in Hne. by rewrite Hne.
  - intros ->. simpl. apply app_nil_r.
  - apply lookup_insert_eq.
  - by rewrite lookup_insert_ne.
  - by rewrite lookup_insert_ne.
Qed.

(** C3. [stop_recording()], in any state the recorder can reach. With no
    recording active it changes nothing. Otherwise, for the recording that
    is current: if the buffer holds frames, one [EncodeFrames] task with
    exactly those frames and then one [FinalizeRecording] task are appended
    to the queue, in that order; if it is empty, the [FinalizeRecording]
    task alone; the recording flag and [current_recording_id] are cleared.
    The method is one region under [self.lock]: it is a single step, with
    no state in between. *)
Theorem stop_recording_spec (fps0 : nat) (tr : list (Event (Frame:=Frame))) :
  let v := run tr (init fps0) in
  let v' := stop_recording v in
  (recording v = false → v' = v)
  ∧ (recording v = true →
     ∃ rid,
       current_recording_id v = Some rid
       ∧ rid ∈ dom (active_recordings v)
       ∧ (frame_buffer v ≠ [] →
          encoding_queue v' =
            encoding_queue v ++ [EncodeFrames (frame_buffer v) (Some rid);
                                 FinalizeRecording (Some rid)])
       ∧ (frame_buffer v = [] →
          encoding_queue v' = encoding_queue v ++ [FinalizeRecording (Some rid)])
       ∧ recording v' = false
       ∧ current_recording_id v' = None
       ∧ v' = set_current_recording_id None
                (set_recording false
                   (set_encoding_queue (encoding_queue v') (print LogStopping v)))).
Proof.
  intros v v'. split; [apply stop_recording_idle|]. intros Hrec.
  pose proof (wf_reachable tr fps0) as [Hb Hids Hcs Hlive Hq Hcur].
  fold v in Hb, Hids, Hcs, Hlive, Hq, Hcur. rewrite Hrec in Hcur.
  destruct Hcur as (rid & Hc & Hin). exists rid.
  split; [done|]. split; [by eapply live_after_subseteq|].
  subst v'. rewrite stop_recording_active by done. simpl. rewrite Hc.
  repeat split.
  - intros Hne. unfold batch. apply truthy_true in Hne. by rewrite Hne.
  - intros ->. done.
Qed.

End proofs.
End SessionProofs.

(** ** The encode worker: error containment and finalization *)

Module WorkerProofs.
Import Video Sessions VideoFacts WorkerFacts Invariant.

Section proofs.
Context {Frame : Type}.
Implicit Types (v : VideoRecorder Frame) (frames : list Frame).



Lemma finalize_returns fault rid v :
  (_finalize_recording fault rid v).1 = Return tt.
Proof.
  destruct (lookup_recording rid v) as [[r d]|] eqn:Hlook.
  2:{ by rewrite finalize_not_found. }
  unfold lookup_recording in Hlook. destruct rid as [r'|]; [|done]. simpl in Hlook.
  destruct (active_recordings v !! r') as [d'|] eqn:Hd; simplify_eq/=.
  by rewrite (finalize_live _ _ d).
Qed.


(** What a worker iteration leaves alone. *)
Lemma worker_iteration_fields o v :
  let v' := exec (worker_iteration o) v in
  fps v' = fps v ∧ recording v' = recording v
  ∧ next_recording_id v' = next_recording_id v
  ∧ current_recording_id v' = current_recording_id v
  ∧ frame_buffer v' = frame_buffer v
  ∧ encoding_queue v' = drop 1 (encoding_queue v).
Proof.
  unfold exec.
  destruct (encoding_queue v) as [|[fs rid|rid] q] eqn:Hq.
  - rewrite worker_idle by done. simpl. by rewrite Hq.
  - rewrite (worker_encode _ _ _ q) by done. simpl.
    destruct fs as [|f fs]; [done|].
    set (fs' := f :: fs). assert (Hne : fs' ≠ []) by done. clearbody fs'.
    destruct (lookup_recording rid (set_encoding_queue q v)) as [[r d]|] eqn:Hlook.
    2:{ by rewrite encode_frames_not_found. }
    unfold lookup_recording in Hlook. destruct rid as [r'|]; [|done]. simpl in Hlook.
    destruct (active_recordings v !! r') as [d'|] eqn:Hd; simplify_eq/=.
    destruct (fps v) as [|n] eqn:Hfps.
    + rewrite (encode_frames_zero_fps _ _ _ d) by done. simpl. by rewrite Hfps.
    + rewrite (encode_frames_live _ _ _ d _ n) by done. simpl.
      case_bool_decide; rewrite mux_all_fields; simpl; by rewrite Hfps.
  - rewrite (worker_finalize _ _ q) by done. simpl.
    destruct (lookup_recording rid (set_encoding_queue q v)) as [[r d]|] eqn:Hlook.
    2:{ by rewrite finalize_not_found. }
    unfold lookup_recording in Hlook. destruct rid as [r'|]; [|done]. simpl in Hlook.
    destruct (active_recordings v !! r') as [d'|] eqn:Hd; simplify_eq/=.
    rewrite (finalize_live _ _ d) by done. simpl.
    by destruct (finalize_fault o) as [[]|].
Qed.

Lemma worker_iteration_queue o v :
  encoding_queue (exec (worker_iteration o) v) = drop 1 (encoding_queue v).
Proof. apply worker_iteration_fields. Qed.


Lemma encoding_worker_queue os v :
  encoding_queue (run (map Worker os) v) = drop (length os) (encoding_queue v).
Proof.
  revert v. induction os as [|o os IH]; intros v; [by rewrite drop_0|].
  unfold run in *. simpl. rewrite IH, worker_iteration_queue, drop_drop. done.
Qed.


End proofs.
End WorkerProofs.

(** ** Finalization *)

Module FinalizeProofs.
Import Video Sessions VideoFacts WorkerFacts Invariant WorkerProofs.

Lemma string_app_assoc (s1 s2 s3 : string) :
  (s1 +:+ s2) +:+ s3 = s1 +:+ (s2 +:+ s3).
Proof.
  induction s1 as [|c s1 IH]; [done|].
  unfold String.append in *. fold String.append in *. by rewrite IH.
Qed.

Lemma string_app_nil_r (s : string) : s +:+ "" = s.
Proof.
  induction s as [|c s IH]; [done|].
  unfold String.append; fold String.append. by rewrite IH.
Qed.

Lemma string_app_assoc_aux (ds : string) (c : Ascii.ascii) (s : string) :
  ds +:+ String c s = (ds +:+ String c "") +:+ s.
Proof. by rewrite string_app_assoc. Qed.

Lemma string_length_app (s1 s2 : string) :
  String.length (s1 +:+ s2) = String.length s1 + String.length s2.
Proof.
  induction s1 as [|c s1 IH]; [done|].
  unfold String.append; fold String.append. simpl. by rewrite IH.
Qed.

Lemma decimal_value_from_app acc (s1 s2 : string) :
  decimal_value_from acc (s1 +:+ s2)
  = decimal_value_from acc s1 ≫= λ a, decimal_value_from a s2.
Proof.
  revert acc. induction s1 as [|c s1 IH]; intros acc; [done|].
  unfold String.append; fold String.append. simpl.
  destruct (Ascii.is_nat c); [apply IH|done].
Qed.

Lemma pretty_N_char_digit (d : N) :
  (d < 10)%N → Ascii.is_nat (pretty_N_char d) = Some (N.to_nat d).
Proof.
  intros Hd.
  assert (d = 0 ∨ d = 1 ∨ d = 2 ∨ d = 3 ∨ d = 4 ∨ d = 5
          ∨ d = 6 ∨ d = 7 ∨ d = 8 ∨ d = 9)%N as Hcases by lia.
  repeat (destruct Hcases as [->|Hcases]; [reflexivity|]). by subst.
Qed.

(** The digits [pretty] prints for a positive number below [10^k]: at most
    [k] of them, and they denote the number. *)
Lemma pretty_N_go_digits (k : nat) (x : N) (s : string) :
  (0 < x)%N → (x < 10 ^ N.of_nat k)%N →
  ∃ ds, pretty_N_go x s = ds +:+ s
        ∧ 1 ≤ String.length ds ≤ k
        ∧ ∀ acc, decimal_value_from acc ds
                 = Some (acc * 10 ^ N.of_nat (String.length ds) + x)%N.
Proof.
  revert x s. induction k as [|k IH]; intros x s Hpos Hlt.
  { simpl in Hlt. lia. }
  rewrite pretty_N_go_step by done.
  assert (Hmod : (x `mod` 10 < 10)%N) by (apply N.mod_lt; lia).
  assert (Hdiv : (x = 10 * (x `div` 10) + x `mod` 10)%N) by (apply N.div_mod; lia).
  set (c := pretty_N_char (x `mod` 10)).
  destruct (decide (x `div` 10 = 0)%N) as [Hz|Hnz].
  - rewrite Hz, pretty_N_go_0. exists (String c ""). split; [done|].
    split; [simpl; lia|]. intros acc. simpl. subst c.
    rewrite pretty_N_char_digit by done. simpl. f_equal. lia.
  - destruct (IH (x `div` 10)%N (String c s)) as (ds & Hgo & Hlen & Hval).
    { lia. }
    { rewrite Nat2N.inj_succ, N.pow_succ_r' in Hlt.
      apply N.Div0.div_lt_upper_bound; lia. }
    exists (ds +:+ String c ""). split.
    { rewrite Hgo, string_app_assoc_aux. done. }
    rewrite string_length_app. simpl. split; [lia|].
    intros acc. rewrite decimal_value_from_app, Hval. simpl. subst c.
    rewrite pretty_N_char_digit by done. simpl. f_equal.
    replace (String.length ds + 1) with (S (String.length ds)) by lia.
    rewrite Nat2N.inj_succ, N.pow_succ_r'. lia.
Qed.

Lemma decimal_value_from_zeros k (s : string) :
  decimal_value_from 0 (zeros k +:+ s) = decimal_value_from 0 s.
Proof.
  induction k as [|k IH]; [done|]. simpl.
  unfold String.append; fold String.append. simpl. exact IH.
Qed.

Lemma zeros_length k : String.length (zeros k) = k.
Proof.
  induction k as [|k IH]; [done|]. simpl.
  unfold String.append; fold String.append. simpl. by rewrite IH.
Qed.

(** A number below [10^width] is printed with exactly [width] digits that
    denote it. *)
Lemma zero_pad_field (width n : nat) :
  1 ≤ width → n < 10 ^ width → is_field width n (zero_pad width n) = true.
Proof.
  intros Hw Hn. unfold is_field, zero_pad.
  assert (Hd : ∃ ds, pretty n = ds
                     ∧ 1 ≤ String.length ds ≤ width
                     ∧ decimal_value_from 0 ds = Some (N.of_nat n)).
  { unfold pretty, pretty_nat, pretty, pretty_N.
    destruct (decide (N.of_nat n = 0)%N) as [Hz|Hnz].
    - exists "0". rewrite Hz. split; [done|]. split; [simpl; lia|done].
    - destruct (pretty_N_go_digits width (N.of_nat n) "") as (ds & Hgo & Hlen & Hval).
      { lia. }
      { change 10%N with (N.of_nat 10). rewrite <- Nat2N.inj_pow. lia. }
      exists ds. rewrite Hgo, string_app_nil_r. split; [done|]. split; [done|].
      rewrite Hval. f_equal; lia. }
  destruct Hd as (ds & -> & Hlen & Hval).
  apply andb_true_iff. split; apply bool_decide_eq_true_2.
  - rewrite string_length_app, zeros_length. lia.
  - unfold decimal_value.
    destruct (zeros (width - String.length ds) +:+ ds) eqn:Hs.
    + apply (f_equal String.length) in Hs.
      rewrite string_length_app, zeros_length in Hs. simpl in Hs. lia.
    + rewrite <- Hs, decimal_value_from_zeros. done.
Qed.

Section proofs.
Context {Frame : Type}.
Implicit Types (v : VideoRecorder Frame).

(** C9. Finalize semantics. [_finalize_recording(id)] never raises, and it
    leaves the live map without [id] whatever the outcome: the entry is
    deleted before flush, close and write, so even when the flush raises
    the recording is gone while its container is untouched. Nothing is
    queued again, and a second [_finalize_recording(id)] finds no recording:
    it prints "not found" and changes nothing else. A failure is logged and
    writes no file. On success the muxed stream is written to
    [video_file (start_time)], which lies in the recordings directory and
    is named [110bpm---YYYY-MM-DD---HH-MM-SS.mp4] with the fields of the
    recording's start time in decimal, zero-padded. *)
Theorem finalize_semantics (fault : option FinalizeFault) (r : nat) v :
  let v' := exec (_finalize_recording fault (Some r)) v in
  result (_finalize_recording fault (Some r)) v = Return tt
  ∧ active_recordings v' = delete r (active_recordings v)
  ∧ encoding_queue v' = encoding_queue v
  ∧ (∀ fault', _finalize_recording fault' (Some r) v'
               = (Return tt, print (LogNotFound (Some r)) v'))
  ∧ (∀ d, active_recordings v !! r = Some d →
     match fault with
     | Some stage =>
         files v' = files v
         ∧ (stage = FlushFails → containers v' = containers v)
         ∧ ∃ e, log v' = log v ++ [LogFinalizeError (Some r) e]
     | None =>
         files v' = <[video_file (start_time d) := output r v]> (files v)
         ∧ log v' = log v ++ [LogSaved (video_file (start_time d)) (frame_count d)]
     end)
  ∧ (∀ t : DateTime, valid_datetime t →
     video_file t =
       video_recordings_dir +:+ "/" +:+ "110bpm" +:+ "---"
       +:+ zero_pad 4 (year t) +:+ "-" +:+ zero_pad 2 (month t)
       +:+ "-" +:+ zero_pad 2 (day t) +:+ "---" +:+ zero_pad 2 (hour t)
       +:+ "-" +:+ zero_pad 2 (minute t) +:+ "-" +:+ zero_pad 2 (second t)
       +:+ ".mp4"
     ∧ is_field 4 (year t) (zero_pad 4 (year t)) = true
     ∧ is_field 2 (month t) (zero_pad 2 (month t)) = true
     ∧ is_field 2 (day t) (zero_pad 2 (day t)) = true
     ∧ is_field 2 (hour t) (zero_pad 2 (hour t)) = true
     ∧ is_field 2 (minute t) (zero_pad 2 (minute t)) = true
     ∧ is_field 2 (second t) (zero_pad 2 (second t)) = true).
Proof.
  intros v'.
  assert (Hgone : active_recordings v' = delete r (active_recordings v)
                  ∧ encoding_queue v' = encoding_queue v).
  { subst v'. unfold exec.
    destruct (active_recordings v !! r) as [d|] eqn:Hd.
    - rewrite (finalize_live _ _ d) by done. simpl.
      by destruct fault as [[]|].
    - rewrite finalize_not_found by (unfold lookup_recording; simpl; by rewrite Hd).
      simpl. by rewrite delete_id. }
  destruct Hgone as [Hgone Hqueue].
  split; [apply finalize_returns|]. split; [done|]. split; [done|]. split; [|split].
  - intros fault'. apply finalize_not_found. unfold lookup_recording. simpl.
    by rewrite Hgone, lookup_delete_eq.
  - intros d Hd. subst v'. unfold exec. rewrite (finalize_live _ _ d) by done. simpl.
    destruct fault as [[]|]; simpl; repeat split; eauto; try done.
    unfold write_file, getvalue, output. simpl.
    rewrite lookup_alter_eq. by destruct (containers v !! r).
  - intros t (Hy & Hm & Hd & Hh & Hmi & Hs).
    split.
    { unfold video_file, strftime. rewrite !string_app_assoc. reflexivity. }
    repeat split; apply zero_pad_field; try change (10 ^ 2) with 100; lia.
Qed.

End proofs.
End FinalizeProofs.

(** ** Frames handed to a recording *)

Module HandoffFacts.
Import Video Sessions VideoFacts WorkerFacts Invariant WorkerProofs.

Section facts.
Context {Frame : Type}.
Implicit Types (v : VideoRecorder Frame) (q : list (Task Frame))
  (frames b : list Frame).

Lemma pending_app r q1 q2 : pending r (q1 ++ q2) = pending r q1 ++ pending r q2.
Proof. unfold pending. apply flat_map_app. Qed.

Lemma pending_batch r b r' :
  pending r (batch b (Some r')) = if decide (r' = r) then b else [].
Proof.
  unfold batch. destruct b as [|f b]; simpl.
  - by case_decide.
  - rewrite app_nil_r. case_bool_decide; case_decide; done.
Qed.

Lemma stamp_data tb fc i frames : av_data <$> stamp tb fc i frames = frames.
Proof.
  revert i. induction frames as [|f frames IH]; intros i; simpl; [done|].
  by rewrite IH.
Qed.

Lemma stamp_pts tb fc i frames :
  av_pts <$> stamp tb fc i frames = seq (fc + i) (length frames).
Proof.
  revert i. induction frames as [|f frames IH]; intros i; simpl; [done|].
  rewrite IH. do 2 f_equal. lia.
Qed.

Lemma stamp_length tb fc i frames : length (stamp tb fc i frames) = length frames.
Proof. by rewrite <- (length_fmap av_pts), stamp_pts, length_seq. Qed.

Lemma stamp_time_base tb fc i frames :
  Forall (λ a, av_time_base a = tb) (stamp tb fc i frames).
Proof.
  revert i. induction frames as [|f frames IH]; intros i; simpl; constructor; auto.
Qed.

Lemma output_mux_all r l v r' :
  output r' (mux_all r l v) =
  if decide (r = r' ∧ is_Some (containers v !! r))
  then output r v ++ l else output r' v.
Proof.
  unfold output. rewrite mux_all_lookup.
  destruct (decide (r = r')) as [->|Hne].
  - destruct (containers v !! r') as [c|] eqn:Hc; simpl.
    + rewrite decide_True; [done|]. split; [done|]. by eexists.
    + rewrite decide_False; [done|]. intros [_ [? ?]]. done.
  - rewrite decide_False; [done|]. by intros [? _].
Qed.

Lemma fps_step v e : fps (step v e) = fps v.
Proof.
  destruct e as [ret frame|now| |o]; simpl.
  - unfold capture_iteration, capture_locked.
    destruct ret, frame as [f|]; try done.
    destruct (recording v && _); simpl; [|done].
    by destruct (truthy (frame_buffer v)).
  - destruct (recording v) eqn:Hrec.
    + by rewrite start_recording_active.
    + by rewrite start_recording_idle.
  - destruct (recording v) eqn:Hrec.
    + by rewrite stop_recording_active.
    + by rewrite stop_recording_idle.
  - apply worker_iteration_fields.
Qed.

End facts.
End HandoffFacts.

(** ** No frame is lost or reordered on the way to the encoder *)

Module HandoffProofs.
Import Video Sessions VideoFacts CaptureProofs WorkerFacts Invariant WorkerProofs HandoffFacts.

Section proofs.
Context {Frame : Type}.
Implicit Types (v : VideoRecorder Frame) (q : list (Task Frame))
  (frames b : list Frame) (tr : list (Event (Frame:=Frame))).

Lemma output_ext r (v v' : VideoRecorder Frame) :
  containers v = containers v' → output r v = output r v'.
Proof. unfold output. by intros ->. Qed.

(** A worker iteration without encoding fault moves the batch at the head
    of the queue into the output of its recording and leaves every other
    recording alone. *)
Lemma worker_handoff o v r :
  wf v → 0 < fps v → encode_fault o = None → stamped r v →
  handed r (exec (worker_iteration o) v) = handed r v
  ∧ stamped r (exec (worker_iteration o) v).
Proof.
  intros Hwf Hfps Hok (Hpts & Htb & Hfc). unfold exec, handed.
  destruct Hwf as [Hb Hids Hcs Hlive Hq Hcur].
  destruct (encoding_queue v) as [|[fs rid|rid] q] eqn:Hqueue.
  - rewrite worker_idle by done. simpl. rewrite Hqueue. done.
  - rewrite (worker_encode _ _ _ q) by done. simpl.
    destruct rid as [r0|]; [|done]. destruct Hq as (Hne & Hr0 & Hq).
    pose proof Hr0 as Hc0. apply Hlive in Hc0.
    apply elem_of_dom in Hr0 as [d Hd]. apply elem_of_dom in Hc0 as Hc0.
    destruct (fps v) as [|n] eqn:Hn; [lia|].
    rewrite (encode_frames_live _ _ _ d _ n) by done.
    rewrite Hok, muxed_until_no_fault, bool_decide_eq_true_2 by done.
    cbn zeta. cbn [snd].
    set (new := stamp (1 # Pos.of_nat (S n)) (frame_count d) 0 fs).
    set (v1 := mux_all r0 new (print (LogEncoding (length fs) (Some r0))
                                      (set_encoding_queue q v))).
    assert (Hv1 : fps v1 = S n ∧ encoding_queue v1 = q
                  ∧ active_recordings v1 = active_recordings v).
    { subst v1. rewrite mux_all_fields. simpl. done. }
    destruct Hv1 as (Hfps1 & Hq1 & Ha1).
    assert (Hout1 : output r v1 = if decide (r0 = r) then output r v ++ new
                                  else output r v).
    { subst v1. rewrite output_mux_all. simpl.
      change (output ?x (print ?l (set_encoding_queue q v))) with (output x v).
      destruct (decide (r0 = r)) as [->|Hne0].
      - by rewrite decide_True.
      - rewrite decide_False; [done|]. by intros [? _]. }
    unfold stamped.
    rewrite !(output_ext r _ v1) by done. simpl.
    rewrite Hq1, Hfps1, Ha1, Hout1.
    destruct (decide (r0 = r)) as [->|Hne0].
    + rewrite bool_decide_eq_true_2 by done.
      rewrite fmap_app. subst new. rewrite stamp_data, <- app_assoc.
      split; [done|].
      rewrite fmap_app, stamp_pts, length_app, stamp_length, Hpts.
      rewrite lookup_alter_eq, Hd. simpl. rewrite (Hfc d Hd).
      split; [by rewrite Nat.add_0_r, <- seq_app|].
      split.
      * apply Forall_app. split; [done|]. apply stamp_time_base.
      * intros d' [= <-]. simpl. done.
    + rewrite bool_decide_eq_false_2 by done. simpl.
      rewrite lookup_alter_ne by done. done.
  - rewrite (worker_finalize _ _ q) by done. simpl.
    destruct rid as [r0|]; [|done]. destruct Hq as (Hr0 & Hq).
    apply elem_of_dom in Hr0 as [d Hd].
    rewrite (finalize_live _ _ d) by done. simpl.
    assert (Hout : ∀ w : VideoRecorder Frame, output r (close_container r0 w) = output r w).
    { intros w. unfold output, close_container. simpl. rewrite lookup_alter.
      case_decide as Hr; [subst r0|done]. by destruct (containers w !! r). }
    assert (Hdel : ∀ d', delete r0 (active_recordings v) !! r = Some d' →
                         active_recordings v !! r = Some d').
    { intros d'. rewrite lookup_delete_Some. by intros [_ ?]. }
    unfold stamped.
    destruct (finalize_fault o) as [[]|]; simpl;
      change (output r (print ?l ?w)) with (output r w);
      change (output r (write_file ?p ?i ?w)) with (output r w);
      rewrite ?Hout;
      change (output r (set_active_recordings ?a (set_encoding_queue q v)))
        with (output r v);
      (split; [done|]); (split; [done|]); (split; [done|]);
      intros d' Hd'; apply Hfc, Hdel; exact Hd'.
Qed.

(** The same for the frames alone, whatever the state of the output. *)
Lemma worker_handed o v r :
  wf v → 0 < fps v → encode_fault o = None →
  handed r (exec (worker_iteration o) v) = handed r v.
Proof.
  intros Hwf Hfps Hok. unfold exec, handed.
  destruct Hwf as [Hb Hids Hcs Hlive Hq Hcur].
  destruct (encoding_queue v) as [|[fs rid|rid] q] eqn:Hqueue.
  - rewrite worker_idle by done. simpl. rewrite Hqueue. done.
  - rewrite (worker_encode _ _ _ q) by done. simpl.
    destruct rid as [r0|]; [|done]. destruct Hq as (Hne & Hr0 & Hq).
    pose proof Hr0 as Hc0. apply Hlive in Hc0.
    apply elem_of_dom in Hr0 as [d Hd]. apply elem_of_dom in Hc0 as Hc0.
    destruct (fps v) as [|n] eqn:Hn; [lia|].
    rewrite (encode_frames_live _ _ _ d _ n) by done.
    rewrite Hok, muxed_until_no_fault, bool_decide_eq_true_2 by done.
    cbn zeta. cbn [snd].
    set (new := stamp (1 # Pos.of_nat (S n)) (frame_count d) 0 fs).
    set (v1 := mux_all r0 new (print (LogEncoding (length fs) (Some r0))
                                      (set_encoding_queue q v))).
    assert (Hq1 : encoding_queue v1 = q).
    { subst v1. rewrite mux_all_fields. simpl. done. }
    assert (Hout1 : output r v1 = if decide (r0 = r) then output r v ++ new
                                  else output r v).
    { subst v1. rewrite output_mux_all. simpl.
      change (output ?x (print ?l (set_encoding_queue q v))) with (output x v).
      destruct (decide (r0 = r)) as [->|Hne0].
      - by rewrite decide_True.
      - rewrite decide_False; [done|]. by intros [? _]. }
    rewrite !(output_ext r _ v1) by done. simpl.
    rewrite Hq1, Hout1.
    destruct (decide (r0 = r)) as [->|Hne0].
    + rewrite bool_decide_eq_true_2 by done.
      rewrite fmap_app. subst new. by rewrite stamp_data, <- app_assoc.
    + by rewrite bool_decide_eq_false_2.
  - rewrite (worker_finalize _ _ q) by done. simpl.
    destruct rid as [r0|]; [|done]. destruct Hq as (Hr0 & Hq).
    apply elem_of_dom in Hr0 as [d Hd].
    rewrite (finalize_live _ _ d) by done. simpl.
    assert (Hout : ∀ w : VideoRecorder Frame, output r (close_container r0 w) = output r w).
    { intros w. unfold output, close_container. simpl. rewrite lookup_alter.
      case_decide as Hr; [subst r0|done]. by destruct (containers w !! r). }
    destruct (finalize_fault o) as [[]|]; simpl;
      change (output r (print ?l ?w)) with (output r w);
      change (output r (write_file ?p ?i ?w)) with (output r w);
      rewrite ?Hout; done.
Qed.

(** Draining the queue: [n] worker iterations without fault. *)
Lemma workers_drain n v r :
  wf v → 0 < fps v →
  let v' := run (replicate n (Worker no_fault)) v in
  handed r v' = handed r v
  ∧ encoding_queue v' = drop n (encoding_queue v)
  ∧ (stamped r v → stamped r v').
Proof.
  revert v. induction n as [|n IH]; intros v Hwf Hfps; simpl.
  { by rewrite drop_0. }
  unfold run in *. simpl.
  destruct (IH (exec (worker_iteration no_fault) v)) as (Hh & Hq & Hst).
  { by apply wf_worker. }
  { pose proof (worker_iteration_fields no_fault v) as (-> & _). done. }
  rewrite Hh, Hq, worker_iteration_queue, drop_drop.
  split; [by apply worker_handed|]. split; [done|].
  intros Hs. apply Hst. by apply worker_handoff.
Qed.

Lemma stamp_lookup tb fc j frames i :
  stamp tb fc j frames !! i =
  (λ f, {| av_data := f; av_pts := fc + j + i; av_time_base := tb |}) <$> frames !! i.
Proof.
  revert j i. induction frames as [|f frames IH]; intros j [|i]; simpl; try done.
  - by rewrite Nat.add_0_r.
  - rewrite IH. by replace (fc + S j + i) with (fc + j + S i) by lia.
Qed.

(** One batch encoded without fault for a live recording: frame [i] of the
    batch is muxed with [pts = frame_count + i] and time base [1/fps], and
    [frame_count] goes up by the length of the batch. *)
Lemma encode_batch frames r d v n :
  frames ≠ [] →
  active_recordings v !! r = Some d →
  is_Some (containers v !! r) →
  fps v = S n →
  let v' := exec (_encode_frames None frames (Some r)) v in
  output r v' = output r v ++ stamp (1 # Pos.of_nat (S n)) (frame_count d) 0 frames
  ∧ active_recordings v' !! r
    = Some {| start_time := start_time d;
              frame_count := frame_count d + length frames |}.
Proof.
  intros Hne Hd Hc Hn. unfold exec.
  rewrite (encode_frames_live _ _ _ d _ n) by done.
  rewrite muxed_until_no_fault, bool_decide_eq_true_2 by done.
  cbn zeta. cbn [snd].
  set (new := stamp (1 # Pos.of_nat (S n)) (frame_count d) 0 frames).
  set (v1 := mux_all r new (print (LogEncoding (length frames) (Some r)) v)).
  assert (Ha1 : active_recordings v1 = active_recordings v).
  { subst v1. rewrite mux_all_fields. simpl. done. }
  assert (Hout1 : output r v1 = output r v ++ new).
  { subst v1. rewrite output_mux_all. simpl. by rewrite decide_True. }
  rewrite !(output_ext r _ v1) by done. simpl.
  by rewrite Ha1, Hout1, lookup_alter_eq, Hd.
Qed.

Lemma stamped_ext r v v' :
  output r v' = output r v → fps v' = fps v →
  active_recordings v' !! r = active_recordings v !! r →
  stamped r v → stamped r v'.
Proof. unfold stamped. intros -> -> ->. done. Qed.

(** A capture iteration that got a frame, capacity positive. *)
Lemma capture_frame f v :
  0 < buffer_size v →
  capture_iteration true (Some f) v =
  if recording v && bool_decide (buffer_size v ≤ length (frame_buffer v))
  then put (EncodeFrames (frame_buffer v) (current_recording_id v))
           (set_frame_buffer [f] v)
  else set_frame_buffer (deque_append (buffer_size v) (frame_buffer v) f) v.
Proof.
  intros Hcap. unfold capture_iteration, capture_locked.
  destruct (recording v && bool_decide (buffer_size v ≤ length (frame_buffer v)))
    eqn:Hfull; [|done].
  apply andb_true_iff in Hfull as [_ Hfull%bool_decide_eq_true].
  assert (Hne : truthy (frame_buffer v) = true).
  { destruct (frame_buffer v); simpl in *; [lia|done]. }
  rewrite Hne. simpl.
  change (buffer_size (set_frame_buffer [] v)) with (buffer_size v).
  unfold deque_append. simpl. rewrite bool_decide_eq_false_2 by lia. done.
Qed.

Lemma capture_no_frame ret frame v :
  pushed_frame (ret, frame) = None → capture_iteration ret frame v = v.
Proof. unfold pushed_frame, capture_iteration. simpl. by destruct ret, frame. Qed.

Lemma pushed_frame_Some ret frame (f : Frame) :
  pushed_frame (ret, frame) = Some f → ret = true ∧ frame = Some f.
Proof. unfold pushed_frame. simpl. by destruct ret; intros; simplify_eq. Qed.

Lemma tracks_capture r b0 c ret frame v :
  0 < fps v → tracks r b0 c v →
  tracks r b0 (c ++ pushed [Capture ret frame]) (capture_iteration ret frame v).
Proof.
  intros Hfps (Hwf & Hlt & Hst & c1 & Hh & Hcase).
  assert (Hwf' := wf_capture ret frame v Hwf).
  unfold pushed. simpl.
  destruct (pushed_frame (ret, frame)) as [f|] eqn:Hf.
  2:{ rewrite capture_no_frame, app_nil_r by done. unfold tracks; eauto 10. }
  apply pushed_frame_Some in Hf as [-> ->].
  assert (Hcap : 0 < buffer_size v) by (unfold buffer_size, preroll_seconds; lia).
  rewrite capture_frame in Hwf' |- * by done.
  destruct Hwf as [Hb _ _ _ _ Hcur].
  destruct (recording v) eqn:Hrec; simpl in *.
  - destruct Hcur as (c0 & Hc0 & _). rewrite Hc0 in Hcase.
    case_bool_decide as Hfull.
    + split; [done|]. split; [done|]. split; [by eapply stamped_ext|].
      unfold handed in *. simpl.
      change (output r (put ?t (set_frame_buffer ?x v))) with (output r v).
      rewrite pending_app, app_assoc, Hh, Hc0. simpl. rewrite app_nil_r.
      case_bool_decide as Hr0.
      * subst c0. exists (c1 ++ frame_buffer v). rewrite app_assoc.
        split; [done|]. rewrite decide_True in Hcase |- * by done.
        by rewrite Hcase.
      * exists c1. rewrite app_nil_r. split; [done|].
        rewrite decide_False in Hcase |- * by congruence.
        by apply prefix_app_r.
    + split; [done|]. split; [done|]. split; [by eapply stamped_ext|].
      exists c1. split; [done|]. simpl. rewrite Hc0.
      unfold deque_append. rewrite length_app. simpl.
      rewrite bool_decide_eq_false_2 by lia.
      case_decide.
      * by rewrite app_assoc, Hcase.
      * by apply prefix_app_r.
  - split; [done|]. split; [done|]. split; [by eapply stamped_ext|].
    exists c1. split; [done|]. simpl. rewrite Hcur in Hcase |- *.
    rewrite decide_False in Hcase |- * by done. by apply prefix_app_r.
Qed.

Lemma tracks_start r b0 c now v :
  tracks r b0 c v → tracks r b0 c (start_recording now v).
Proof.
  intros (Hwf & Hlt & Hst & c1 & Hh & Hcase).
  assert (Hwf' := wf_start now v Hwf).
  destruct (recording v) eqn:Hrec.
  { rewrite start_recording_active by done. unfold tracks; eauto 10. }
  rewrite start_recording_idle in Hwf' |- * by done.
  assert (Hout : output r (start_recording now v) = output r v).
  { rewrite start_recording_idle by done. unfold output. simpl.
    rewrite lookup_insert_ne by lia. done. }
  rewrite start_recording_idle in Hout by done.
  split; [done|]. split; [simpl; lia|]. split.
  { eapply stamped_ext; [exact Hout|done| |done]. simpl.
    rewrite lookup_insert_ne by lia. done. }
  exists c1. unfold handed in *. rewrite Hout. simpl.
  rewrite pending_app, pending_batch, decide_False, app_nil_r by lia.
  split; [done|].
  destruct Hwf as [_ _ _ _ _ Hcur]. rewrite Hrec in Hcur.
  rewrite Hcur in Hcase. rewrite decide_False in Hcase by done.
  rewrite decide_False; [done|]. intros [=]. lia.
Qed.

Lemma tracks_stop r b0 c v :
  tracks r b0 c v → tracks r b0 c (stop_recording v).
Proof.
  intros (Hwf & Hlt & Hst & c1 & Hh & Hcase).
  assert (Hwf' := wf_stop v Hwf).
  destruct (recording v) eqn:Hrec.
  2:{ rewrite stop_recording_idle by done. unfold tracks; eauto 10. }
  rewrite stop_recording_active in Hwf' |- * by done.
  split; [done|]. split; [done|]. split; [by eapply stamped_ext|].
  destruct Hwf as [_ _ _ _ _ Hcur]. rewrite Hrec in Hcur.
  destruct Hcur as (c0 & Hc0 & _).
  unfold handed in *. simpl.
  change (output r {| fps := fps v; recording := false;
                      next_recording_id := next_recording_id v;
                      current_recording_id := None;
                      active_recordings := active_recordings v;
                      frame_buffer := frame_buffer v;
                      encoding_queue := ?q;
                      containers := containers v;
                      files := files v; log := ?l |}) with (output r v).
  rewrite !pending_app, Hc0, pending_batch. simpl. rewrite app_nil_r.
  rewrite app_assoc, Hh, <- app_assoc.
  exists (c1 ++ if decide (c0 = r) then frame_buffer v else []).
  split; [done|].
  rewrite Hc0 in Hcase.
  destruct (decide (c0 = r)) as [->|Hne].
  - rewrite decide_True in Hcase by done. by rewrite Hcase.
  - rewrite decide_False in Hcase by congruence. by rewrite app_nil_r.
Qed.

Lemma tracks_worker r b0 c o v :
  0 < fps v → encode_fault o = None →
  tracks r b0 c v → tracks r b0 c (exec (worker_iteration o) v).
Proof.
  intros Hfps Hok (Hwf & Hlt & Hst & c1 & Hh & Hcase).
  destruct (worker_handoff o v r Hwf Hfps Hok Hst) as [Hh' Hst'].
  destruct (worker_iteration_fields o v) as (_ & _ & Hn & Hc & Hb & _).
  split; [by apply wf_worker|]. split; [by rewrite Hn|]. split; [done|].
  exists c1. rewrite Hh', Hc, Hb. done.
Qed.

Lemma tracks_step r b0 c v e :
  0 < fps v → encodes_ok e → tracks r b0 c v →
  tracks r b0 (c ++ pushed [e]) (step v e).
Proof.
  intros Hfps Hok Htr. destruct e as [ret frame|now| |o]; simpl.
  - by apply tracks_capture.
  - rewrite app_nil_r. by apply tracks_start.
  - rewrite app_nil_r. by apply tracks_stop.
  - rewrite app_nil_r. by apply tracks_worker.
Qed.

Lemma fps_run tr v : fps (run tr v) = fps v.
Proof.
  revert v. induction tr as [|e tr IH]; intros v; [done|].
  unfold run in *. simpl. by rewrite IH, fps_step.
Qed.

Lemma pushed_app tr1 tr2 : pushed (tr1 ++ tr2) = pushed tr1 ++ pushed tr2.
Proof. unfold pushed. apply omap_app. Qed.

Lemma tracks_run r b0 c tr v :
  0 < fps v → Forall encodes_ok tr → tracks r b0 c v →
  tracks r b0 (c ++ pushed tr) (run tr v).
Proof.
  revert c v. induction tr as [|e tr IH]; intros c v Hfps Hok Htr.
  - by rewrite app_nil_r.
  - apply Forall_cons in Hok as [He Hok].
    change (e :: tr) with ([e] ++ tr). rewrite pushed_app, app_assoc, run_app.
    apply IH; [by rewrite fps_run|done|]. by apply tracks_step.
Qed.

(** Right after [start_recording()] the new recording has been handed
    exactly the pre-roll. *)
Lemma tracks_begin now v :
  wf v → recording v = false →
  tracks (next_recording_id v) (frame_buffer v) [] (start_recording now v).
Proof.
  intros Hwf Hrec. assert (Hwf' := wf_start now v Hwf).
  destruct Hwf as [Hb Hids Hcs Hlive Hq Hcur].
  rewrite start_recording_idle in Hwf' |- * by done.
  split; [done|]. split; [simpl; lia|]. split.
  { unfold stamped, output. simpl. rewrite !lookup_insert_eq. simpl.
    split; [done|]. split; [done|]. by intros d [= <-]. }
  exists []. unfold handed, output. simpl. rewrite lookup_insert_eq. simpl.
  rewrite pending_app, pending_batch, decide_True by done.
  rewrite (pending_fresh (dom (active_recordings v))); [|done|].
  2:{ intros ?%Hids. lia. }
  rewrite app_nil_r. split; [done|]. by rewrite decide_True.
Qed.

Lemma pushed_workers n : pushed (replicate n (Worker (Frame:=Frame) no_fault)) = [].
Proof. induction n as [|n IH]; [done|]. simpl. exact IH. Qed.

(** C1. No frame loss across the start boundary. Let the recorder be in
    any reachable state with no recording active and a positive frame rate,
    call [start_recording()], and let anything happen afterwards (capture
    iterations, stops and starts, worker iterations with finalization
    faults or not) as long as no encoding raises. Then the frames handed to
    the new recording, first those already muxed, then those still queued,
    are the pre-roll buffer as it was at the start, in buffer order,
    followed by frames pushed after the start, in push order. The muxed
    frames carry [pts] 0, 1, 2, ... without gap or repetition across
    batches, with time base [1/fps], and while the recording is live its
    [frame_count] is the number of frames muxed; a batch encoded for a live
    recording gives frame [i] the [pts] [frame_count + i] and adds the
    batch length to [frame_count]. Once the worker has emptied the queue,
    the output of the recording is exactly the pre-roll followed by those
    later frames. *)
Theorem no_frame_loss (fps0 : nat) (tr0 tr1 : list (Event (Frame:=Frame)))
    (now : DateTime) :
  let v0 := run tr0 (init fps0) in
  let rid := next_recording_id v0 in
  let b0 := frame_buffer v0 in
  let v2 := run tr1 (start_recording now v0) in
  let v3 := run (replicate (length (encoding_queue v2)) (Worker no_fault)) v2 in
  0 < fps0 →
  recording v0 = false →
  Forall encodes_ok tr1 →
  (∃ live,
     live `prefix_of` pushed tr1
     ∧ (av_data <$> output rid v2) ++ pending rid (encoding_queue v2) = b0 ++ live
     ∧ encoding_queue v3 = []
     ∧ av_data <$> output rid v3 = b0 ++ live
     ∧ av_pts <$> output rid v3 = seq 0 (length (b0 ++ live)))
  ∧ av_pts <$> output rid v2 = seq 0 (length (output rid v2))
  ∧ Forall (λ a, av_time_base a = (1 # Pos.of_nat fps0)%Q) (output rid v2)
  ∧ (∀ d, active_recordings v2 !! rid = Some d →
          frame_count d = length (output rid v2))
  ∧ (∀ frames d i f,
       frames ≠ [] → active_recordings v2 !! rid = Some d → frames !! i = Some f →
       let v' := exec (_encode_frames None frames (Some rid)) v2 in
       output rid v' !! (length (output rid v2) + i)
         = Some {| av_data := f; av_pts := frame_count d + i;
                   av_time_base := (1 # Pos.of_nat fps0)%Q |}
       ∧ ∃ d', active_recordings v' !! rid = Some d'
               ∧ frame_count d' = frame_count d + length frames).
Proof.
  intros v0 rid b0 v2 v3 Hfps Hrec Hok.
  assert (Hwf0 : wf v0) by apply wf_reachable.
  assert (Hfps0 : fps v0 = fps0) by (subst v0; by rewrite fps_run).
  assert (Hfps1 : fps (start_recording now v0) = fps0).
  { by rewrite start_recording_idle. }
  assert (Hfps2 : fps v2 = fps0) by (subst v2; by rewrite fps_run).
  pose proof (tracks_begin now v0 Hwf0 Hrec) as Htr.
  apply (tracks_run _ _ _ tr1) in Htr; [|lia|done].
  fold v2 rid b0 in Htr. simpl in Htr.
  destruct Htr as (Hwf2 & Hlt & Hst & c1 & Hh & Hcase).
  destruct (workers_drain (length (encoding_queue v2)) v2 rid Hwf2 ltac:(lia))
    as (Hh3 & Hq3 & Hst3).
  fold v3 in Hh3, Hq3, Hst3. rewrite drop_all in Hq3.
  specialize (Hst3 Hst).
  assert (Hout3 : av_data <$> output rid v3 = b0 ++ c1).
  { rewrite <- Hh, <- Hh3. unfold handed. by rewrite Hq3, app_nil_r. }
  destruct Hst as (Hpts & Htb & Hfc). rewrite Hfps2 in Htb.
  split; [|split; [done|split; [done|split; [done|]]]].
  - exists c1. split.
    { case_decide; [|done]. rewrite <- Hcase. by apply prefix_app_r. }
    split; [exact Hh|]. split; [done|]. split; [done|].
    destruct Hst3 as (Hpts3 & _). rewrite Hpts3.
    by rewrite <- Hout3, length_fmap.
  - intros frames d i f Hne Hd Hi v'.
    destruct fps0 as [|n]; [lia|].
    assert (Hc : is_Some (containers v2 !! rid)).
    { apply elem_of_dom. destruct Hwf2 as [_ _ _ Hlive _ _]. apply Hlive.
      apply elem_of_dom. by eexists. }
    destruct (encode_batch frames rid d v2 n Hne Hd Hc Hfps2) as [Hout Hact].
    fold v' in Hout, Hact. split; [|eauto].
    rewrite Hout, lookup_app_r by lia.
    replace (length (output rid v2) + i - length (output rid v2)) with i by lia.
    rewrite stamp_lookup, Hi. simpl. by rewrite Nat.add_0_r.
Qed.

(** C10. [stop_recording()] does not clear the pre-roll buffer. Stop a
    recording in any reachable state, let capture iterations run with no
    recording active, and start again. The buffer after the stop is the
    buffer before it; the new recording's snapshot begins with the frames
    of the stopped recording's last batch that the pushes in between have
    not evicted (all of them if nothing was pushed); the queue has gained
    the last batch and the finalization of the stopped recording and then
    the snapshot for the new one, under a different id; and once the
    worker has emptied the queue without fault, each of those frames is in
    the output of both recordings. *)
Theorem stop_keeps_buffer (fps0 : nat) (tr : list (Event (Frame:=Frame)))
    (reads : list (bool * option Frame)) (now : DateTime) :
  let v := run tr (init fps0) in
  let b := frame_buffer v in
  let v1 := stop_recording v in
  let v2 := run (captures reads) v1 in
  let v3 := start_recording now v2 in
  let v4 := run (replicate (length (encoding_queue v3)) (Worker no_fault)) v3 in
  let later := omap pushed_frame reads in
  let evicted := length (b ++ later) - buffer_size v in
  let kept := drop evicted b in
  let snapshot := drop evicted (b ++ later) in
  recording v = true →
  ∃ rid rid',
    current_recording_id v = Some rid
    ∧ current_recording_id v3 = Some rid'
    ∧ rid ≠ rid'
    ∧ frame_buffer v1 = b
    ∧ (later = [] → kept = b)
    ∧ kept `prefix_of` snapshot
    ∧ encoding_queue v3 =
        encoding_queue v ++ batch b (Some rid) ++ [FinalizeRecording (Some rid)]
        ++ batch snapshot (Some rid')
    ∧ ∀ f, f ∈ kept →
        f ∈ b
        ∧ f ∈ av_data <$> output rid v4
        ∧ f ∈ av_data <$> output rid' v4.
Proof.
  intros v b v1 v2 v3 v4 later evicted kept snapshot Hrec.
  assert (Hwf : wf v) by apply wf_reachable.
  pose proof Hwf as [Hb Hids Hcs Hlive Hq Hcur]. rewrite Hrec in Hcur.
  destruct Hcur as (rid & Hc & Hin).
  assert (Hrid : rid < next_recording_id v).
  { apply Hids. by eapply live_after_subseteq. }
  assert (Hv1 : v1 = stop_recording v) by done.
  rewrite stop_recording_active in Hv1 by done.
  assert (Hwf1 : wf v1) by by apply wf_stop.
  assert (Hv2 : v2 = set_frame_buffer snapshot v1).
  { subst v2. rewrite preroll_run; [|by rewrite Hv1|by rewrite Hv1].
    by rewrite Hv1. }
  assert (Hwf2 : wf v2) by by apply wf_run.
  assert (Hv3 : v3 = start_recording now v2) by done.
  rewrite start_recording_idle in Hv3 by (by rewrite Hv2, Hv1).
  rewrite Hv2, Hv1 in Hv3. simpl in Hv3. rewrite Hc in Hv3.
  assert (Hwf3 : wf v3) by by apply wf_start.
  exists rid, (next_recording_id v).
  split; [done|]. split; [by rewrite Hv3|]. split; [lia|].
  split; [by rewrite Hv1|]. split.
  { intros Hl. subst kept evicted. rewrite Hl, app_nil_r.
    replace (length b - buffer_size v) with 0 by (subst b; lia). done. }
  split.
  { subst kept snapshot. rewrite drop_app. by apply prefix_app_r. }
  split; [rewrite Hv3; simpl; by rewrite <- !app_assoc|].
  intros f Hf.
  assert (Hfb : f ∈ b). { subst kept. by eapply subseteq_drop. }
  split; [done|].
  assert (Hfps : 0 < fps v).
  { destruct (fps v) eqn:Hn; [|lia]. unfold buffer_size in Hb. rewrite Hn in Hb.
    fold b in Hb. destruct b; [by apply elem_of_nil in Hfb|simpl in Hb; lia]. }
  assert (Hfps3 : 0 < fps v3) by (by rewrite Hv3).
  destruct (workers_drain (length (encoding_queue v3)) v3 rid Hwf3 Hfps3)
    as (Hh & Hq4 & _).
  destruct (workers_drain (length (encoding_queue v3)) v3 (next_recording_id v)
              Hwf3 Hfps3) as (Hh' & _ & _).
  fold v4 in Hh, Hh', Hq4. rewrite drop_all in Hq4.
  unfold handed in Hh, Hh'. rewrite Hq4, !app_nil_r in Hh, Hh'.
  rewrite Hh, Hh'. rewrite Hv3. simpl.
  rewrite !pending_app, !pending_batch. simpl.
  rewrite decide_True by done.
  rewrite (decide_False (P:=next_recording_id v = rid)) by lia.
  rewrite (decide_False (P:=rid = next_recording_id v)) by lia.
  rewrite (decide_True (P:=next_recording_id v = next_recording_id v)) by done.
  rewrite (pending_fresh (dom (active_recordings v)) _ (next_recording_id v));
    [|done|intros ?%Hids; lia].
  split.
  - subst b. rewrite !elem_of_app. tauto.
  - unfold output. simpl. rewrite lookup_insert_eq. simpl.
    subst kept snapshot. rewrite drop_app, !elem_of_app. tauto.
Qed.

End proofs.
End HandoffProofs.
(** ** The scenario of the specification, evaluated *)

Module Scenario.
Import Video Sessions Examples.

Example scenario_start :
  buffer_size scenario_started = 90
  ∧ current_recording_id scenario_started = Some 0
  ∧ frame_buffer scenario_started = []
  ∧ encoding_queue scenario_started = [EncodeFrames (seq 0 90) (Some 0)].
Proof. vm_compute. done. Qed.

Example scenario_stop :
  encoding_queue scenario_stopped
  = [EncodeFrames (seq 0 90) (Some 0); EncodeFrames (seq 90 30) (Some 0);
     FinalizeRecording (Some 0)]
  ∧ recording scenario_stopped = false
  ∧ frame_buffer scenario_stopped = seq 90 30.
Proof. vm_compute. done. Qed.

Example scenario_end :
  active_recordings scenario_done !! 0 = None
  ∧ encoding_queue scenario_done = []
  ∧ last (log scenario_done)
    = Some (LogSaved
        "C:/Users/shayan/Desktop/piano/video_recordings/110bpm---2024-03-07---09-05-00.mp4"
        120)
  ∧ (av_pts <$> output 0 scenario_done) = seq 0 120
  ∧ (av_data <$> output 0 scenario_done) = seq 0 120.
Proof. vm_compute. done. Qed.

End Scenario.


(** ** The theorems at concrete inputs *)

Module Witnesses.
Import Midi Video Main Sessions Examples.

Lemma preroll_invariant_witness :
  recording (init (Frame:=nat) 1) = false
  ∧ frame_buffer (init (Frame:=nat) 1) = []
  ∧ frame_buffer (run (captures four_reads) (init 1)) = [2; 3; 4].
Proof.
  split; [reflexivity|]. split; [reflexivity|].
  destruct (CaptureProofs.preroll_invariant four_reads (init 1) eq_refl eq_refl)
    as (_ & _ & H & _).
  exact H.
Defined.

Lemma drain_on_full_witness :
  0 < buffer_size recording_full
  ∧ length (frame_buffer recording_full) ≤ buffer_size recording_full
  ∧ encoding_queue (capture_iteration true (Some 6) recording_full)
    = [EncodeFrames [1; 2] (Some 0); EncodeFrames [3; 4; 5] (Some 0)]
  ∧ frame_buffer (capture_iteration true (Some 6) recording_full) = [6].
Proof.
  assert (H1 : 0 < buffer_size recording_full) by (vm_compute; lia).
  assert (H2 : length (frame_buffer recording_full) ≤ buffer_size recording_full)
    by (vm_compute; lia).
  split; [exact H1|]. split; [exact H2|].
  destruct (CaptureProofs.drain_on_full 6 recording_full H1 H2) as (H & _ & _).
  destruct H as (_ & Hq & Hb).
  { split; [reflexivity|]. vm_compute. lia. }
  split; [exact Hq|exact Hb].
Defined.


Lemma no_frame_loss_witness :
  recording (run [Capture true (Some 1); Capture true (Some 2)] (init (Frame:=nat) 1))
  = false
  ∧ av_data <$> output 0
      (run (replicate 2 (Worker no_fault))
         (run [Capture true (Some 3); Stop]
            (start_recording a_start_time
               (run [Capture true (Some 1); Capture true (Some 2)] (init 1)))))
    = [1; 2; 3].
Proof.
  split; [reflexivity|].
  assert (H1 : 0 < 1) by lia.
  assert (Hok : Forall (encodes_ok (Frame:=nat)) [Capture true (Some 3); Stop])
    by (repeat constructor).
  destruct (HandoffProofs.no_frame_loss 1
              [Capture true (Some 1); Capture true (Some 2)]
              [Capture true (Some 3); Stop] a_start_time H1 eq_refl Hok)
    as ((live & Hlive & Hh & Hq & Hout & Hpts) & _).
  assert (Hl : live = [3]).
  { vm_compute in Hh. by injection Hh as <-. }
  refine (eq_trans Hout _). rewrite Hl. reflexivity.
Defined.

Lemma stop_keeps_buffer_witness :
  recording recording_full = true
  ∧ frame_buffer (stop_recording recording_full) = [3; 4; 5]
  ∧ encoding_queue (start_recording a_start_time (stop_recording recording_full))
    = [EncodeFrames [1; 2] (Some 0); EncodeFrames [3; 4; 5] (Some 0);
       FinalizeRecording (Some 0); EncodeFrames [3; 4; 5] (Some 1)].
Proof.
  split; [reflexivity|].
  destruct (HandoffProofs.stop_keeps_buffer 1
              [Capture true (Some 1); Capture true (Some 2); Start a_start_time;
               Capture true (Some 3); Capture true (Some 4); Capture true (Some 5)]
              [] a_start_time eq_refl)
    as (rid & rid' & Hc & Hc' & _ & Hb & _ & _ & Hq & _).
  vm_compute in Hc, Hc', Hb, Hq.
  injection Hc as <-. injection Hc' as <-.
  split; vm_compute; [exact Hb|exact Hq].
Defined.

End Witnesses.

(** ** The listener: which messages count as events *)

Module MidiEvents.
Import Midi MidiRuns.
Local Open Scope Z_scope.

Lemma land_note_on ch : 0 ≤ ch < 16 → Z.land (144 + ch) 240 = 144.
Proof.
  intros H.
  assert (Hc : ch ∈ [0; 1; 2; 3; 4; 5; 6; 7; 8; 9; 10; 11; 12; 13; 14; 15]).
  { assert (Hn : ch = Z.of_nat (Z.to_nat ch)) by lia.
    rewrite Hn. assert (Hb : (Z.to_nat ch < 16)%nat) by lia.
    revert Hb. generalize (Z.to_nat ch). intros n Hb.
    do 16 (destruct n as [|n]; [set_solver|]). lia. }
  set_unfold in Hc. by repeat (destruct Hc as [->|Hc]; [reflexivity|]).
Qed.

Lemma land_other_status hi ch :
  0 ≤ ch < 16 → hi ∈ [128; 160; 176; 192; 208; 224; 240] →
  Z.land (hi + ch) 240 ≠ 144.
Proof.
  intros H Hhi.
  assert (Hc : ch ∈ [0; 1; 2; 3; 4; 5; 6; 7; 8; 9; 10; 11; 12; 13; 14; 15]).
  { assert (Hn : ch = Z.of_nat (Z.to_nat ch)) by lia.
    rewrite Hn. assert (Hb : (Z.to_nat ch < 16)%nat) by lia.
    revert Hb. generalize (Z.to_nat ch). intros n Hb.
    do 16 (destruct n as [|n]; [set_solver|]). lia. }
  set_unfold in Hhi. set_unfold in Hc.
  repeat (destruct Hhi as [->|Hhi]; [
    repeat (destruct Hc as [->|Hc]; [by vm_compute|]); done |]).
  done.
Qed.

Lemma callback_not_sustain t b0 rest m :
  is_sustain (b0 :: rest) = false →
  midi_callback t (b0 :: rest) m =
  (Return tt,
   if bool_decide (Z.land b0 240 = 144)
   then set_last_event_time t (set_note_event_occurred true m)
   else m).
Proof.
  intros Hs. unfold midi_callback, py_bind, py_get. rewrite Hs.
  unfold subscript. simpl. unfold py_ret. by case_bool_decide.
Qed.

Lemma is_sustain_status b0 rest :
  b0 ≠ 176 → is_sustain (b0 :: rest) = false.
Proof.
  intros H. unfold is_sustain. simpl.
  rewrite (bool_decide_eq_false_2 (Some b0 = Some 176)) by congruence.
  by rewrite andb_false_r.
Qed.

Lemma note_on_is_event_fields (t : float) (ch : Z) (rest : list Z) (m : MidiListener) :
  0 ≤ ch < 16 →
  note_event_occurred (exec (midi_callback t ((144 + ch) :: rest)) m) = true
  ∧ last_event_time (exec (midi_callback t ((144 + ch) :: rest)) m) = Some t.
Proof.
  intros H. unfold exec.
  rewrite callback_not_sustain by (apply is_sustain_status; lia).
  rewrite bool_decide_eq_true_2 by by apply land_note_on.
  done.
Qed.

(** X1. A note-on message on any of the sixteen channels (status byte
    [0x90 + ch]) sets the pulse and stamps the receive time, whatever
    follows the status byte (a velocity of zero, or nothing at all); it
    prints nothing and leaves the pedal state alone. *)
Theorem note_on_is_event (t : float) (ch : Z) (rest : list Z) (m : MidiListener) :
  0 ≤ ch < 16 →
  let m' := exec (midi_callback t ((144 + ch) :: rest)) m in
  result (midi_callback t ((144 + ch) :: rest)) m = Return tt
  ∧ note_event_occurred m' = true
  ∧ last_event_time m' = Some t
  ∧ pedal_pressed m' = pedal_pressed m
  ∧ midi_log m' = midi_log m.
Proof.
  intros H m'. unfold m', exec, result.
  rewrite callback_not_sustain by (apply is_sustain_status; lia).
  rewrite bool_decide_eq_true_2 by by apply land_note_on.
  done.
Qed.

(** X2. Messages that are neither a sustain message on channel 1 nor a
    note-on leave the listener untouched: note-off on any channel, a
    control change on channels 2 to 16 (the sustain controller included),
    any other controller on channel 1, every other channel message, and a
    sustain message cut short to two bytes. *)
Theorem other_messages_ignored (t : float) (m : MidiListener) :
  (∀ ch rest, 0 ≤ ch < 16 →
     midi_callback t ((128 + ch) :: rest) m = (Return tt, m))
  ∧ (∀ ch controller value, 1 ≤ ch < 16 →
     midi_callback t [176 + ch; controller; value] m = (Return tt, m))
  ∧ (∀ controller value, controller ≠ 64 →
     midi_callback t (ControlChange controller value) m = (Return tt, m))
  ∧ (∀ hi ch rest, hi ∈ [160; 192; 208; 224; 240] → 0 ≤ ch < 16 →
     midi_callback t ((hi + ch) :: rest) m = (Return tt, m))
  ∧ midi_callback t [176; 64] m = (Return tt, m).
Proof.
  split; [|split; [|split; [|split]]].
  - intros ch rest H.
    rewrite callback_not_sustain by (apply is_sustain_status; lia).
    rewrite bool_decide_eq_false_2; [done|].
    apply land_other_status; [done|set_solver].
  - intros ch c v H.
    rewrite callback_not_sustain by (apply is_sustain_status; lia).
    rewrite bool_decide_eq_false_2; [done|].
    apply land_other_status; [lia|set_solver].
  - intros c v H. unfold ControlChange.
    rewrite callback_not_sustain; [done|].
    unfold is_sustain. simpl.
    rewrite (bool_decide_eq_false_2 (Some c = Some 64)) by congruence.
    by rewrite ?andb_false_r.
  - intros hi ch rest Hhi H.
    rewrite callback_not_sustain.
    + rewrite bool_decide_eq_false_2; [done|].
      apply land_other_status; [done|set_solver].
    + apply is_sustain_status. set_unfold in Hhi. lia.
  - reflexivity.
Qed.

(** X3. The callback raises exactly on the empty message, with
    [IndexError] from [midi_message[0]], and then changes nothing; on every
    other message it returns. *)
Theorem callback_raises_iff_empty (t : float) (midi_message : list Z)
    (m : MidiListener) :
  (result (midi_callback t midi_message) m = Raise IndexError
   ↔ midi_message = [])
  ∧ (midi_message = [] → exec (midi_callback t midi_message) m = m)
  ∧ (midi_message ≠ [] → result (midi_callback t midi_message) m = Return tt).
Proof.
  assert (Hne : midi_message ≠ [] →
                result (midi_callback t midi_message) m = Return tt).
  { destruct midi_message as [|b0 rest]; [done|]. intros _.
    destruct (is_sustain (b0 :: rest)) eqn:Hs.
    - unfold is_sustain in Hs.
      apply andb_prop in Hs as [Hs H1]. apply andb_prop in Hs as [Hlen H0].
      apply bool_decide_eq_true in Hlen.
      destruct rest as [|b1 [|b2 rest]]; simpl in Hlen; [lia|lia|].
      unfold result, midi_callback, py_bind, py_get.
      assert (Hs' : is_sustain (b0 :: b1 :: b2 :: rest) = true).
      { unfold is_sustain. rewrite H0, H1.
        by rewrite bool_decide_eq_true_2 by (simpl; lia). }
      rewrite Hs'. unfold subscript. simpl.
      unfold py_ret, py_modify.
      by destruct (bool_decide (b2 < 40)), (pedal_pressed m).
    - unfold result. by rewrite callback_not_sustain. }
  split; [|split; [|done]].
  - split.
    + intros Hr. destruct midi_message as [|b0 rest]; [done|].
      rewrite Hne in Hr by done. done.
    + by intros ->.
  - by intros ->.
Qed.

Lemma callback_fields t msg m :
  let m' := exec (midi_callback t msg) m in
  (last_event_time m' = last_event_time m ∨ last_event_time m' = Some t)
  ∧ (note_event_occurred m' = true →
     note_event_occurred m = true ∨ last_event_time m' = Some t)
  ∧ (pedal_pressed m' = true →
     pedal_pressed m = true ∨ last_event_time m' = Some t)
  ∧ (note_event_occurred m = true → note_event_occurred m' = true).
Proof.
  destruct msg as [|b0 rest]; [simpl; tauto|].
  destruct (is_sustain (b0 :: rest)) eqn:Hs.
  - unfold is_sustain in Hs.
    apply andb_prop in Hs as [Hs H1]. apply andb_prop in Hs as [Hlen H0].
    apply bool_decide_eq_true in Hlen.
    destruct rest as [|b1 [|b2 rest]]; simpl in Hlen; [lia|lia|].
    assert (Hs' : is_sustain (b0 :: b1 :: b2 :: rest) = true).
    { unfold is_sustain. rewrite H0, H1.
      by rewrite bool_decide_eq_true_2 by (simpl; lia). }
    unfold exec, midi_callback, py_bind, py_get. rewrite Hs'.
    unfold subscript. simpl. unfold py_ret, py_modify.
    destruct (bool_decide (b2 < 40)), (pedal_pressed m) eqn:Hp; simpl;
      rewrite ?Hp; tauto.
  - unfold exec. rewrite callback_not_sustain by done.
    case_bool_decide; simpl; tauto.
Qed.

(** X4. In every run of callbacks and polls on a fresh listener, a pending
    pulse or a pressed pedal implies that [last_event_time] is set, and a
    set [last_event_time] is the receive time of one of the messages
    delivered: the polling loop never sees an event without a time to count
    from. *)
Theorem event_has_time (ops : list Op) :
  let m := run_ops ops init in
  (note_event_occurred m = true ∨ pedal_pressed m = true →
   is_Some (last_event_time m))
  ∧ (∀ t, last_event_time m = Some t → t ∈ receive_times ops).
Proof.
  induction ops as [|o ops IH] using rev_ind.
  - simpl. split; [intros [?|?]; done|done].
  - unfold run_ops, receive_times in *.
    rewrite foldl_app, omap_app. simpl.
    set (m := foldl apply_op init ops) in *.
    destruct IH as [IH1 IH2].
    destruct o as [t msg|]; simpl.
    + destruct (callback_fields t msg m) as (Ht & Hn & Hp & _).
      split.
      * intros [H|H].
        -- destruct (Hn H) as [H'|H']; [|by rewrite H'].
           destruct Ht as [->| ->]; [auto|done].
        -- destruct (Hp H) as [H'|H']; [|by rewrite H'].
           destruct Ht as [->| ->]; [auto|done].
      * intros t' Ht'. apply elem_of_app.
        destruct Ht as [Ht|Ht]; rewrite Ht in Ht'.
        -- left. auto.
        -- right. injection Ht' as <-. set_solver.
    + rewrite app_nil_r.
      unfold exec, check_and_clear_event, py_bind, py_get.
      destruct (note_event_occurred m) eqn:Hn; simpl.
      * split; [|done]. intros [H|H]; [done|auto].
      * split; [|done]. intros [H|H]; [congruence|auto].
Qed.

End MidiEvents.

(** ** The polling loop: what one pass of lines 504-513 does *)

Module MainFacts.
Import Midi Video Main Passes VideoFacts MainProofs.

Section facts.
Context {Frame : Type}.
Implicit Types p : Program Frame.

Lemma drain_events_fields (fuel : nat) (m : MidiListener) :
  note_event_occurred m = false →
  exec (drain_events fuel) m = m.
Proof.
  intros Hn. destruct fuel as [|k]; [done|].
  destruct m as [lt pp ne lg]. simpl in Hn. by subst ne.
Qed.

Lemma main_body_spec (fuel : nat) (clock : float) (wall : DateTime) p :
  let m := midi_listener p in
  let p' := exec (main_body fuel clock wall) p in
  calls p' = calls p ++ (if starts p then [CallStart] else [])
                     ++ (if stops clock wall p then [CallStop] else [])
  ∧ video_recorder p' =
      (if stops clock wall p then stop_recording (recorder_after_start wall p)
       else recorder_after_start wall p)
  ∧ device_connected p' = device_connected p
  ∧ last_event_time (midi_listener p') = last_event_time m
  ∧ pedal_pressed (midi_listener p') = pedal_pressed m
  ∧ midi_log (midi_listener p') = midi_log m
  ∧ note_event_occurred (midi_listener p') =
      (if device_connected p then false else note_event_occurred m).
Proof.
  intros m p'. subst m p'.
  destruct p as [[lt pp ne lg] v dc cs].
  unfold stops, recorder_after_start, starts, exec.
  cbn [midi_listener video_recorder device_connected calls last_event_time
       pedal_pressed note_event_occurred midi_log].
  destruct dc; [|cbn; by rewrite app_nil_r].
  assert (Hd : ∀ m0, note_event_occurred m0 = false →
                     (drain_events fuel m0).2 = m0).
  { intros m0 H0. by apply drain_events_fields. }
  destruct lt as [t|];
    destruct ne, (recording v) eqn:Hrec, pp;
    try destruct (PrimFloat.eqb t 0) eqn:Hz;
    try destruct (PrimFloat.ltb 7 (PrimFloat.sub clock t)) eqn:Hl;
    repeat (progress (cbn -[start_recording stop_recording drain_events];
                      rewrite ?recording_start, ?recording_stop, ?Hrec, ?Hl, ?Hz));
    rewrite ?app_nil_r, <- ?app_assoc;
    try done.
  all: unfold on_midi; cbn -[start_recording stop_recording drain_events].
  all: match goal with
       | |- context [drain_events ?f ?m0] =>
           pose proof (Hd m0 eq_refl) as Hd';
           destruct (drain_events f m0) as [r m1]; simpl in Hd'; subst m1
       end.
  all: done.
Qed.

Lemma main_body_disconnected (fuel : nat) (clock : float) (wall : DateTime) p :
  device_connected p = false → main_body fuel clock wall p = (Return true, p).
Proof. destruct p as [m v dc cs]. simpl. by intros ->. Qed.

End facts.
End MainFacts.

Module PassProofs.
Import Midi Video Main Passes VideoFacts MainProofs MainFacts.

Section proofs.
Context {Frame : Type}.
Implicit Types p : Program Frame.

(** X5. Start decision. A pass of the polling loop calls
    [start_recording()] iff the controller is connected, a pulse is
    pending and no recording is active; the call comes first among the
    calls of the pass and is made on the recorder as the pass found it.
    A connected pass always consumes the pulse, also when a recording is
    active, and never touches the event time or the pedal state; a
    disconnected pass changes nothing at all. *)
Theorem start_decision (fuel : nat) (clock : float) (wall : DateTime) p :
  let m := midi_listener p in
  let v := video_recorder p in
  let p' := exec (main_body fuel clock wall) p in
  (CallStart ∈ new_calls p p' ↔
     device_connected p = true ∧ note_event_occurred m = true
     ∧ recording v = false)
  ∧ (CallStart ∈ new_calls p p' →
     ∃ rest, new_calls p p' = CallStart :: rest
       ∧ (rest = [] ∧ video_recorder p' = start_recording wall v
          ∨ rest = [CallStop]
            ∧ video_recorder p' = stop_recording (start_recording wall v)))
  ∧ (CallStart ∉ new_calls p p' ∧ CallStop ∉ new_calls p p' →
     video_recorder p' = v)
  ∧ (device_connected p = true →
     note_event_occurred (midi_listener p') = false)
  ∧ last_event_time (midi_listener p') = last_event_time m
  ∧ pedal_pressed (midi_listener p') = pedal_pressed m
  ∧ (device_connected p = false → p' = p).
Proof.
  intros m v p'.
  destruct (main_body_spec fuel clock wall p)
    as (Hc & Hv & Hdc & Ht & Hp & Hlog & Hn).
  fold p' in Hc, Hv, Hdc, Ht, Hp, Hn, Hlog. fold m in Ht, Hp, Hn, Hlog.
  assert (Hnew : new_calls p p' =
                 (if starts p then [CallStart] else [])
                 ++ (if stops clock wall p then [CallStop] else [])).
  { unfold new_calls. rewrite Hc. by rewrite drop_app_length. }
  rewrite Hnew.
  assert (Hst : starts p = true ↔
                device_connected p = true ∧ note_event_occurred m = true
                ∧ recording v = false).
  { unfold starts. fold m v. rewrite !andb_true_iff, negb_true_iff. tauto. }
  split; [|split; [|split; [|split; [|split; [|split]]]]].
  - rewrite <- Hst.
    destruct (starts p), (stops clock wall p); simpl; set_solver.
  - intros Hin.
    assert (Hs : starts p = true).
    { destruct (starts p); [done|].
      destruct (stops clock wall p); simpl in Hin; set_solver. }
    rewrite Hs. unfold recorder_after_start in Hv. rewrite Hs in Hv. fold v in Hv.
    destruct (stops clock wall p); simpl; eauto.
  - intros [Hns Hnp].
    destruct (starts p) eqn:Hs; [set_solver|].
    destruct (stops clock wall p) eqn:Hp'; [set_solver|].
    rewrite Hv. unfold recorder_after_start. by rewrite Hs.
  - intros Hd. by rewrite Hn, Hd.
  - done.
  - done.
  - intros Hd. unfold p', exec. by rewrite main_body_disconnected.
Qed.

End proofs.
End PassProofs.

(** ** Reachable states of the recorder: batches, sessions, the log *)

Module ReachFacts.
Import Video Sessions Reach VideoFacts WorkerFacts Invariant WorkerProofs HandoffFacts.

Section facts.
Context {Frame : Type}.
Implicit Types (v : VideoRecorder Frame) (q : list (Task Frame)) (live : gset nat)
  (tr : list (Event (Frame:=Frame))).

(** What a step does to the queue: it takes at most the head and appends
    the buffer as a batch, a finalization of the current recording, or
    both. *)
Lemma queue_step v e :
  ∃ k new,
    encoding_queue (step v e) = drop k (encoding_queue v) ++ new
    ∧ Forall (λ t, t = FinalizeRecording (current_recording_id v)
                   ∨ ∃ rid, t = EncodeFrames (frame_buffer v) rid
                            ∧ frame_buffer v ≠ []) new.
Proof.
  destruct e as [ret frame|now| |o]; simpl.
  - unfold capture_iteration. destruct ret, frame as [f|];
      try (exists 0, []; by rewrite drop_0, app_nil_r).
    unfold capture_locked.
    destruct (recording v && bool_decide (buffer_size v ≤ length (frame_buffer v)));
      simpl; [|exists 0, []; by rewrite drop_0, app_nil_r].
    destruct (truthy (frame_buffer v)) eqn:Hne; simpl;
      [|exists 0, []; by rewrite drop_0, app_nil_r].
    exists 0. eexists. split; [by rewrite drop_0|].
    constructor; [|done]. right. eexists. split; [done|]. by apply truthy_true.
  - destruct (recording v) eqn:Hrec.
    { rewrite start_recording_active by done.
      exists 0, []. by rewrite drop_0, app_nil_r. }
    rewrite start_recording_idle by done. simpl.
    exists 0. eexists. split; [by rewrite drop_0|].
    unfold batch. destruct (truthy (frame_buffer v)) eqn:Hne; [|done].
    constructor; [|done]. right. eexists. split; [done|]. by apply truthy_true.
  - destruct (recording v) eqn:Hrec.
    2:{ rewrite stop_recording_idle by done.
        exists 0, []. by rewrite drop_0, app_nil_r. }
    rewrite stop_recording_active by done. simpl.
    exists 0. eexists. split; [by rewrite drop_0|].
    apply Forall_app. split; [|constructor; [by left|done]].
    unfold batch. destruct (truthy (frame_buffer v)) eqn:Hne; [|done].
    constructor; [|done]. right. eexists. split; [done|]. by apply truthy_true.
  - exists 1, []. by rewrite worker_iteration_queue, app_nil_r.
Qed.

Lemma buffer_size_step v e : buffer_size (step v e) = buffer_size v.
Proof. unfold buffer_size. by rewrite fps_step. Qed.

Lemma batches_step v e :
  wf v →
  Forall (batch_ok (buffer_size v)) (encoding_queue v) →
  Forall (batch_ok (buffer_size (step v e))) (encoding_queue (step v e)).
Proof.
  intros Hwf Hq. rewrite buffer_size_step.
  destruct (queue_step v e) as (k & new & -> & Hnew).
  apply Forall_app. split; [by apply Forall_drop|].
  eapply Forall_impl; [exact Hnew|]. simpl.
  intros t [->|(rid & -> & Hne)]; simpl; [done|].
  split; [|by apply wf_buffer].
  destruct (frame_buffer v); [done|simpl; lia].
Qed.

Lemma batches_run tr v :
  wf v →
  Forall (batch_ok (buffer_size v)) (encoding_queue v) →
  Forall (batch_ok (buffer_size (run tr v))) (encoding_queue (run tr v)).
Proof.
  revert v. induction tr as [|e tr IH]; intros v Hwf Hq; [done|].
  unfold run in *. simpl. apply IH; [by apply wf_step|by apply batches_step].
Qed.


(** *** Which recordings are live *)

Lemma elem_of_finalizing r q :
  r ∈ finalizing q ↔ FinalizeRecording (Some r) ∈ q.
Proof.
  unfold finalizing. rewrite elem_of_list_to_set, list_elem_of_omap. split.
  - intros ([fs rid|rid] & Hin & Heq); simplify_eq. done.
  - intros Hin. by exists (FinalizeRecording (Some r)).
Qed.

Lemma elem_of_live_after r live q :
  r ∈ live_after live q ↔ r ∈ live ∧ r ∉ finalizing q.
Proof.
  revert live. induction q as [|[fs rid|[r'|]] q IH]; intros live.
  - unfold finalizing. simpl. set_solver.
  - simpl. rewrite IH. unfold finalizing. simpl. done.
  - simpl. rewrite IH. unfold finalizing. simpl. set_solver.
  - simpl. rewrite IH. unfold finalizing. simpl. done.
Qed.

Lemma queue_ok_finalizing live q : queue_ok live q → finalizing q ⊆ live.
Proof.
  revert live. induction q as [|[fs [r|]|[r|]] q IH]; intros live; simpl;
    unfold finalizing; simpl; try tauto.
  - set_solver.
  - intros (_ & _ & H). by apply IH.
  - intros (Hr & H). apply IH in H. unfold finalizing in H. set_solver.
Qed.

Lemma capture_fields ret frame v :
  let v' := capture_iteration ret frame v in
  active_recordings v' = active_recordings v
  ∧ containers v' = containers v
  ∧ files v' = files v
  ∧ log v' = log v
  ∧ recording v' = recording v
  ∧ current_recording_id v' = current_recording_id v
  ∧ next_recording_id v' = next_recording_id v
  ∧ (encoding_queue v' = encoding_queue v
     ∨ encoding_queue v' =
         encoding_queue v ++ [EncodeFrames (frame_buffer v) (current_recording_id v)]).
Proof.
  unfold capture_iteration. destruct ret, frame as [f|]; simpl; try tauto.
  unfold capture_locked.
  destruct (recording v && bool_decide (buffer_size v ≤ length (frame_buffer v)));
    simpl; [|tauto].
  destruct (truthy (frame_buffer v)); simpl; tauto.
Qed.

(** What a worker iteration finds at the head of the queue of a reachable
    state. *)
Lemma worker_cases o v :
  wf v →
  let v' := exec (worker_iteration o) v in
  (encoding_queue v = [] ∧ v' = v)
  ∨ (∃ frames r d q,
       encoding_queue v = EncodeFrames frames (Some r) :: q
       ∧ frames ≠ [] ∧ active_recordings v !! r = Some d
       ∧ v' = (_encode_frames (encode_fault o) frames (Some r)
                 (set_encoding_queue q v)).2)
  ∨ (∃ r d q,
       encoding_queue v = FinalizeRecording (Some r) :: q
       ∧ active_recordings v !! r = Some d
       ∧ v' = (_finalize_recording (finalize_fault o) (Some r)
                 (set_encoding_queue q v)).2).
Proof.
  intros Hwf v'. unfold v', exec.
  pose proof (wf_queue _ Hwf) as Hq.
  destruct (encoding_queue v) as [|[frames rid|rid] q] eqn:Hqueue.
  - left. by rewrite worker_idle.
  - right. left. destruct rid as [r|]; [|done].
    destruct Hq as (Hne & [d Hd]%elem_of_dom & _).
    exists frames, r, d, q. by rewrite (worker_encode o frames (Some r) q v Hqueue).
  - right. right. destruct rid as [r|]; [|done].
    destruct Hq as ([d Hd]%elem_of_dom & _).
    exists r, d, q. by rewrite (worker_finalize o (Some r) q v Hqueue).
Qed.

(** The state after a batch has been encoded for a live recording. *)
Lemma encode_live_fields fault frames r d v :
  frames ≠ [] →
  active_recordings v !! r = Some d →
  let v' := (_encode_frames fault frames (Some r) v).2 in
  ∃ l line,
    v' = print line
           (set_active_recordings (active_recordings v')
              (mux_all r l (print (LogEncoding (length frames) (Some r)) v)))
    ∧ (∀ rid, line ≠ LogNotFound rid)
    ∧ dom (active_recordings v') = dom (active_recordings v)
    ∧ (∀ r', r' ≠ r → active_recordings v' !! r' = active_recordings v !! r')
    ∧ (fps v = 0 → l = [])
    ∧ l = stamp (1 # Pos.of_nat (fps v)) (frame_count d) 0
            (muxed_until (if bool_decide (fps v = 0) then Some 0 else fault) 0 frames).
Proof.
  intros Hne Hd v'. unfold v'.
  destruct (fps v) as [|n] eqn:Hfps.
  - rewrite (encode_frames_zero_fps _ _ _ d) by done. simpl.
    exists [], (LogEncodeError ZeroDivisionError).
    split; [done|]. split; [done|]. split; [done|]. split; [done|]. split; [done|].
    destruct frames; [done|]. simpl. done.
  - rewrite (encode_frames_live _ _ _ d _ n) by done. simpl.
    exists (stamp (1 # Pos.of_nat (S n)) (frame_count d) 0 (muxed_until fault 0 frames)).
    exists (if bool_decide (length (muxed_until fault 0 frames) = length frames)
            then LogEncoded (length frames) (Some r)
            else LogEncodeError EncoderError).
    split; [|split; [|split; [|split; [|split; [done|reflexivity]]]]].
    + case_bool_decide as Hlen; [reflexivity|].
      by rewrite mux_all_fields.
    + intros rid. by case_bool_decide.
    + case_bool_decide; rewrite mux_all_fields; simpl; [|done].
      apply set_eq. intros r'. by rewrite !elem_of_dom, lookup_alter_is_Some.
    + intros r' Hr'. case_bool_decide; rewrite mux_all_fields; simpl; [|done].
      by rewrite lookup_alter_ne.
Qed.

Lemma encode_live_dom fault frames r d v :
  frames ≠ [] →
  active_recordings v !! r = Some d →
  dom (active_recordings (_encode_frames fault frames (Some r) v).2)
  = dom (active_recordings v).
Proof.
  intros Hne Hd.
  by destruct (encode_live_fields fault frames r d v Hne Hd) as (l & line & _ & _ & H & _).
Qed.

Lemma encode_live_same fault frames r d v :
  frames ≠ [] →
  active_recordings v !! r = Some d →
  let v' := (_encode_frames fault frames (Some r) v).2 in
  fps v' = fps v ∧ recording v' = recording v
  ∧ next_recording_id v' = next_recording_id v
  ∧ current_recording_id v' = current_recording_id v
  ∧ frame_buffer v' = frame_buffer v
  ∧ encoding_queue v' = encoding_queue v
  ∧ files v' = files v.
Proof.
  intros Hne Hd v'.
  destruct (encode_live_fields fault frames r d v Hne Hd) as (l & line & H & _).
  fold v' in H. rewrite H. simpl. rewrite mux_all_fields. simpl. done.
Qed.

Lemma finalize_live_same fault r d v :
  active_recordings v !! r = Some d →
  let v' := (_finalize_recording fault (Some r) v).2 in
  fps v' = fps v ∧ recording v' = recording v
  ∧ next_recording_id v' = next_recording_id v
  ∧ current_recording_id v' = current_recording_id v
  ∧ frame_buffer v' = frame_buffer v
  ∧ encoding_queue v' = encoding_queue v
  ∧ active_recordings v' = delete r (active_recordings v)
  ∧ (∀ r', output r' v' = output r' v)
  ∧ (∀ r', r' ≠ r → containers v' !! r' = containers v !! r').
Proof.
  intros Hd v'. unfold v'. rewrite (finalize_live _ _ d) by done. simpl.
  assert (Hout : ∀ r' (c : gmap nat (Container Frame)),
            match alter (λ c, {| muxed := muxed c; closed := true |}) r c !! r' with
            | Some c => muxed c | None => []
            end = match c !! r' with Some c => muxed c | None => [] end).
  { intros r' c. destruct (decide (r = r')) as [<-|Hr].
    - rewrite lookup_alter_eq. by destruct (c !! r).
    - by rewrite lookup_alter_ne. }
  destruct fault as [[]|]; simpl; repeat split; try done;
    try (intros r'; unfold output; simpl; apply Hout);
    intros r' Hr'; by rewrite lookup_alter_ne.
Qed.

Lemma live_after_insert live q r :
  queue_ok live q → r ∉ live →
  live_after ({[r]} ∪ live) q = {[r]} ∪ live_after live q.
Proof.
  intros Hq Hr. apply set_eq. intros r'.
  rewrite elem_of_union, !elem_of_live_after, elem_of_union.
  apply queue_ok_finalizing in Hq. set_solver.
Qed.

Lemma live_after_batch live (b : list Frame) rid :
  live_after live (batch b rid) = live.
Proof. unfold batch. by destruct (truthy b). Qed.

Lemma accounted_step v e : wf v → accounted v → accounted (step v e).
Proof.
  intros Hwf Hacc. unfold accounted, current_set in *.
  destruct e as [ret frame|now| |o]; simpl.
  - destruct (capture_fields ret frame v) as (-> & _ & _ & _ & _ & -> & _ & [->| ->]);
      [done|].
    by rewrite live_after_app.
  - destruct (recording v) eqn:Hrec.
    { by rewrite start_recording_active. }
    rewrite start_recording_idle by done. simpl.
    pose proof (wf_current _ Hwf) as Hcur. rewrite Hrec in Hcur.
    rewrite Hcur in Hacc.
    rewrite dom_insert_L, live_after_app, live_after_batch.
    rewrite live_after_insert; [|by apply wf_queue|].
    + rewrite Hacc. set_solver.
    + intros ?%(wf_ids _ Hwf). lia.
  - destruct (recording v) eqn:Hrec.
    2:{ by rewrite stop_recording_idle. }
    rewrite stop_recording_active by done. simpl.
    pose proof (wf_current _ Hwf) as Hcur. rewrite Hrec in Hcur.
    destruct Hcur as (c & Hc & _). rewrite Hc in Hacc |- *.
    rewrite !live_after_app, live_after_batch. simpl. rewrite Hacc. set_solver.
  - destruct (worker_cases o v Hwf) as
      [[Hq ->]|[(frames & r & d & q & Hq & Hne & Hd & ->)
               |(r & d & q & Hq & Hd & ->)]]; [done| |].
    + rewrite (encode_live_dom _ _ _ d) by done.
      destruct (encode_live_same (encode_fault o) frames r d
                  (set_encoding_queue q v) Hne Hd) as (_ & _ & _ & -> & _ & -> & _).
      simpl. by rewrite Hq in Hacc.
    + destruct (finalize_live_same (finalize_fault o) r d
                  (set_encoding_queue q v) Hd)
        as (_ & _ & _ & -> & _ & -> & -> & _).
      simpl. rewrite dom_delete_L. by rewrite Hq in Hacc.
Qed.

Lemma accounted_run tr v : wf v → accounted v → accounted (run tr v).
Proof.
  revert v. induction tr as [|e tr IH]; intros v Hwf Hacc; [done|].
  unfold run in *. simpl. apply IH; [by apply wf_step|by apply accounted_step].
Qed.

Lemma accounted_reachable tr fps0 : accounted (run tr (init (Frame:=Frame) fps0)).
Proof. apply accounted_run; [apply wf_init|done]. Qed.


(** *** The log, the containers and the files along a step *)

Lemma encode_live_log fault frames r d v :
  frames ≠ [] →
  active_recordings v !! r = Some d →
  ∃ line, log (_encode_frames fault frames (Some r) v).2
          = log v ++ [LogEncoding (length frames) (Some r); line]
          ∧ ∀ rid, line ≠ LogNotFound rid.
Proof.
  intros Hne Hd.
  destruct (encode_live_fields fault frames r d v Hne Hd) as (l & line & -> & Hl & _).
  simpl. rewrite mux_all_fields. simpl. rewrite <- app_assoc. simpl.
  by exists line.
Qed.

Lemma encode_live_containers fault frames r d v :
  frames ≠ [] →
  active_recordings v !! r = Some d →
  ∃ l, ∀ r',
    containers (_encode_frames fault frames (Some r) v).2 !! r' =
    if decide (r = r')
    then (λ c, {| muxed := muxed c ++ l; closed := closed c |}) <$> containers v !! r
    else containers v !! r'.
Proof.
  intros Hne Hd.
  destruct (encode_live_fields fault frames r d v Hne Hd) as (l & line & -> & _).
  exists l. intros r'. simpl. by rewrite mux_all_lookup.
Qed.

Lemma finalize_live_log fault r d v :
  active_recordings v !! r = Some d →
  ∃ line, log (_finalize_recording fault (Some r) v).2 = log v ++ [line]
          ∧ ∀ rid, line ≠ LogNotFound rid.
Proof.
  intros Hd. rewrite (finalize_live _ _ d) by done. simpl.
  destruct fault as [[]|]; simpl; eexists; (split; [done|]); done.
Qed.

Lemma finalize_live_files fault r d v :
  active_recordings v !! r = Some d →
  files (_finalize_recording fault (Some r) v).2 =
  if bool_decide (fault = None)
  then <[video_file (start_time d) := output r v]> (files v)
  else files v.
Proof.
  intros Hd. rewrite (finalize_live _ _ d) by done. simpl.
  destruct fault as [[]|]; simpl; try done.
  unfold write_file, getvalue, output. simpl.
  rewrite lookup_alter_eq. by destruct (containers v !! r).
Qed.

Lemma all_found_step v e : wf v → all_found v → all_found (step v e).
Proof.
  intros Hwf Hlog rid. specialize (Hlog rid).
  destruct e as [ret frame|now| |o]; simpl.
  - by destruct (capture_fields ret frame v) as (_ & _ & _ & -> & _).
  - destruct (recording v) eqn:Hrec.
    { by rewrite start_recording_active. }
    rewrite start_recording_idle by done. simpl. set_solver.
  - destruct (recording v) eqn:Hrec.
    2:{ by rewrite stop_recording_idle. }
    rewrite stop_recording_active by done. simpl. set_solver.
  - destruct (worker_cases o v Hwf) as
      [[Hq ->]|[(frames & r & d & q & Hq & Hne & Hd & ->)
               |(r & d & q & Hq & Hd & ->)]]; [done| |].
    + destruct (encode_live_log (encode_fault o) frames r d
                  (set_encoding_queue q v) Hne Hd) as (line & -> & Hline).
      simpl. specialize (Hline rid). set_solver.
    + destruct (finalize_live_log (finalize_fault o) r d
                  (set_encoding_queue q v) Hd) as (line & -> & Hline).
      simpl. specialize (Hline rid). set_solver.
Qed.

Lemma closed_dead_step v e : wf v → closed_dead v → closed_dead (step v e).
Proof.
  intros Hwf Hcd r c.
  destruct e as [ret frame|now| |o]; simpl.
  - destruct (capture_fields ret frame v) as (-> & -> & _). apply Hcd.
  - destruct (recording v) eqn:Hrec.
    { rewrite start_recording_active by done. apply Hcd. }
    rewrite start_recording_idle by done. simpl.
    destruct (decide (r = next_recording_id v)) as [->|Hr].
    + rewrite lookup_insert_eq. by intros [= <-].
    + rewrite lookup_insert_ne by done. intros Hc Hcl.
      rewrite dom_insert_L. specialize (Hcd r c Hc Hcl). set_solver.
  - destruct (recording v) eqn:Hrec.
    2:{ rewrite stop_recording_idle by done. apply Hcd. }
    rewrite stop_recording_active by done. simpl. apply Hcd.
  - destruct (worker_cases o v Hwf) as
      [[Hq ->]|[(frames & r0 & d & q & Hq & Hne & Hd & ->)
               |(r0 & d & q & Hq & Hd & ->)]]; [apply Hcd| |].
    + rewrite (encode_live_dom _ _ _ d) by done.
      destruct (encode_live_containers (encode_fault o) frames r0 d
                  (set_encoding_queue q v) Hne Hd) as (l & Hl).
      rewrite Hl. simpl. case_decide as Hr; [subst r0|apply Hcd].
      destruct (containers v !! r) as [c0|] eqn:Hc0; [|done]. simpl.
      intros [= <-]. simpl. by apply Hcd.
    + destruct (finalize_live_same (finalize_fault o) r0 d
                  (set_encoding_queue q v) Hd)
        as (_ & _ & _ & _ & _ & _ & -> & _ & Hothers).
      simpl. rewrite dom_delete_L.
      destruct (decide (r = r0)) as [->|Hr]; [set_solver|].
      rewrite Hothers by done. simpl. intros Hc Hcl.
      specialize (Hcd r c Hc Hcl). set_solver.
Qed.

Lemma output_step v e r :
  wf v → closed_dead v →
  output r v `prefix_of` output r (step v e)
  ∧ (∀ c, containers v !! r = Some c → closed c = true →
          containers (step v e) !! r = Some c).
Proof.
  intros Hwf Hcd.
  destruct e as [ret frame|now| |o]; simpl.
  - by destruct (capture_fields ret frame v) as (_ & Hc & _); unfold output; rewrite Hc.
  - destruct (recording v) eqn:Hrec.
    { by rewrite start_recording_active. }
    rewrite start_recording_idle by done. unfold output. simpl.
    destruct (decide (r = next_recording_id v)) as [->|Hr].
    + assert (Hnone : containers v !! next_recording_id v = None).
      { apply not_elem_of_dom. intros ?%(wf_containers _ Hwf). lia. }
      rewrite Hnone, lookup_insert_eq. split; [apply prefix_nil|done].
    + by rewrite lookup_insert_ne.
  - destruct (recording v) eqn:Hrec.
    2:{ by rewrite stop_recording_idle. }
    by rewrite stop_recording_active.
  - destruct (worker_cases o v Hwf) as
      [[Hq ->]|[(frames & r0 & d & q & Hq & Hne & Hd & ->)
               |(r0 & d & q & Hq & Hd & ->)]]; [done| |].
    + destruct (encode_live_containers (encode_fault o) frames r0 d
                  (set_encoding_queue q v) Hne Hd) as (l & Hl).
      unfold output. rewrite Hl. simpl.
      case_decide as Hr; [subst r0|done].
      destruct (containers v !! r) as [c0|] eqn:Hc0; simpl; [|done].
      split; [by apply prefix_app_r|].
      intros c [= <-] Hcl. exfalso.
      apply (Hcd r c0 Hc0 Hcl). by apply elem_of_dom.
    + destruct (finalize_live_same (finalize_fault o) r0 d
                  (set_encoding_queue q v) Hd)
        as (_ & _ & _ & _ & _ & _ & _ & Hout & Hothers).
      rewrite Hout. split; [done|]. intros c Hc Hcl.
      destruct (decide (r = r0)) as [->|Hr].
      * exfalso. apply (Hcd r0 c Hc Hcl). by apply elem_of_dom.
      * by rewrite Hothers.
Qed.

Lemma closed_dead_run tr v : wf v → closed_dead v → closed_dead (run tr v).
Proof.
  revert v. induction tr as [|e tr IH]; intros v Hwf Hcd; [done|].
  unfold run in *. simpl. apply IH; [by apply wf_step|by apply closed_dead_step].
Qed.

Lemma all_found_run tr v : wf v → all_found v → all_found (run tr v).
Proof.
  revert v. induction tr as [|e tr IH]; intros v Hwf Hcd; [done|].
  unfold run in *. simpl. apply IH; [by apply wf_step|by apply all_found_step].
Qed.

Lemma output_run tr v r :
  wf v → closed_dead v →
  output r v `prefix_of` output r (run tr v)
  ∧ (∀ c, containers v !! r = Some c → closed c = true →
          containers (run tr v) !! r = Some c).
Proof.
  revert v. induction tr as [|e tr IH]; intros v Hwf Hcd; [done|].
  unfold run in *. simpl.
  destruct (output_step v e r Hwf Hcd) as [H1 H2].
  destruct (IH (step v e)) as [H3 H4];
    [by apply wf_step|by apply closed_dead_step|].
  split; [by etrans|]. intros c Hc Hcl. apply H4; [|done]. by apply H2.
Qed.

(** *** A camera that reports zero frames per second *)

Lemma nothing_encoded_step v e :
  wf v → fps v = 0 → nothing_encoded v → nothing_encoded (step v e).
Proof.
  intros Hwf Hfps [Hout Hfiles].
  destruct e as [ret frame|now| |o]; simpl.
  - destruct (capture_fields ret frame v) as (_ & Hc & Hf & _).
    unfold nothing_encoded, output. by rewrite Hc, Hf.
  - destruct (recording v) eqn:Hrec.
    { by rewrite start_recording_active. }
    rewrite start_recording_idle by done.
    split; [|done]. intros r. unfold output. simpl.
    destruct (decide (r = next_recording_id v)) as [->|Hr].
    + by rewrite lookup_insert_eq.
    + rewrite lookup_insert_ne by done. apply Hout.
  - destruct (recording v) eqn:Hrec.
    2:{ by rewrite stop_recording_idle. }
    by rewrite stop_recording_active.
  - destruct (worker_cases o v Hwf) as
      [[Hq ->]|[(frames & r0 & d & q & Hq & Hne & Hd & ->)
               |(r0 & d & q & Hq & Hd & ->)]]; [done| |].
    + destruct (encode_live_fields (encode_fault o) frames r0 d
                  (set_encoding_queue q v) Hne Hd)
        as (l & line & -> & _ & _ & _ & Hl & _).
      rewrite (Hl Hfps). split.
      * intros r. unfold output. simpl. apply Hout.
      * simpl. apply Hfiles.
    + destruct (finalize_live_same (finalize_fault o) r0 d
                  (set_encoding_queue q v) Hd)
        as (_ & _ & _ & _ & _ & _ & _ & Hsame & _).
      split; [intros r; rewrite Hsame; apply Hout|].
      rewrite (finalize_live_files _ _ d) by done.
      intros path l. case_bool_decide; [|apply Hfiles].
      destruct (decide (path = video_file (start_time d))) as [->|Hp].
      * rewrite lookup_insert_eq. intros [= <-]. apply Hout.
      * rewrite lookup_insert_ne by done. apply Hfiles.
Qed.

Lemma nothing_encoded_run tr v :
  wf v → fps v = 0 → nothing_encoded v → nothing_encoded (run tr v).
Proof.
  revert v. induction tr as [|e tr IH]; intros v Hwf Hfps Hn; [done|].
  unfold run in *. simpl.
  apply IH; [by apply wf_step|by rewrite fps_step|by apply nothing_encoded_step].
Qed.

End facts.
End ReachFacts.

Module ReachProofs.
Import Video Sessions Reach VideoFacts WorkerFacts Invariant WorkerProofs
  HandoffFacts ReachFacts.

Section proofs.
Context {Frame : Type}.
Implicit Types (v : VideoRecorder Frame) (q : list (Task Frame)) (live : gset nat)
  (tr : list (Event (Frame:=Frame))).

(** X6. Bounded memory. Whatever the threads have done since the recorder
    was created, the pre-roll buffer holds at most [fps * 3] frames, and
    every batch waiting in the encode queue holds at least one frame and
    at most [fps * 3]: no empty batch is queued, and none longer than
    three seconds of video. *)
Theorem batches_bounded (fps0 : nat) tr :
  let v := run tr (init fps0) in
  length (frame_buffer v) ≤ fps0 * 3
  ∧ ∀ frames rid, EncodeFrames frames rid ∈ encoding_queue v →
      1 ≤ length frames ≤ fps0 * 3.
Proof.
  intros v.
  assert (Hcap : buffer_size v = fps0 * 3).
  { unfold v, buffer_size. by rewrite HandoffProofs.fps_run. }
  split.
  - rewrite <- Hcap. apply wf_buffer, wf_reachable.
  - intros frames rid Hin.
    assert (Hq : Forall (batch_ok (buffer_size v)) (encoding_queue v)).
    { apply batches_run; [apply wf_init|constructor]. }
    rewrite Forall_forall in Hq. specialize (Hq _ Hin). simpl in Hq.
    by rewrite Hcap in Hq.
Qed.


(** X7. Sessions are accounted for. In every reachable state a recording
    has an entry in [active_recordings] iff it is the current recording
    or its finalization is queued, and never both; the recorder is
    recording iff a current recording is set. So once the worker has gone
    through the queue, whatever failed on the way, the only entry left is
    the recording in progress: stopped sessions do not pile up. *)
Theorem sessions_accounted (fps0 : nat) tr (os : list Oracle) :
  let v := run tr (init fps0) in
  let v' := run (map Worker os) v in
  (∀ r, r ∈ dom (active_recordings v) ↔
        current_recording_id v = Some r
        ∨ FinalizeRecording (Some r) ∈ encoding_queue v)
  ∧ (∀ r, current_recording_id v = Some r →
          FinalizeRecording (Some r) ∉ encoding_queue v)
  ∧ (recording v = true ↔ is_Some (current_recording_id v))
  ∧ (length (encoding_queue v) ≤ length os →
     encoding_queue v' = []
     ∧ ∀ r, r ∈ dom (active_recordings v') ↔ current_recording_id v = Some r).
Proof.
  intros v v'.
  assert (Hwf : wf v) by apply wf_reachable.
  assert (Hacc : accounted v) by apply accounted_reachable.
  assert (Hcs : ∀ (u : VideoRecorder Frame) r,
            r ∈ current_set u ↔ current_recording_id u = Some r).
  { intros u r. unfold current_set. destruct (current_recording_id u); set_solver. }
  assert (Hlive : ∀ r, r ∈ dom (active_recordings v) ∧ r ∉ finalizing (encoding_queue v)
                       ↔ current_recording_id v = Some r).
  { intros r. rewrite <- elem_of_live_after, Hacc. apply Hcs. }
  pose proof (queue_ok_finalizing _ _ (wf_queue _ Hwf)) as Hfin.
  split; [|split; [|split]].
  - intros r. rewrite <- Hlive, <- elem_of_finalizing.
    destruct (decide (r ∈ finalizing (encoding_queue v))) as [Hin|Hin];
      [|tauto].
    split; [by right|]. intros _. by apply Hfin.
  - intros r Hr. rewrite <- elem_of_finalizing. apply Hlive in Hr. tauto.
  - pose proof (wf_current _ Hwf) as Hcur.
    destruct (recording v).
    + destruct Hcur as (c & -> & _). split; eauto.
    + rewrite Hcur. split; [done|]. intros [? ?]; done.
  - intros Hlen.
    assert (Hq' : encoding_queue v' = []).
    { unfold v'. rewrite encoding_worker_queue. by apply drop_ge. }
    split; [done|]. intros r.
    assert (Hacc' : accounted v').
    { unfold v', v. rewrite <- run_app. apply accounted_reachable. }
    unfold accounted in Hacc'. rewrite Hq' in Hacc'. simpl in Hacc'.
    rewrite Hacc', Hcs.
    assert (Hsame : current_recording_id v' = current_recording_id v).
    { unfold v'. generalize v. clear. induction os as [|o os IH]; intros v; [done|].
      unfold run in *. simpl. rewrite IH.
      by destruct (worker_iteration_fields o v) as (_ & _ & _ & -> & _). }
    by rewrite Hsame.
Qed.


(** X8. Every task finds its recording. When the methods run one at a
    time (a capture iteration, a worker iteration, a start or a stop as one
    step each), the worker never prints "Recording ... not found": no batch
    is queued behind the finalization of its recording, and no task names a
    recording that was never registered or the id [None]. *)
Theorem not_found_unreachable (fps0 : nat) tr (rid : option nat) :
  LogNotFound rid ∉ log (run tr (init fps0)).
Proof.
  apply all_found_run; [apply wf_init|]. intros rid'. simpl. set_solver.
Qed.

(** X9. Encoded output only grows, and a closed container is never written
    again. From any reachable state on, whatever happens next, the frames
    muxed for a recording stay a prefix of what is muxed later; and once
    the recording's container is closed, it is left exactly as it is. *)
Theorem output_append_only (fps0 : nat) tr tr' (r : nat) :
  let v := run tr (init fps0) in
  let v' := run tr' v in
  output r v `prefix_of` output r v'
  ∧ ∀ c, containers v !! r = Some c → closed c = true →
         containers v' !! r = Some c ∧ output r v' = output r v
         ∧ r ∉ dom (active_recordings v').
Proof.
  intros v v'.
  assert (Hwf : wf v) by apply wf_reachable.
  assert (Hcd : closed_dead v).
  { apply closed_dead_run; [apply wf_init|]. intros r' c'. simpl. done. }
  destruct (output_run tr' v r Hwf Hcd) as [H1 H2].
  split; [done|]. intros c Hc Hcl.
  specialize (H2 c Hc Hcl). fold v' in H2.
  split; [done|]. split.
  - unfold output. by rewrite H2, Hc.
  - assert (Hcd' : closed_dead v') by by apply closed_dead_run.
    by apply (Hcd' r c).
Qed.

(** X10. A camera that reports zero frames per second records nothing.
    With [fps = 0] the buffer has capacity zero: it stays empty, no batch
    is ever queued, nothing is ever muxed, and every file a finalization
    writes is empty. *)
Theorem zero_fps_records_nothing tr :
  let v := run tr (init 0) in
  frame_buffer v = []
  ∧ (∀ frames rid, EncodeFrames frames rid ∉ encoding_queue v)
  ∧ (∀ r, output r v = [])
  ∧ (∀ path l, files v !! path = Some l → l = []).
Proof.
  intros v.
  destruct (batches_bounded 0 tr) as [Hb Hq]. fold v in Hb, Hq.
  split; [|split].
  - destruct (frame_buffer v); [done|simpl in Hb; lia].
  - intros frames rid Hin. specialize (Hq _ _ Hin). lia.
  - apply nothing_encoded_run; [apply wf_init|done|].
    split; [done|]. intros path l. simpl. by rewrite lookup_empty.
Qed.

End proofs.
End ReachProofs.

(** ** The worker: one task at a time *)

Module TaskFacts.
Import Video Sessions Reach VideoFacts WorkerFacts Invariant WorkerProofs
  HandoffFacts ReachFacts.

Section facts.
Context {Frame : Type}.
Implicit Types (v : VideoRecorder Frame) (q : list (Task Frame))
  (frames : list Frame).

Lemma lookup_recording_inv rid v r d :
  lookup_recording rid v = Some (r, d) →
  rid = Some r ∧ active_recordings v !! r = Some d.
Proof.
  unfold lookup_recording. destruct rid as [r'|]; [|done]. simpl.
  destruct (active_recordings v !! r') as [d'|] eqn:Hd; [|done]. simpl.
  by intros [= <- <-].
Qed.



End facts.
End TaskFacts.

Module TaskProofs.
Import Video Sessions Reach VideoFacts WorkerFacts Invariant WorkerProofs
  HandoffFacts ReachFacts TaskFacts.

Section proofs.
Context {Frame : Type}.
Implicit Types (v : VideoRecorder Frame) (q : list (Task Frame))
  (frames : list Frame).

(** X11. Overlapping recordings do not disturb each other. A worker
    iteration that takes a task of one recording leaves every other
    recording as it was, whatever fails: its container, its encoded
    output and its entry in [active_recordings]. Encoding a batch never
    writes a file. *)
Theorem worker_isolation (o : Oracle) (t : Task Frame) q v (r' : nat) :
  encoding_queue v = t :: q →
  task_id t ≠ Some r' →
  let v' := exec (worker_iteration o) v in
  containers v' !! r' = containers v !! r'
  ∧ output r' v' = output r' v
  ∧ active_recordings v' !! r' = active_recordings v !! r'
  ∧ (∀ frames rid, t = EncodeFrames frames rid → files v' = files v).
Proof.
  intros Hq Hid v'.
  assert (Hout : ∀ u : VideoRecorder Frame,
            containers u !! r' = containers v !! r' → output r' u = output r' v).
  { intros u H. unfold output. by rewrite H. }
  unfold v', exec in *. clear v'.
  destruct t as [frames rid|rid]; simpl in Hid.
  - rewrite (worker_encode o frames rid q v Hq). simpl.
    set (v0 := set_encoding_queue q v) in *.
    destruct frames as [|f frames].
    { rewrite encode_frames_empty. simpl. split; [done|]. split; [auto|done]. }
    set (fs := f :: frames) in *. assert (Hne : fs ≠ []) by done. clearbody fs.
    destruct (lookup_recording rid v0) as [[r d]|] eqn:Hlook.
    2:{ rewrite encode_frames_not_found by done. simpl.
        split; [done|]. split; [auto|done]. }
    apply lookup_recording_inv in Hlook as [-> Hd].
    assert (Hr : r' ≠ r) by congruence.
    destruct (encode_live_containers (encode_fault o) fs r d v0 Hne Hd) as (l & Hl).
    destruct (encode_live_fields (encode_fault o) fs r d v0 Hne Hd)
      as (l' & line & _ & _ & _ & Hothers & _).
    destruct (encode_live_same (encode_fault o) fs r d v0 Hne Hd)
      as (_ & _ & _ & _ & _ & _ & Hfiles).
    assert (Hc : containers (_encode_frames (encode_fault o) fs (Some r) v0).2 !! r'
                 = containers v !! r').
    { rewrite Hl. by rewrite decide_False by done. }
    split; [done|]. split; [auto|]. split; [by rewrite Hothers|].
    intros _ _ _. by rewrite Hfiles.
  - rewrite (worker_finalize o rid q v Hq). simpl.
    set (v0 := set_encoding_queue q v) in *.
    destruct (lookup_recording rid v0) as [[r d]|] eqn:Hlook.
    2:{ rewrite finalize_not_found by done. simpl.
        split; [done|]. split; [auto|done]. }
    apply lookup_recording_inv in Hlook as [-> Hd].
    assert (Hr : r' ≠ r) by congruence.
    destruct (finalize_live_same (finalize_fault o) r d v0 Hd)
      as (_ & _ & _ & _ & _ & _ & Ha & Hsame & Hothers).
    split; [by rewrite Hothers|]. split; [by rewrite Hsame|].
    split; [|done]. rewrite Ha. simpl. by rewrite lookup_delete_ne.
Qed.


End proofs.
End TaskProofs.

(** ** A recording from start to file *)

Module FileFacts.
Import Video Sessions Reach VideoFacts WorkerFacts Invariant WorkerProofs
  HandoffFacts ReachFacts TaskFacts.

Section facts.
Context {Frame : Type}.
Implicit Types (v : VideoRecorder Frame) (q : list (Task Frame))
  (frames : list Frame) (tr : list (Event (Frame:=Frame))).

Lemma encode_live_start_time fault frames r d v r' d' :
  frames ≠ [] →
  active_recordings v !! r = Some d →
  active_recordings (_encode_frames fault frames (Some r) v).2 !! r' = Some d' →
  ∃ d0, active_recordings v !! r' = Some d0 ∧ start_time d0 = start_time d'.
Proof.
  intros Hne Hd.
  destruct (fps v) as [|n] eqn:Hfps.
  { rewrite (encode_frames_zero_fps _ _ _ d) by done. simpl. eauto. }
  rewrite (encode_frames_live _ _ _ d _ n) by done. simpl.
  case_bool_decide; rewrite mux_all_fields; simpl; [|by eauto].
  destruct (decide (r' = r)) as [->|Hr].
  - rewrite lookup_alter_eq, Hd. simpl. intros [= <-]. eauto.
  - rewrite lookup_alter_ne by done. eauto.
Qed.

Lemma next_recording_id_step v e :
  next_recording_id v ≤ next_recording_id (step v e).
Proof.
  destruct e as [ret frame|now| |o]; simpl.
  - by destruct (capture_fields ret frame v) as (_ & _ & _ & _ & _ & _ & -> & _).
  - destruct (recording v) eqn:Hrec.
    + by rewrite start_recording_active.
    + rewrite start_recording_idle by done. simpl. lia.
  - destruct (recording v) eqn:Hrec.
    + by rewrite stop_recording_active.
    + by rewrite stop_recording_idle.
  - by destruct (worker_iteration_fields o v) as (_ & _ & -> & _).
Qed.

Lemma born_step r now v e : wf v → born r now v → born r now (step v e).
Proof.
  intros Hwf [Hr Hb]. split.
  { pose proof (next_recording_id_step v e). lia. }
  destruct e as [ret frame|now'| |o]; simpl.
  - by destruct (capture_fields ret frame v) as (-> & _).
  - destruct (recording v) eqn:Hrec.
    { by rewrite start_recording_active. }
    rewrite start_recording_idle by done. simpl.
    intros d. rewrite lookup_insert_ne by lia. apply Hb.
  - destruct (recording v) eqn:Hrec.
    + by rewrite stop_recording_active.
    + by rewrite stop_recording_idle.
  - destruct (worker_cases o v Hwf) as
      [[Hq ->]|[(frames & r0 & d & q & Hq & Hne & Hd & ->)
               |(r0 & d & q & Hq & Hd & ->)]]; [done| |].
    + intros d' Hd'.
      destruct (encode_live_start_time _ _ _ _ (set_encoding_queue q v) _ _
                  Hne Hd Hd') as (d0 & Hd0 & <-).
      by apply Hb.
    + destruct (finalize_live_same (finalize_fault o) r0 d
                  (set_encoding_queue q v) Hd)
        as (_ & _ & _ & _ & _ & _ & -> & _).
      simpl. intros d'. rewrite lookup_delete_Some. intros [_ ?]. by apply Hb.
Qed.

Lemma born_run r now tr v : wf v → born r now v → born r now (run tr v).
Proof.
  revert v. induction tr as [|e tr IH]; intros v Hwf Hb; [done|].
  unfold run in *. simpl. apply IH; [by apply wf_step|by apply born_step].
Qed.

(** While no [stop_recording()] is called, a recording in progress stays
    the current one. *)
Lemma current_kept tr v :
  recording v = true → Stop ∉ tr →
  recording (run tr v) = true
  ∧ current_recording_id (run tr v) = current_recording_id v.
Proof.
  revert v. induction tr as [|e tr IH]; intros v Hrec Hns; [done|].
  unfold run in *. simpl.
  assert (He : recording (step v e) = true
               ∧ current_recording_id (step v e) = current_recording_id v).
  { destruct e as [ret frame|now| |o]; simpl.
    - destruct (capture_fields ret frame v) as (_ & _ & _ & _ & -> & -> & _). done.
    - by rewrite start_recording_active.
    - set_solver.
    - destruct (worker_iteration_fields o v) as (_ & -> & _ & -> & _). done. }
  destruct He as [He1 He2].
  destruct (IH (step v e) He1) as [H1 H2]; [set_solver|].
  split; [done|]. by rewrite H2.
Qed.

End facts.
End FileFacts.

Module FileProofs.
Import Video Sessions Reach VideoFacts WorkerFacts Invariant WorkerProofs
  HandoffFacts ReachFacts TaskFacts FileFacts.

Section proofs.
Context {Frame : Type}.
Implicit Types (v : VideoRecorder Frame) (q : list (Task Frame))
  (frames : list Frame) (tr : list (Event (Frame:=Frame))).

(** X13. From start to file. Start a recording in any reachable idle
    state, let the capture loop and the worker run in any order without an
    encoding error, stop, and let the worker take every task then queued.
    The file named after the start time then holds the pre-roll that was
    buffered at the start followed by every frame captured until the stop,
    in capture order, stamped 0, 1, 2, ... with time base [1/fps]; the
    recording is gone from [active_recordings] and the queue is empty. *)
Theorem session_file (fps0 : nat) tr0 tr1 (now : DateTime) :
  let v0 := run tr0 (init fps0) in
  let rid := next_recording_id v0 in
  let v1 := run (tr1 ++ [Stop]) (start_recording now v0) in
  let v2 := run (replicate (length (encoding_queue v1)) (Worker no_fault)) v1 in
  0 < fps0 →
  recording v0 = false →
  Forall encodes_ok tr1 →
  Stop ∉ tr1 →
  ∃ out,
    files v2 !! video_file now = Some out
    ∧ av_data <$> out = frame_buffer v0 ++ pushed tr1
    ∧ av_pts <$> out = seq 0 (length out)
    ∧ Forall (λ a, av_time_base a = (1 # Pos.of_nat fps0)%Q) out
    ∧ out = output rid v2
    ∧ (rid ∉ dom (active_recordings v2))
    ∧ encoding_queue v2 = [].
Proof.
  intros v0 rid v1 v2 Hfps Hidle Hok Hns.
  assert (Hwf0 : wf v0) by apply wf_reachable.
  assert (Hf0 : fps v0 = fps0) by apply HandoffProofs.fps_run.
  set (vs := start_recording now v0) in *.
  set (va := run tr1 vs).
  assert (Hfs : fps vs = fps0).
  { unfold vs. change (fps (step v0 (Start now)) = fps0). by rewrite fps_step. }
  assert (Hfa : fps va = fps0) by (unfold va; by rewrite HandoffProofs.fps_run).
  (* the recording while it is in progress *)
  pose proof (HandoffProofs.tracks_begin now v0 Hwf0 Hidle) as Htr0.
  fold vs rid in Htr0.
  assert (Htr : tracks rid (frame_buffer v0) (pushed tr1) va).
  { apply (HandoffProofs.tracks_run rid (frame_buffer v0) [] tr1 vs);
      [lia|done|done]. }
  destruct Htr as (Hwfa & Hra & Hsta & c1 & Hha & Hc1).
  assert (Hcs : recording vs = true ∧ current_recording_id vs = Some rid).
  { unfold vs. by rewrite start_recording_idle by done. }
  destruct Hcs as [Hrs Hcs].
  destruct (current_kept tr1 vs Hrs Hns) as [Hreca Hcura]. fold va in Hreca, Hcura.
  rewrite Hcs in Hcura. rewrite decide_True in Hc1 by done.
  assert (Hba : born rid now va).
  { apply born_run; [by apply wf_start|].
    unfold vs. rewrite start_recording_idle by done. split; [simpl; lia|].
    simpl. intros d. rewrite lookup_insert_eq. by intros [= <-]. }
  (* the stop *)
  assert (Hv1 : v1 = stop_recording va).
  { unfold v1. by rewrite run_app. }
  clearbody v1. subst v1.
  set (vb := stop_recording va) in *.
  assert (Hwfb : wf vb) by by apply wf_stop.
  assert (Hvb : vb = _) by (unfold vb; by rewrite stop_recording_active by done).
  rewrite Hcura in Hvb.
  assert (Hqb : encoding_queue vb =
                (encoding_queue va ++ batch (frame_buffer va) (Some rid))
                ++ [FinalizeRecording (Some rid)]).
  { rewrite Hvb. simpl. by rewrite app_assoc. }
  assert (Hhb : handed rid vb = frame_buffer v0 ++ pushed tr1).
  { unfold handed in *. rewrite Hqb.
    replace (output rid vb) with (output rid va) by (by rewrite Hvb).
    rewrite !pending_app, pending_batch, decide_True by done. simpl.
    rewrite app_nil_r, app_assoc, Hha, <- app_assoc. by rewrite Hc1. }
  assert (Hstb : stamped rid vb).
  { eapply HandoffProofs.stamped_ext; [| | |exact Hsta]; by rewrite Hvb. }
  assert (Hbb : born rid now vb) by (by apply (born_step rid now va Stop)).
  assert (Hfb : fps vb = fps0) by (by rewrite Hvb).
  (* the worker takes every task but the last *)
  set (m := length (encoding_queue va ++ batch (frame_buffer va) (Some rid))).
  assert (Hlen : length (encoding_queue vb) = S m).
  { rewrite Hqb, length_app. simpl. unfold m. lia. }
  unfold v2. rewrite Hlen, replicate_S_end, run_app.
  set (vc := run (replicate m (Worker no_fault)) vb).
  destruct (HandoffProofs.workers_drain m vb rid Hwfb) as (Hhc & Hqc & Hstc); [lia|].
  fold vc in Hhc, Hqc, Hstc. specialize (Hstc Hstb).
  rewrite Hqb in Hqc. unfold m in Hqc. rewrite drop_app_length in Hqc.
  assert (Hwfc : wf vc) by by apply wf_run.
  assert (Hbc : born rid now vc) by by apply born_run.
  assert (Hfc : fps vc = fps0) by (unfold vc; by rewrite HandoffProofs.fps_run).
  assert (Hdata : av_data <$> output rid vc = frame_buffer v0 ++ pushed tr1).
  { rewrite <- Hhb, <- Hhc. unfold handed. rewrite Hqc. simpl.
    by rewrite app_nil_r. }
  (* the finalization *)
  pose proof (wf_queue _ Hwfc) as Hq. rewrite Hqc in Hq. simpl in Hq.
  destruct Hq as [[d Hd]%elem_of_dom _].
  destruct Hbc as [_ Hbc]. specialize (Hbc d Hd).
  unfold run. simpl. unfold exec.
  rewrite (worker_finalize no_fault (Some rid) [] vc Hqc). simpl.
  set (vc0 := set_encoding_queue [] vc).
  assert (Hd0 : active_recordings vc0 !! rid = Some d) by done.
  destruct (finalize_live_same None rid d vc0 Hd0)
    as (_ & _ & _ & _ & _ & Hq2 & Ha2 & Hout2 & _).
  pose proof (finalize_live_files None rid d vc0 Hd0) as Hfiles.
  rewrite bool_decide_eq_true_2 in Hfiles by done.
  exists (output rid vc).
  destruct Hstc as (Hpts & Htb & _).
  split; [|split; [done|split; [done|split; [by rewrite <- Hfc|split; [|split]]]]].
  - rewrite Hfiles, Hbc. by rewrite lookup_insert_eq.
  - by rewrite Hout2.
  - rewrite Ha2, dom_delete_L. set_solver.
  - by rewrite Hq2.
Qed.

End proofs.
End FileProofs.

(** ** File names *)

Module NameFacts.
Import Video Sessions FinalizeProofs.

Lemma string_app_inv_head (a b c : string) : a +:+ b = a +:+ c → b = c.
Proof. induction a as [|x a IH]; simpl; [done|]. intros [= H]. auto. Qed.

Lemma string_app_inj_length (a a' b b' : string) :
  String.length a = String.length a' →
  a +:+ b = a' +:+ b' → a = a' ∧ b = b'.
Proof.
  revert a'. induction a as [|x a IH]; intros [|x' a']; simpl; try done.
  intros [= Hlen] [= -> H]. destruct (IH a' Hlen H) as [-> ->]. done.
Qed.

Lemma is_field_inv (width n : nat) (s : string) :
  is_field width n s = true →
  String.length s = width ∧ decimal_value s = Some (N.of_nat n).
Proof.
  unfold is_field. intros [H1 H2]%andb_prop.
  by apply bool_decide_eq_true in H1, H2.
Qed.

Lemma zero_pad_inj (width n n' : nat) (s s' : string) :
  1 ≤ width → n < 10 ^ width → n' < 10 ^ width →
  zero_pad width n +:+ s = zero_pad width n' +:+ s' →
  n = n' ∧ s = s'.
Proof.
  intros Hw Hn Hn' Heq.
  destruct (is_field_inv _ _ _ (zero_pad_field width n Hw Hn)) as [Hl Hv].
  destruct (is_field_inv _ _ _ (zero_pad_field width n' Hw Hn')) as [Hl' Hv'].
  apply string_app_inj_length in Heq as [Hz ->]; [|congruence].
  split; [|done]. rewrite Hz in Hv. rewrite Hv in Hv'. injection Hv' as H. lia.
Qed.

Lemma strftime_inj (t1 t2 : DateTime) (s1 s2 : string) :
  valid_datetime t1 → valid_datetime t2 →
  strftime t1 +:+ s1 = strftime t2 +:+ s2 → t1 = t2 ∧ s1 = s2.
Proof.
  destruct t1 as [y1 mo1 d1 h1 mi1 se1], t2 as [y2 mo2 d2 h2 mi2 se2].
  unfold valid_datetime, strftime.
  cbn [year month day hour minute second].
  intros (Hy1 & Hm1 & Hd1 & Hh1 & Hmi1 & Hs1) (Hy2 & Hm2 & Hd2 & Hh2 & Hmi2 & Hs2).
  rewrite !string_app_assoc.
  intros H. apply (string_app_inv_head "110bpm---") in H.
  apply zero_pad_inj in H as [-> H]; [|lia|lia|lia].
  apply (string_app_inv_head "-") in H.
  apply zero_pad_inj in H as [-> H];
    [|lia|change (10 ^ 2) with 100; lia|change (10 ^ 2) with 100; lia].
  apply (string_app_inv_head "-") in H.
  apply zero_pad_inj in H as [-> H];
    [|lia|change (10 ^ 2) with 100; lia|change (10 ^ 2) with 100; lia].
  apply (string_app_inv_head "---") in H.
  apply zero_pad_inj in H as [-> H];
    [|lia|change (10 ^ 2) with 100; lia|change (10 ^ 2) with 100; lia].
  apply (string_app_inv_head "-") in H.
  apply zero_pad_inj in H as [-> H];
    [|lia|change (10 ^ 2) with 100; lia|change (10 ^ 2) with 100; lia].
  apply (string_app_inv_head "-") in H.
  apply zero_pad_inj in H as [-> H];
    [|lia|change (10 ^ 2) with 100; lia|change (10 ^ 2) with 100; lia].
  done.
Qed.

End NameFacts.

Module NameProofs.
Import Video Sessions FinalizeProofs NameFacts.

(** X14. The file name determines the start time. Two recordings whose
    start times are valid dates and differ, be it by one second, are saved
    under different names; only recordings started within the same
    second share a file. *)
Theorem video_file_injective (t1 t2 : DateTime) :
  valid_datetime t1 → valid_datetime t2 →
  video_file t1 = video_file t2 → t1 = t2.
Proof.
  intros H1 H2. unfold video_file.
  intros H. apply string_app_inv_head in H.
  apply (string_app_inv_head "/") in H.
  by apply strftime_inj in H as [-> _].
Qed.

End NameProofs.

(** ** Finding the MIDI device *)

Module PortFacts.
Import Ports.

Lemma prefix_app (a s : string) :
  String.prefix a s = true ↔ ∃ post, s = a +:+ post.
Proof.
  revert s. induction a as [|x a IH]; intros s.
  - destruct s; simpl; split; eauto.
  - destruct s as [|y s]; simpl.
    + split; [done|]. by intros [post ?].
    + destruct (Ascii.ascii_dec x y) as [->|Hxy].
      * rewrite IH. split; intros [post H]; exists post.
        -- simpl. by rewrite H.
        -- simpl in H. by injection H.
      * split; [done|]. intros [post H]. simpl in H.
        injection H as Hyx _. by subst.
Qed.

(** [contains] is the substring test. *)
Lemma contains_spec (name s : string) :
  contains name s = true ↔ ∃ pre post, s = pre +:+ name +:+ post.
Proof.
  induction s as [|y s IH].
  - cbn [contains]. rewrite orb_false_r, prefix_app. split.
    + intros [post H]. by exists "", post.
    + intros (pre & post & H). destruct pre; [by exists post|done].
  - cbn [contains]. rewrite orb_true_iff, prefix_app, IH. split.
    + intros [[post H]|(pre & post & H)].
      * by exists "", post.
      * exists (String y pre), post. simpl. by rewrite H.
    + intros (pre & post & H). destruct pre as [|z pre].
      * left. by exists post.
      * right. simpl in H. injection H as _ H. by exists pre, post.
Qed.

Lemma find_port_Some name i0 ports i :
  find_port name i0 ports = Some i →
  i0 ≤ i
  ∧ (∃ port_name, ports !! (i - i0) = Some port_name
                  ∧ contains name port_name = true)
  ∧ ∀ j port_name, j < i - i0 → ports !! j = Some port_name →
                   contains name port_name = false.
Proof.
  revert i0. induction ports as [|p ports IH]; intros i0; simpl; [done|].
  destruct (contains name p) eqn:Hp.
  - intros [= <-]. rewrite Nat.sub_diag. split; [done|]. split; [by eauto|].
    intros j q Hj. lia.
  - intros H. destruct (IH _ H) as (Hle & (q & Hq & Hc) & Hbefore).
    split; [lia|]. replace (i - i0) with (S (i - S i0)) by lia.
    split; [by eauto|]. intros [|j] q' Hj; simpl.
    + by intros [= <-].
    + apply Hbefore. lia.
Qed.

Lemma find_port_None name i0 ports :
  find_port name i0 ports = None ↔
  ∀ port_name, port_name ∈ ports → contains name port_name = false.
Proof.
  revert i0. induction ports as [|p ports IH]; intros i0; simpl.
  - split; [|done]. intros _ q Hq. by apply not_elem_of_nil in Hq.
  - destruct (contains name p) eqn:Hp.
    + split; [done|]. intros H. specialize (H p). rewrite Hp in H.
      discriminate H. by left.
    + rewrite IH. split.
      * intros H q [->|Hq]%elem_of_cons; auto.
      * intros H q Hq. apply H. by right.
Qed.

Lemma find_device_Some names ports lines i name :
  find_device names ports = (lines, Some (i, name)) →
  lines = [Found name i]
  ∧ find_port name 0 ports = Some i
  ∧ ∃ k, names !! k = Some name
         ∧ ∀ k' name', k' < k → names !! k' = Some name' →
                       find_port name' 0 ports = None.
Proof.
  induction names as [|n names IH]; simpl; [done|].
  destruct (find_port n 0 ports) as [j|] eqn:Hn.
  - intros [= <- <- <-]. split; [done|]. split; [done|].
    exists 0. split; [done|]. intros k' name' Hk. lia.
  - intros H. destruct (IH H) as (Hl & Hf & k & Hk & Hbefore).
    split; [done|]. split; [done|].
    exists (S k). split; [done|]. intros [|k'] name' Hlt; simpl.
    + by intros [= <-].
    + apply Hbefore. lia.
Qed.

Lemma find_device_None names ports lines :
  find_device names ports = (lines, None) ↔
  lines = [] ∧ ∀ name, name ∈ names → find_port name 0 ports = None.
Proof.
  revert lines. induction names as [|n names IH]; intros lines; simpl.
  - split.
    + intros [= <-]. split; [done|]. intros name Hn.
      by apply not_elem_of_nil in Hn.
    + by intros [-> _].
  - destruct (find_port n 0 ports) as [j|] eqn:Hn.
    + split; [done|]. intros [_ H]. specialize (H n). rewrite Hn in H.
      discriminate H. by left.
    + rewrite IH. split.
      * intros [-> H]. split; [done|]. intros name [->|Hin]%elem_of_cons; auto.
      * intros [-> H]. split; [done|]. intros name Hin. apply H. by right.
Qed.

Lemma device_names_NoDup : NoDup device_names.
Proof.
  unfold device_names. apply NoDup_fmap_2_strong; [|apply NoDup_seq].
  intros x y Hx Hy. apply elem_of_seq in Hx, Hy.
  assert (x ∈ [0; 1; 2; 3]) as Hx' by
    (destruct x as [|[|[|[|x]]]]; [set_solver..|lia]).
  assert (y ∈ [0; 1; 2; 3]) as Hy' by
    (destruct y as [|[|[|[|y]]]]; [set_solver..|lia]).
  set_unfold in Hx'. set_unfold in Hy'.
  destruct Hx' as [->|[->|[->|[->|[]]]]], Hy' as [->|[->|[->|[->|[]]]]];
    vm_compute; congruence.
Qed.

Lemma existsb_contains name ports :
  existsb (contains name) ports = true ↔
  ∃ port_name, port_name ∈ ports ∧ contains name port_name = true.
Proof.
  rewrite existsb_exists. split; intros (p & H1 & H2); exists p; split; try done.
  - by apply list_elem_of_In.
  - by apply list_elem_of_In.
Qed.

(** What the search of [_find_device_index_any] returns. *)
Lemma find_device_index_any_spec ports :
  (∀ lines i name, _find_device_index_any ports = (lines, Some (i, name)) →
     lines = [Found name i]
     ∧ name ∈ device_names
     ∧ (∃ port_name, ports !! i = Some port_name
                     ∧ contains name port_name = true)
     ∧ (∀ j port_name, j < i → ports !! j = Some port_name →
                       contains name port_name = false)
     ∧ (∀ name' port_name, tried_before name' name → port_name ∈ ports →
                           contains name' port_name = false))
  ∧ (∀ lines, _find_device_index_any ports = (lines, None) ↔
       lines = []
       ∧ ∀ name port_name, name ∈ device_names → port_name ∈ ports →
                           contains name port_name = false).
Proof.
  unfold _find_device_index_any. split.
  - intros lines i name H.
    destruct (find_device_Some _ _ _ _ _ H) as (Hl & Hf & k & Hk & Hbefore).
    destruct (find_port_Some _ _ _ _ Hf) as (_ & Hport & Hfirst).
    rewrite Nat.sub_0_r in Hport, Hfirst.
    split; [done|]. split; [by eapply list_elem_of_lookup_2|].
    split; [done|]. split; [done|].
    intros name' q (k' & k2 & Hlt & Hk' & Hk2) Hq.
    assert (k2 = k) as -> by (eapply NoDup_lookup; eauto using device_names_NoDup).
    specialize (Hbefore k' name' Hlt Hk').
    by eapply find_port_None in Hbefore.
  - intros lines. rewrite find_device_None. split.
    + intros [-> H]. split; [done|]. intros name q Hn Hq.
      specialize (H name Hn). by eapply find_port_None in H.
    + intros [-> H]. split; [done|]. intros name Hn.
      apply find_port_None. eauto.
Qed.

(** A listener the constructor returns. *)
Lemma init_inr ports open_fails lines h :
  __init__ ports open_fails = (lines, inr h) →
  is_device_connected ports h = true
  ∧ device_name h ∈ device_names
  ∧ running h = true
  ∧ has_callback h = false
  ∧ lines = [Found (device_name h) (default 0 (open_port h))]
  ∧ ∃ i port_name, open_port h = Some i ∧ ports !! i = Some port_name
                   ∧ contains (device_name h) port_name = true.
Proof.
  destruct (find_device_index_any_spec ports) as [H1 H2].
  unfold __init__.
  destruct (_find_device_index_any ports) as [ls [[i name]|]] eqn:Hf; [|done].
  destruct open_fails; [done|].
  intros [= <- <-]. simpl.
  destruct (H1 _ _ _ eq_refl) as (-> & Hn & (q & Hq & Hc) & _).
  split.
  { apply existsb_contains. exists q. split; [|done].
    by eapply list_elem_of_lookup_2. }
  split; [done|]. split; [done|]. split; [done|]. split; [done|]. eauto.
Qed.

(** If the device a listener is bound to is present, the search finds a
    device: the same one, or one whose name is tried before. *)
Lemma find_again ports h :
  is_device_connected ports h = true →
  device_name h ∈ device_names →
  ∃ lines i name,
    _find_device_index_any ports = (lines, Some (i, name))
    ∧ (name = device_name h ∨ tried_before name (device_name h)).
Proof.
  intros (q & Hq & Hc)%existsb_contains Hin.
  destruct (find_device_index_any_spec ports) as [H1 H2].
  destruct (_find_device_index_any ports) as [ls [[i name]|]] eqn:Hf.
  - exists ls, i, name. split; [done|].
    destruct (H1 _ _ _ eq_refl) as (_ & Hn & _ & _ & Hbefore).
    apply list_elem_of_lookup in Hn as [k Hk].
    apply list_elem_of_lookup in Hin as [k0 Hk0].
    destruct (decide (k = k0)) as [->|Hne].
    + left. congruence.
    + destruct (decide (k < k0)) as [Hlt|Hge].
      * right. by exists k, k0.
      * exfalso. rewrite (Hbefore (device_name h) q) in Hc; [done| |done].
        exists k0, k. split; [lia|done].
  - exfalso. destruct (proj1 (H2 ls) eq_refl) as [_ Hnone].
    by rewrite (Hnone _ _ Hin Hq) in Hc.
Qed.

End PortFacts.

Module PortProofs.
Import Ports PortFacts.

(** X15. Which device is found. [_find_device_index_any] goes by device
    name first and by port second: it returns the first of the names
    "RD-88 0" to "RD-88 3" that occurs in the name of some port, with the
    lowest port whose name contains it, and prints that pair; no name tried
    before it occurs in any port. It returns [(None, None)], printing
    nothing, iff none of the four names occurs in any port name. "Occurs"
    is the substring test. *)
Theorem find_device_priority (ports : list string) :
  (∀ lines i name, _find_device_index_any ports = (lines, Some (i, name)) →
     lines = [Found name i]
     ∧ name ∈ device_names
     ∧ (∃ port_name, ports !! i = Some port_name
                     ∧ contains name port_name = true)
     ∧ (∀ j port_name, j < i → ports !! j = Some port_name →
                       contains name port_name = false)
     ∧ (∀ name' port_name, tried_before name' name → port_name ∈ ports →
                           contains name' port_name = false))
  ∧ (∀ lines, _find_device_index_any ports = (lines, None) ↔
       lines = []
       ∧ ∀ name port_name, name ∈ device_names → port_name ∈ ports →
                           contains name port_name = false)
  ∧ (∀ name port_name,
       contains name port_name = true ↔
       ∃ pre post, port_name = pre +:+ name +:+ post).
Proof.
  destruct (find_device_index_any_spec ports) as [H1 H2].
  split; [done|]. split; [done|]. apply contains_spec.
Qed.

(** X16. The constructor and the connection test agree. A listener that
    [MidiListener()] returns is bound to one of the four device names, has
    the port open in whose name that device name occurs, is running, and
    [is_device_connected()] is true of it as long as the ports are the
    same. The constructor raises [RuntimeError] iff no device name occurs in
    any port name, whether or not the port could have been opened. *)
Theorem init_connects (ports : list string) :
  (∀ lines h, __init__ ports false = (lines, inr h) →
     is_device_connected ports h = true
     ∧ device_name h ∈ device_names
     ∧ running h = true
     ∧ has_callback h = false
     ∧ lines = [Found (device_name h) (default 0 (open_port h))]
     ∧ ∃ i port_name, open_port h = Some i ∧ ports !! i = Some port_name
                      ∧ contains (device_name h) port_name = true)
  ∧ (∀ open_fails,
       (∃ lines message,
          __init__ ports open_fails = (lines, inl (RuntimeError message)))
       ↔ ∀ name port_name, name ∈ device_names → port_name ∈ ports →
                           contains name port_name = false).
Proof.
  destruct (find_device_index_any_spec ports) as [H1 H2].
  split.
  - intros lines h. apply init_inr.
  - intros open_fails. unfold __init__.
    destruct (_find_device_index_any ports) as [ls [[i name]|]] eqn:Hf.
    + split.
      * intros (lines & msg & H). by destruct open_fails.
      * intros Hnone. exfalso.
        destruct (H1 _ _ _ eq_refl) as (_ & Hn & (q & Hq & Hc) & _).
        rewrite (Hnone name q) in Hc; [done|done|].
        by eapply list_elem_of_lookup_2.
    + split; [|by eauto]. intros _. by apply (H2 ls).
Qed.

End PortProofs.

(** ** The polling loop over time *)

Module LoopFacts.
Import Midi Video Main Passes Loop VideoFacts WorkerProofs MainProofs MainFacts
  ReachFacts PortFacts.

Section facts.
Context {Frame : Type}.
Implicit Types (s : State Frame) (p : Program Frame) (evs : list (Event (Frame:=Frame))).

(** The hotplug check leaves the recorder and the calls alone. *)
Lemma hotplug_check_program k s :
  let s' := hotplug_check k s in
  video_recorder (program s') = video_recorder (program s)
  ∧ calls (program s') = calls (program s).
Proof.
  unfold hotplug_check. destruct (check_due k s); [|done].
  destruct (Ports.is_device_connected (ports k) (handle s)),
           (device_connected (program s)); simpl; try done.
  by destruct (Ports.__init__ (ports k) (open_fails k)) as [lines [e|h]].
Qed.

(** It keeps a silent listener silent, and silences a listener whose
    device has gone. *)
Lemma hotplug_check_silent k s :
  silent (program s) → silent (program (hotplug_check k s)).
Proof.
  intros Hs. unfold hotplug_check. destruct (check_due k s); [|done].
  destruct (Ports.is_device_connected (ports k) (handle s)),
           (device_connected (program s)) eqn:Hdc; simpl; try done.
  - destruct (Ports.__init__ (ports k) (open_fails k)) as [lines [e|h]]; simpl;
      [done|]. by right.
  - by left.
Qed.

Lemma silent_pass p :
  silent p → starts p = false ∧ ∀ clock wall, stops clock wall p = false.
Proof.
  unfold starts, stops.
  intros [Hdc|[Ht Hn]].
  - by rewrite Hdc.
  - rewrite Ht, Hn. simpl. rewrite andb_false_r. split; [done|].
    intros clock wall. by rewrite !andb_false_r.
Qed.

Lemma main_body_silent fuel clock wall p :
  silent p →
  let p' := exec (main_body fuel clock wall) p in
  video_recorder p' = video_recorder p ∧ calls p' = calls p ∧ silent p'.
Proof.
  intros Hs p'.
  destruct (main_body_spec fuel clock wall p)
    as (Hc & Hv & Hdc & Ht & Hp & _ & Hn). fold p' in Hc, Hv, Hdc, Ht, Hp, Hn.
  destruct (silent_pass p Hs) as [Hst Hsp].
  unfold recorder_after_start in Hv.
  rewrite Hst, Hsp in Hc, Hv. simpl in Hc. rewrite app_nil_r in Hc.
  split; [done|]. split; [done|].
  destruct Hs as [Hd|[Ht' Hn']].
  - left. by rewrite Hdc.
  - right. rewrite Ht, Hn. split; [done|]. by destruct (device_connected p).
Qed.

Lemma step_silent s e :
  silent (program s) →
  (∀ now midi_message, e ≠ Deliver now midi_message) →
  let s' := step s e in
  calls (program s') = calls (program s)
  ∧ recording (video_recorder (program s'))
    = recording (video_recorder (program s))
  ∧ current_recording_id (video_recorder (program s'))
    = current_recording_id (video_recorder (program s))
  ∧ silent (program s').
Proof.
  intros Hs Hnd. destruct e as [k|now msg|ret frame|o]; simpl.
  - unfold iteration.
    pose proof (hotplug_check_silent k s Hs) as Hs1.
    destruct (hotplug_check_program k s) as [Hv1 Hc1].
    destruct (main_body_silent (fuel k) (clock k) (wall k) _ Hs1) as (Hv & Hc & Hs').
    simpl. rewrite Hv, Hc, Hv1, Hc1. done.
  - by specialize (Hnd now msg).
  - destruct (capture_fields ret frame (video_recorder (program s)))
      as (_ & _ & _ & _ & -> & -> & _). done.
  - destruct (worker_iteration_fields o (video_recorder (program s)))
      as (_ & -> & _ & -> & _). done.
Qed.

Lemma run_silent evs s :
  silent (program s) →
  (∀ now midi_message, Deliver now midi_message ∉ evs) →
  let s' := run evs s in
  calls (program s') = calls (program s)
  ∧ recording (video_recorder (program s'))
    = recording (video_recorder (program s))
  ∧ current_recording_id (video_recorder (program s'))
    = current_recording_id (video_recorder (program s))
  ∧ silent (program s').
Proof.
  revert s. induction evs as [|e evs IH]; intros s Hs Hnd; [done|].
  unfold run in *. simpl.
  destruct (step_silent s e Hs) as (Hc & Hr & Hcur & Hs').
  { intros now msg ->. apply (Hnd now msg). by left. }
  destruct (IH (step s e) Hs') as (Hc2 & Hr2 & Hcur2 & Hs2).
  { intros now msg Hin. apply (Hnd now msg). by right. }
  rewrite Hc2, Hr2, Hcur2. done.
Qed.

(** *** The device name of the listener *)

Lemma device_name_step s e :
  Ports.device_name (handle s) ∈ Ports.device_names →
  Ports.device_name (handle (step s e)) ∈ Ports.device_names.
Proof.
  intros Hn. destruct e as [k|now msg|ret frame|o]; simpl; try done.
  unfold hotplug_check. destruct (check_due k s); [|done].
  destruct (Ports.is_device_connected (ports k) (handle s)),
           (device_connected (program s)); simpl; try done.
  destruct (Ports.__init__ (ports k) (open_fails k)) as [lines [e|h]] eqn:Hi;
    simpl; [done|].
  by destruct (init_inr _ _ _ _ Hi) as (_ & ? & _).
Qed.

Lemma device_name_run evs s :
  Ports.device_name (handle s) ∈ Ports.device_names →
  Ports.device_name (handle (run evs s)) ∈ Ports.device_names.
Proof.
  revert s. induction evs as [|e evs IH]; intros s Hn; [done|].
  unfold run in *. simpl. by apply IH, device_name_step.
Qed.

Lemma boot_inr ports0 open_fails0 fps0 clock0 s0 :
  boot (Frame:=Frame) ports0 open_fails0 fps0 clock0 = inr s0 →
  Ports.device_name (handle s0) ∈ Ports.device_names
  ∧ Ports.is_device_connected ports0 (handle s0) = true
  ∧ program s0 = {| midi_listener := Midi.init; video_recorder := Video.init fps0;
                    device_connected := true; calls := [] |}.
Proof.
  unfold boot.
  destruct (Ports.__init__ ports0 open_fails0) as [lines [e|h]] eqn:Hi; [done|].
  intros [= <-]. simpl.
  by destruct (init_inr _ _ _ _ Hi) as (? & ? & _).
Qed.

(** *** The calls made so far *)

Lemma alternates_app b (cs cs' : list Call) :
  alternates b (cs ++ cs') = alternates b cs && alternates (recording_after b cs) cs'.
Proof.
  revert b. induction cs as [|[] cs IH]; intros b; simpl; [done| |].
  - rewrite IH. by destruct b.
  - rewrite IH. by destruct b.
Qed.

Lemma recording_after_app b (cs cs' : list Call) :
  recording_after b (cs ++ cs') = recording_after (recording_after b cs) cs'.
Proof. apply foldl_app. Qed.

Lemma in_step_step s e : in_step s → in_step (step s e).
Proof.
  intros (Ha & Hr & Hn). destruct e as [k|now msg|ret frame|o]; simpl.
  - unfold iteration, in_step.
    destruct (hotplug_check_program k s) as [Hv1 Hc1].
    set (p1 := program (hotplug_check k s)) in *.
    destruct (main_body_spec (fuel k) (clock k) (wall k) p1)
      as (Hc & Hv & _). simpl. rewrite Hc, Hv.
    unfold stops, recorder_after_start.
    assert (Hst : starts p1 = true → recording (video_recorder p1) = false).
    { unfold starts. intros [[_ _]%andb_prop H]%andb_prop.
      by apply negb_true_iff in H. }
    rewrite Hc1, Hv1 in *.
    set (v := video_recorder (program s)) in *.
    set (cs := calls (program s)) in *.
    destruct (starts p1) eqn:Hs.
    + specialize (Hst eq_refl).
      rewrite recording_start. rewrite andb_true_r.
      set (b := device_connected p1 && _ && _ && _).
      assert (Hnext : next_recording_id (start_recording (wall k) v)
                      = S (next_recording_id v)).
      { rewrite start_recording_idle by done. simpl. lia. }
      destruct b.
      * rewrite !alternates_app, !recording_after_app, Ha, <- Hr, Hst. simpl.
        rewrite recording_stop. split; [done|]. split; [done|].
        rewrite stop_recording_active by apply recording_start. simpl.
        rewrite Hnext, Hn, !filter_app, !length_app. simpl. lia.
      * rewrite app_nil_r, alternates_app, recording_after_app, Ha, <- Hr, Hst.
        simpl. rewrite recording_start. split; [done|]. split; [done|].
        rewrite Hnext, Hn, filter_app, length_app. simpl. lia.
    + simpl.
      destruct (device_connected p1 && recording v
                && time_truthy (last_event_time (midi_listener p1))
                && negb (pedal_pressed (midi_listener p1))
                && lingered (clock k) (last_event_time (midi_listener p1))) eqn:Hb.
      * assert (Hrec : recording v = true).
        { apply andb_prop in Hb as [Hb _]. apply andb_prop in Hb as [Hb _].
          apply andb_prop in Hb as [Hb _]. by apply andb_prop in Hb as [_ Hb]. }
        rewrite alternates_app, recording_after_app, Ha, <- Hr, Hrec. simpl.
        rewrite recording_stop. split; [done|]. split; [done|].
        rewrite stop_recording_active by done. simpl.
        rewrite Hn, filter_app, length_app. simpl. lia.
      * by rewrite app_nil_r.
  - done.
  - unfold in_step. simpl.
    by destruct (capture_fields ret frame (video_recorder (program s)))
      as (_ & _ & _ & _ & -> & _ & -> & _).
  - unfold in_step. simpl.
    by destruct (worker_iteration_fields o (video_recorder (program s)))
      as (_ & -> & -> & _).
Qed.

Lemma in_step_run evs s : in_step s → in_step (run evs s).
Proof.
  revert s. induction evs as [|e evs IH]; intros s Hs; [done|].
  unfold run in *. simpl. by apply IH, in_step_step.
Qed.

End facts.
End LoopFacts.

Module LoopProofs.
Import Midi Video Main Passes Loop VideoFacts WorkerProofs MainProofs MainFacts
  ReachFacts PortFacts LoopFacts.

Section proofs.
Context {Frame : Type}.
Implicit Types (s : State Frame) (p : Program Frame) (evs : list (Event (Frame:=Frame))).

(** X17. Reconnection finds a device. However the program got to a
    state in which the loop holds the device for disconnected, if the
    hotplug check is due, the listener's device name occurs in a port name
    again and [open_port] does not raise, the check ends connected, with a
    fresh listener (no event time, no pulse, pedal up) that is running, has
    its callback set and is itself connected: the search cannot come back
    empty, so "Reconnect failed" is never a missing device. The new
    listener is bound to the old device name or to one tried before it.
    The recorder and the calls are not touched. *)
Theorem reconnect_attaches (ports0 : list string) (open_fails0 : bool)
    (fps0 : nat) (clock0 : float) (s0 : State Frame) evs (k : Tick) :
  boot ports0 open_fails0 fps0 clock0 = inr s0 →
  let s := run evs s0 in
  let s' := hotplug_check k s in
  check_due k s = true →
  device_connected (program s) = false →
  Ports.is_device_connected (ports k) (handle s) = true →
  open_fails k = false →
  device_connected (program s') = true
  ∧ midi_listener (program s') = Midi.init
  ∧ Ports.running (handle s') = true
  ∧ Ports.has_callback (handle s') = true
  ∧ Ports.is_device_connected (ports k) (handle s') = true
  ∧ (Ports.device_name (handle s') = Ports.device_name (handle s)
     ∨ Ports.tried_before (Ports.device_name (handle s'))
                          (Ports.device_name (handle s)))
  ∧ video_recorder (program s') = video_recorder (program s)
  ∧ calls (program s') = calls (program s)
  ∧ last_device_check s' = clock_checked k.
Proof.
  intros Hboot s s' Hdue Hdc Hcon Hopen.
  assert (Hname : Ports.device_name (handle s) ∈ Ports.device_names).
  { apply device_name_run. by destruct (boot_inr _ _ _ _ _ Hboot) as (? & _). }
  destruct (find_again _ _ Hcon Hname) as (lines & i & name & Hf & Hor).
  unfold s', hotplug_check. rewrite Hdue, Hcon, Hdc. simpl.
  destruct (Ports.__init__ (ports k) (open_fails k)) as [ls [e|h]] eqn:Hi.
  { exfalso. unfold Ports.__init__ in Hi. rewrite Hf, Hopen in Hi. done. }
  destruct (init_inr _ _ _ _ Hi) as (Hc' & _ & Hrun & _).
  assert (Hh : Ports.device_name h = name).
  { unfold Ports.__init__ in Hi. rewrite Hf, Hopen in Hi. by injection Hi as _ <-. }
  simpl. rewrite Hh. done.
Qed.

(** X18. An unplugged keyboard leaves the recorder as it is. Once the
    hotplug check has found the device gone, no pass of the loop calls
    [start_recording()] or [stop_recording()] until a MIDI message is
    delivered: not while the device is away, and not after it has come
    back, since the new listener has no event time. A recording that was
    in progress when the device was unplugged stays in progress, with the
    capture thread and the worker running on. *)
Theorem unplugged_stays_quiet (k : Tick) evs (s0 : State Frame) :
  check_due k s0 = true →
  Ports.is_device_connected (ports k) (handle s0) = false →
  (∀ now midi_message, Deliver now midi_message ∉ evs) →
  let s1 := iteration k s0 in
  let s' := run evs s1 in
  device_connected (program s1) = false
  ∧ program s1 = {| midi_listener := midi_listener (program s0);
                    video_recorder := video_recorder (program s0);
                    device_connected := false;
                    calls := calls (program s0) |}
  ∧ (device_connected (program s0) = true →
     Ports.running (handle s1) = false ∧ Ports.open_port (handle s1) = None)
  ∧ calls (program s') = calls (program s0)
  ∧ recording (video_recorder (program s'))
    = recording (video_recorder (program s0))
  ∧ current_recording_id (video_recorder (program s'))
    = current_recording_id (video_recorder (program s0)).
Proof.
  intros Hdue Hcon Hnd s1 s'.
  assert (H1 : program s1 = {| midi_listener := midi_listener (program s0);
                               video_recorder := video_recorder (program s0);
                               device_connected := false;
                               calls := calls (program s0) |}
               ∧ (device_connected (program s0) = true →
                  Ports.running (handle s1) = false
                  ∧ Ports.open_port (handle s1) = None)).
  { unfold s1, iteration, hotplug_check. rewrite Hdue, Hcon.
    clear. destruct s0 as [[m v [] cs] h t out]; simpl;
      unfold exec; by rewrite main_body_disconnected. }
  destruct H1 as [Hp1 Hh1].
  assert (Hs1 : silent (program s1)) by (left; by rewrite Hp1).
  destruct (run_silent evs s1 Hs1 Hnd) as (Hc & Hr & Hcur & _). fold s' in Hc, Hr, Hcur.
  rewrite Hc, Hr, Hcur, Hp1. done.
Qed.

(** X19. The loop and the recorder stay in step. From the start of the
    program on, through any passes of the loop, MIDI messages, capture and
    worker iterations, unplugging and replugging: the calls the loop makes
    on the recorder alternate, beginning with [start_recording()]; the
    recorder is recording iff the last call was a start; and the number of
    recording ids handed out is the number of starts. So the loop never
    calls start on a recorder that is recording nor stop on one that is
    not, and every call it makes takes effect. *)
Theorem calls_alternate (ports0 : list string) (open_fails0 : bool)
    (fps0 : nat) (clock0 : float) (s0 : State Frame) evs :
  boot ports0 open_fails0 fps0 clock0 = inr s0 →
  let s := run evs s0 in
  let v := video_recorder (program s) in
  let cs := calls (program s) in
  alternates false cs = true
  ∧ recording v = recording_after false cs
  ∧ (recording v = true ↔ last cs = Some CallStart)
  ∧ next_recording_id v = length (filter (λ c, c = CallStart) cs).
Proof.
  intros Hboot s v cs.
  destruct (boot_inr _ _ _ _ _ Hboot) as (_ & _ & Hp0).
  assert (H0 : in_step s0).
  { unfold in_step. rewrite Hp0. done. }
  destruct (in_step_run evs s0 H0) as (Ha & Hr & Hn).
  fold s in Ha, Hr, Hn. fold v cs in Ha, Hr, Hn.
  split; [done|]. split; [done|]. split; [|done].
  rewrite Hr. clear.
  induction cs as [|c cs _] using rev_ind.
  - simpl. split; done.
  - rewrite recording_after_app, last_snoc. simpl.
    destruct c; split; congruence.
Qed.

End proofs.
End LoopProofs.

(** ** How long a recording is kept going *)

Module HoldFacts.
Import Midi Video Main Passes Loop VideoFacts WorkerProofs MainProofs MainFacts
  ReachFacts PortFacts LoopFacts.

Section facts.
Context {Frame : Type}.
Implicit Types (s : State Frame) (p : Program Frame) (evs : list (Event (Frame:=Frame))).

Lemma hotplug_check_time k s :
  let m' := midi_listener (program (hotplug_check k s)) in
  last_event_time m' = last_event_time (midi_listener (program s))
  ∨ last_event_time m' = None.
Proof.
  unfold hotplug_check. destruct (check_due k s); [|by left].
  destruct (Ports.is_device_connected (ports k) (handle s)),
           (device_connected (program s)); simpl; try by left.
  destruct (Ports.__init__ (ports k) (open_fails k)) as [lines [e|h]]; simpl;
    [by left|by right].
Qed.

(** A pass made while the last event, at [t], is at most seven seconds old
    calls no stop. *)
Lemma iteration_holds (t : float) k s :
  held t s →
  lingered (clock k) (Some t) = false →
  let s' := iteration k s in
  held t s'
  ∧ (∃ cs, calls (program s') = calls (program s) ++ cs ∧ CallStop ∉ cs)
  ∧ (recording (video_recorder (program s)) = true →
     recording (video_recorder (program s')) = true).
Proof.
  intros Hh Hl. unfold iteration. simpl.
  destruct (hotplug_check_program k s) as [Hv1 Hc1].
  set (s1 := hotplug_check k s) in *.
  assert (Hh1 : held t s1).
  { unfold held, s1. intros t'.
    destruct (hotplug_check_time k s) as [-> | ->]; [apply Hh|done]. }
  destruct (main_body_spec (fuel k) (clock k) (wall k) (program s1))
    as (Hc & Hv & _ & Ht & _).
  assert (Hstop : stops (clock k) (wall k) (program s1) = false).
  { unfold stops.
    destruct (last_event_time (midi_listener (program s1))) as [t'|] eqn:Ht'.
    - rewrite (Hh1 t' Ht'), Hl. by rewrite !andb_false_r.
    - simpl. by rewrite !andb_false_r. }
  rewrite Hstop in Hc, Hv. rewrite app_nil_r in Hc.
  split; [|split].
  - unfold held. simpl. rewrite Ht. apply Hh1.
  - rewrite Hc, Hc1. eexists. split; [done|].
    destruct (starts (program s1)); [|apply not_elem_of_nil].
    apply not_elem_of_cons. split; [done|apply not_elem_of_nil].
  - rewrite Hv. unfold recorder_after_start. rewrite Hv1.
    destruct (starts (program s1)); [|done]. intros _. apply recording_start.
Qed.

Lemma step_holds (t : float) s e :
  held t s →
  (∀ now midi_message, e ≠ Deliver now midi_message) →
  (∀ k, e = Iterate k → lingered (clock k) (Some t) = false) →
  let s' := step s e in
  held t s'
  ∧ (∃ cs, calls (program s') = calls (program s) ++ cs ∧ CallStop ∉ cs)
  ∧ (recording (video_recorder (program s)) = true →
     recording (video_recorder (program s')) = true).
Proof.
  intros Hh Hnd Hl. destruct e as [k|now msg|ret frame|o].
  - apply iteration_holds; auto.
  - by specialize (Hnd now msg).
  - simpl. split; [done|]. split.
    + exists []. rewrite app_nil_r. split; [done|apply not_elem_of_nil].
    + by destruct (capture_fields ret frame (video_recorder (program s)))
        as (_ & _ & _ & _ & -> & _).
  - simpl. split; [done|]. split.
    + exists []. rewrite app_nil_r. split; [done|apply not_elem_of_nil].
    + by destruct (worker_iteration_fields o (video_recorder (program s)))
        as (_ & -> & _).
Qed.

Lemma run_holds (t : float) evs s :
  held t s →
  (∀ now midi_message, Deliver now midi_message ∉ evs) →
  (∀ k, Iterate k ∈ evs → lingered (clock k) (Some t) = false) →
  let s' := run evs s in
  held t s'
  ∧ (∃ cs, calls (program s') = calls (program s) ++ cs ∧ CallStop ∉ cs)
  ∧ (recording (video_recorder (program s)) = true →
     recording (video_recorder (program s')) = true).
Proof.
  revert s. induction evs as [|e evs IH]; intros s Hh Hnd Hl.
  { simpl. split; [done|]. split; [|done].
    exists []. rewrite app_nil_r. split; [done|apply not_elem_of_nil]. }
  unfold run in *. simpl.
  destruct (step_holds t s e Hh) as (Hh1 & (cs1 & Hc1 & Hn1) & Hr1).
  { intros now msg ->. apply (Hnd now msg). by left. }
  { intros k ->. apply Hl. by left. }
  destruct (IH (step s e) Hh1) as (Hh2 & (cs2 & Hc2 & Hn2) & Hr2).
  { intros now msg Hin. apply (Hnd now msg). by right. }
  { intros k Hin. apply Hl. by right. }
  split; [done|]. split; [|by auto].
  exists (cs1 ++ cs2). rewrite Hc2, Hc1, app_assoc. split; [done|].
  intros [?|?]%elem_of_app; auto.
Qed.

End facts.
End HoldFacts.

Module HoldProofs.
Import Midi Video Main Passes Loop VideoFacts WorkerProofs MainProofs MainFacts
  ReachFacts PortFacts LoopFacts HoldFacts MidiEvents.

Section proofs.
Context {Frame : Type}.
Implicit Types (s : State Frame) (p : Program Frame) (evs : list (Event (Frame:=Frame))).

(** X20. No stop within seven seconds of a key. After a note-on received
    at time [t], as long as no further message arrives, no pass whose clock
    reading is at most seven seconds past [t] calls [stop_recording()]: a
    recording in progress stays in progress, whatever the capture thread,
    the worker and the hotplug check do in between. If the device is
    connected and the hotplug check not due, the first such pass leaves
    the recorder recording: it starts a recording unless one is in
    progress. *)
Theorem no_stop_within_seven (t : float) (ch : Z) (rest : list Z) evs s :
  (0 ≤ ch < 16)%Z →
  (∀ now midi_message, Deliver now midi_message ∉ evs) →
  (∀ k, Iterate k ∈ evs → lingered (clock k) (Some t) = false) →
  let s' := run (Deliver t ((144 + ch)%Z :: rest) :: evs) s in
  (∃ cs, calls (program s') = calls (program s) ++ cs ∧ CallStop ∉ cs)
  ∧ (recording (video_recorder (program s)) = true →
     recording (video_recorder (program s')) = true)
  ∧ (∀ k evs', evs = Iterate k :: evs' →
       device_connected (program s) = true → check_due k s = false →
       recording (video_recorder (program s')) = true).
Proof.
  intros Hch Hnd Hl s'.
  set (s1 := step s (Deliver t ((144 + ch)%Z :: rest))).
  assert (Hs' : s' = run evs s1) by done.
  destruct (note_on_is_event_fields t ch rest (midi_listener (program s)) Hch)
    as (Hn1 & Ht1).
  assert (Hh1 : held t s1).
  { unfold held, s1. simpl. rewrite Ht1. by intros t' [= <-]. }
  destruct (run_holds t evs s1 Hh1 Hnd Hl) as (_ & Hcs & Hrec).
  rewrite <- Hs' in Hcs, Hrec.
  split; [done|]. split; [done|].
  intros k evs' -> Hdc Hdue.
  assert (Hk : lingered (clock k) (Some t) = false) by (apply Hl; by left).
  set (s2 := iteration k s1).
  assert (Hs2 : s' = run evs' s2) by done.
  assert (Hr2 : recording (video_recorder (program s2)) = true).
  { unfold s2, iteration. simpl.
    assert (Hhp : hotplug_check k s1 = s1).
    { unfold hotplug_check.
      replace (check_due k s1) with (check_due k s) by done. by rewrite Hdue. }
    rewrite Hhp.
    destruct (main_body_spec (fuel k) (clock k) (wall k) (program s1))
      as (_ & Hv & _).
    rewrite Hv.
    assert (Hstop : stops (clock k) (wall k) (program s1) = false).
    { unfold stops.
      destruct (last_event_time (midi_listener (program s1))) as [t'|] eqn:Ht'.
      - rewrite (Hh1 t' Ht'), Hk. by rewrite !andb_false_r.
      - simpl. by rewrite !andb_false_r. }
    rewrite Hstop. unfold recorder_after_start, starts.
    unfold s1. simpl. rewrite Hdc, Hn1. simpl.
    destruct (recording (video_recorder (program s))) eqn:Hr; simpl; [done|].
    apply recording_start. }
  assert (Hh2 : held t s2).
  { by destruct (iteration_holds t k s1 Hh1 Hk) as (? & _). }
  destruct (run_holds t evs' s2 Hh2) as (_ & _ & Hrec2).
  { intros now msg Hin. apply (Hnd now msg). by right. }
  { intros k' Hin. apply Hl. by right. }
  rewrite Hs2. by apply Hrec2.
Qed.

End proofs.
End HoldProofs.

(** ** Shutting down while recording *)

Module ShutdownFacts.
Import Video Sessions Reach Shutdown VideoFacts WorkerFacts Invariant WorkerProofs
  HandoffFacts ReachFacts TaskFacts.

Section facts.
Context {Frame : Type}.
Implicit Types (v u : VideoRecorder Frame) (r : Recorder Frame).

Lemma mux_all_set_recording b rid l u :
  mux_all rid l (set_recording b u) = set_recording b (mux_all rid l u).
Proof.
  revert u. induction l as [|f l IH]; intros u; [done|].
  unfold mux_all in *. simpl. rewrite <- IH. done.
Qed.

Lemma lookup_recording_set_recording b rid u :
  lookup_recording rid (set_recording b u) = lookup_recording rid u.
Proof. done. Qed.

Lemma encode_frames_set_recording b fault frames rid u :
  (_encode_frames fault frames rid (set_recording b u)).2
  = set_recording b (_encode_frames fault frames rid u).2.
Proof.
  destruct frames as [|f frames]; [done|].
  set (fs := f :: frames). assert (Hne : fs ≠ []) by done. clearbody fs.
  destruct (lookup_recording rid u) as [[r d]|] eqn:Hlook.
  2:{ by rewrite !encode_frames_not_found by done. }
  apply lookup_recording_inv in Hlook as [-> Hd].
  destruct (fps u) as [|n] eqn:Hfps.
  { by rewrite !(encode_frames_zero_fps _ _ _ d) by done. }
  rewrite !(encode_frames_live _ _ _ d _ n) by done. simpl.
  change (print (LogEncoding (length fs) (Some r)) (set_recording b u))
    with (set_recording b (print (LogEncoding (length fs) (Some r)) u)).
  rewrite mux_all_set_recording. by case_bool_decide.
Qed.

Lemma finalize_set_recording b fault rid u :
  (_finalize_recording fault rid (set_recording b u)).2
  = set_recording b (_finalize_recording fault rid u).2.
Proof.
  destruct (lookup_recording rid u) as [[r d]|] eqn:Hlook.
  2:{ by rewrite !finalize_not_found by done. }
  apply lookup_recording_inv in Hlook as [-> Hd].
  rewrite !(finalize_live _ _ d) by done. simpl.
  by destruct fault as [[]|].
Qed.

(** The worker does not read the [recording] flag. *)
Lemma worker_set_recording b o u :
  exec (worker_iteration o) (set_recording b u)
  = set_recording b (exec (worker_iteration o) u).
Proof.
  unfold exec.
  destruct (encoding_queue u) as [|[frames rid|rid] q] eqn:Hq.
  - by rewrite !worker_idle.
  - rewrite (worker_encode o frames rid q u Hq).
    rewrite (worker_encode o frames rid q (set_recording b u) Hq). simpl.
    apply (encode_frames_set_recording b _ _ _ (set_encoding_queue q u)).
  - rewrite (worker_finalize o rid q u Hq).
    rewrite (worker_finalize o rid q (set_recording b u) Hq). simpl.
    apply (finalize_set_recording b _ _ (set_encoding_queue q u)).
Qed.

Lemma workers_set_recording b (os : list Oracle) u :
  run (map Worker os) (set_recording b u)
  = set_recording b (run (map Worker os) u).
Proof.
  revert u. induction os as [|o os IH]; intros u; [done|].
  unfold run in *. simpl. rewrite worker_set_recording. apply IH.
Qed.

Lemma workers_current (os : list Oracle) u :
  current_recording_id (run (map Worker os) u) = current_recording_id u.
Proof.
  revert u. induction os as [|o os IH]; intros u; [done|].
  unfold run in *. simpl. rewrite IH.
  by destruct (worker_iteration_fields o u) as (_ & _ & _ & -> & _).
Qed.

Lemma turns_stopped (ts : list (Turn (Frame:=Frame))) r :
  capture_running r = false → encoding_running r = false → turns ts r = r.
Proof.
  intros Hc He. induction ts as [|t ts IH]; [done|].
  unfold turns in *. simpl. destruct t; simpl; by rewrite ?Hc, ?He.
Qed.

End facts.
End ShutdownFacts.

Module ShutdownProofs.
Import Video Sessions Reach Shutdown VideoFacts WorkerFacts Invariant WorkerProofs
  HandoffFacts ReachFacts TaskFacts ShutdownFacts.

Section proofs.
Context {Frame : Type}.
Implicit Types (v u : VideoRecorder Frame) (r : Recorder Frame).

(** X21. [release()] abandons the recording in progress. It clears the
    two loop flags and the [recording] flag, also when releasing the
    camera raises, and queues nothing: the frames in the buffer are not
    handed to the encoder and no finalization is queued. From then on
    neither loop does another turn, so what was queued is not encoded.
    And even if the worker went on through the queue, the recording that
    was in progress would never be finalized: it stays in
    [active_recordings] and its container is never closed, so no file is
    written for it. *)
Theorem release_abandons (fps0 : nat) (tr : list (Event (Frame:=Frame)))
    (capture_fails : bool) :
  let v := run tr (init fps0) in
  let r' := release capture_fails (started v) in
  core r' = set_recording false v
  ∧ capture_running r' = false
  ∧ encoding_running r' = false
  ∧ (∀ ts, turns ts r' = r')
  ∧ (recording v = true →
     ∃ c, current_recording_id v = Some c
          ∧ FinalizeRecording (Some c) ∉ encoding_queue (core r')
          ∧ ∀ os : list Oracle,
              let v' := run (map Worker os) (core r') in
              c ∈ dom (active_recordings v')
              ∧ ∀ cont, containers v' !! c = Some cont → closed cont = false).
Proof.
  intros v r'.
  assert (Hcore : core r' = set_recording false v)
    by (unfold r', release; by destruct capture_fails).
  assert (Hc : capture_running r' = false)
    by (unfold r', release; by destruct capture_fails).
  assert (He : encoding_running r' = false)
    by (unfold r', release; by destruct capture_fails).
  split; [done|]. split; [done|]. split; [done|].
  split; [intros ts; by apply turns_stopped|].
  intros Hrec.
  assert (Hwf : wf v) by apply wf_reachable.
  pose proof (wf_current _ Hwf) as Hcur. rewrite Hrec in Hcur.
  destruct Hcur as (c & Hcur & Hlive).
  exists c. split; [done|]. split.
  { rewrite Hcore. simpl. apply elem_of_live_after in Hlive as [_ Hnf].
    by rewrite elem_of_finalizing in Hnf. }
  intros os v'. unfold v'. rewrite Hcore, workers_set_recording. simpl.
  set (u := run (map Worker os) v).
  assert (Hu : u = run (tr ++ map Worker os) (init fps0))
    by (unfold u, v; by rewrite run_app).
  assert (Hacc : accounted u) by (rewrite Hu; apply accounted_reachable).
  assert (Hcd : closed_dead u).
  { rewrite Hu. apply closed_dead_run; [apply wf_init|]. intros r0 c0. simpl. done. }
  assert (Hin : c ∈ dom (active_recordings u)).
  { assert (Hc' : c ∈ current_set u).
    { unfold current_set, u. rewrite workers_current, Hcur. set_solver. }
    rewrite <- Hacc in Hc'. by apply elem_of_live_after in Hc' as [? _]. }
  split; [done|]. intros cont Hcont.
  destruct (closed cont) eqn:Hcl; [|done].
  exfalso. by apply (Hcd c cont Hcont Hcl).
Qed.

End proofs.
End ShutdownProofs.

(** ** Choosing the camera *)

Module CameraFacts.
Import Camera.

Section facts.
Variable cams : nat → Probe.

Lemma delivering_cons (i : nat) (l : list nat) :
  delivering cams (i :: l)
  = match cams i with
    | Shape width height => (i, (width, height)) :: delivering cams l
    | _ => delivering cams l
    end.
Proof. unfold delivering. simpl. by destruct (cams i). Qed.

Lemma scan_spec (i n : nat) available out :
  ∃ found out',
    scan cams i n available out
    = (found,
       available ++ delivering cams
                      (seq i (match found with Some k => S k - i | None => n end)),
       out')
    ∧ match found with
      | Some k => i ≤ k < i + n ∧ high (cams k) = true
                  ∧ ∀ j, i ≤ j < k → high (cams j) = false
      | None => ∀ j, i ≤ j < i + n → high (cams j) = false
      end.
Proof.
  revert i available out. induction n as [|n IH]; intros i available out.
  { exists None, out. simpl. rewrite app_nil_r. split; [done|]. intros j Hj. lia. }
  cbn [scan].
  destruct (cams i) as [| |w h] eqn:Hi.
  - destruct (IH (S i) available out) as (found & out' & Hs & Hf).
    exists found, out'. rewrite Hs. split.
    + f_equal. f_equal. f_equal.
      destruct found as [k|].
      * destruct Hf as (Hk & _). replace (S k - i) with (S (S k - S i)) by lia.
        cbn [seq]. by rewrite delivering_cons, Hi.
      * cbn [seq]. by rewrite delivering_cons, Hi.
    + destruct found as [k|].
      * destruct Hf as (Hk & Hh & Hb). split; [lia|]. split; [done|].
        intros j Hj. destruct (decide (j = i)) as [->|]; [by rewrite Hi|].
        apply Hb. lia.
      * intros j Hj. destruct (decide (j = i)) as [->|]; [by rewrite Hi|].
        apply Hf. lia.
  - destruct (IH (S i) available out) as (found & out' & Hs & Hf).
    exists found, out'. rewrite Hs. split.
    + f_equal. f_equal. f_equal.
      destruct found as [k|].
      * destruct Hf as (Hk & _). replace (S k - i) with (S (S k - S i)) by lia.
        cbn [seq]. by rewrite delivering_cons, Hi.
      * cbn [seq]. by rewrite delivering_cons, Hi.
    + destruct found as [k|].
      * destruct Hf as (Hk & Hh & Hb). split; [lia|]. split; [done|].
        intros j Hj. destruct (decide (j = i)) as [->|]; [by rewrite Hi|].
        apply Hb. lia.
      * intros j Hj. destruct (decide (j = i)) as [->|]; [by rewrite Hi|].
        apply Hf. lia.
  - destruct (high_resolution w h) eqn:Hhigh.
    + exists (Some i). eexists. split.
      * f_equal. f_equal. replace (S i - i) with 1 by lia.
        cbn [seq]. by rewrite delivering_cons, Hi.
      * split; [lia|]. split; [by rewrite Hi|]. intros j Hj. lia.
    + destruct (IH (S i) (available ++ [(i, (w, h))])
                  (out ++ [CameraLine i w h])) as (found & out' & Hs & Hf).
      exists found, out'. rewrite Hs. split.
      * f_equal. f_equal. rewrite <- app_assoc. f_equal.
        destruct found as [k|].
        -- destruct Hf as (Hk & _). replace (S k - i) with (S (S k - S i)) by lia.
           cbn [seq]. by rewrite delivering_cons, Hi.
        -- cbn [seq]. by rewrite delivering_cons, Hi.
      * destruct found as [k|].
        -- destruct Hf as (Hk & Hh & Hb). split; [lia|]. split; [done|].
           intros j Hj. destruct (decide (j = i)) as [->|]; [by rewrite Hi|].
           apply Hb. lia.
        -- intros j Hj. destruct (decide (j = i)) as [->|]; [by rewrite Hi|].
           apply Hf. lia.
Qed.

End facts.
End CameraFacts.

Module CameraProofs.
Import Camera CameraFacts.

(** X22. Which camera is chosen. If the device at index 700 opens, it is
    chosen, whether or not it delivers frames. Otherwise the indices 0 to
    999 are tried in order and the first device that delivers a frame at
    least 1280 wide or at least 720 high is chosen. If there is none, the
    source is the number typed at the prompt, and 0 if the line is empty,
    is not a number or cannot be read; the cameras listed before the
    prompt are then exactly the devices below 1000 that deliver a frame,
    in index order. *)
Theorem camera_choice (cams : nat → Probe) (answer : Answer) :
  let video_source := (choose_camera cams answer).1 in
  let printed := (choose_camera cams answer).2 in
  (cams 700 ≠ NotOpened → video_source = 700%Z)
  ∧ (cams 700 = NotOpened →
     ∀ i, i < 1000 → high (cams i) = true →
          (∀ j, j < i → high (cams j) = false) →
          video_source = Z.of_nat i)
  ∧ (cams 700 = NotOpened →
     (∀ i, i < 1000 → high (cams i) = false) →
     video_source = answered answer
     ∧ (answer ∈ [Blank; NotANumber; NoAnswer] → video_source = 0%Z)
     ∧ ∃ before,
         printed = before ++ [WarningNotFound; AvailableCameras]
                   ++ ((λ c, AvailableLine c.1 c.2.1 c.2.2)
                         <$> delivering cams (seq 0 1000))
                   ++ [PleaseSpecify]).
Proof.
  intros video_source printed. unfold video_source, printed, choose_camera.
  destruct (scan_spec cams 0 1000 [] [Scanning; NotFound700])
    as (found & out' & Hs & Hf).
  split; [|split].
  - intros H700. destruct (cams 700); [done|reflexivity|reflexivity].
  - intros H700 i Hi Hhigh Hfirst. rewrite H700, Hs. cbv beta iota.
    destruct found as [k|].
    + destruct Hf as (Hk & Hhk & Hbefore). cbn [fst]. f_equal.
      destruct (decide (k < i)) as [Hlt|Hge].
      { rewrite (Hfirst k Hlt) in Hhk. done. }
      destruct (decide (i < k)) as [Hlt|Hge'].
      { rewrite (Hbefore i) in Hhigh; [done|lia]. }
      lia.
    + rewrite (Hf i) in Hhigh; [done|lia].
  - intros H700 Hnone. rewrite H700, Hs. cbv beta iota.
    destruct found as [k|].
    { destruct Hf as (Hk & Hhk & _). rewrite (Hnone k) in Hhk; [done|lia]. }
    cbn [fst snd]. split; [reflexivity|]. split.
    + intros Ha. set_unfold in Ha. by destruct Ha as [->|[->|[->|[]]]].
    + exists out'. reflexivity.
Qed.

End CameraProofs.

(** ** The timestamps of [print] *)

Module StampFacts.
Import Video Sessions Stamp FinalizeProofs NameFacts.

Lemma is_nat_digit (c : Ascii.ascii) (d : nat) :
  Ascii.is_nat c = Some d →
  d < 10 ∧ c = Ascii.ascii_of_nat (48 + d).
Proof.
  destruct c as [[] [] [] [] [] [] [] []]; simpl; intros [= <-];
    split; first [lia | reflexivity].
Qed.

Lemma decimal_value_from_bound (s : string) (acc n : N) :
  decimal_value_from acc s = Some n →
  ∃ v, (n = acc * 10 ^ N.of_nat (String.length s) + v
        ∧ v < 10 ^ N.of_nat (String.length s))%N.
Proof.
  revert acc. induction s as [|c s IH]; intros acc.
  - simpl. intros [= <-]. exists 0%N. lia.
  - cbn [decimal_value_from].
    destruct (Ascii.is_nat c) as [d|] eqn:Hc; [|done].
    apply is_nat_digit in Hc as [Hd _].
    intros (v & -> & Hv)%IH.
    change (String.length (String c s)) with (S (String.length s)).
    rewrite Nat2N.inj_succ, N.pow_succ_r'.
    set (P := (10 ^ N.of_nat (String.length s))%N) in *.
    exists (N.of_nat d * P + v)%N. split; [lia|]. nia.
Qed.

(** Two strings of decimal digits of the same length that denote the same
    number are the same string. *)
Lemma digits_inj (s s' : string) (acc n : N) :
  String.length s = String.length s' →
  decimal_value_from acc s = Some n →
  decimal_value_from acc s' = Some n →
  s = s'.
Proof.
  revert s' acc. induction s as [|c s IH]; intros [|c' s'] acc; try done.
  cbn [decimal_value_from String.length]. intros [= Hlen].
  destruct (Ascii.is_nat c) as [d|] eqn:Hc; [|done].
  destruct (Ascii.is_nat c') as [d'|] eqn:Hc'; [|done].
  apply is_nat_digit in Hc as [Hd ->], Hc' as [Hd' ->].
  intros H1 H2.
  destruct (decimal_value_from_bound _ _ _ H1) as (v & Hn & Hv).
  destruct (decimal_value_from_bound _ _ _ H2) as (v' & Hn' & Hv').
  rewrite <- Hlen in Hn', Hv'.
  set (P := (10 ^ N.of_nat (String.length s))%N) in *.
  assert (d = d') as <- by nia.
  f_equal. by eapply IH.
Qed.

Lemma decimal_value_from_shift (s : string) (acc k n : N) :
  decimal_value_from acc s = Some n →
  decimal_value_from (acc + k) s
  = Some (n + k * 10 ^ N.of_nat (String.length s))%N.
Proof.
  revert acc k n. induction s as [|c s IH]; intros acc k n.
  - simpl. intros [= <-]. f_equal. lia.
  - cbn [decimal_value_from].
    destruct (Ascii.is_nat c) as [d|]; [|done].
    intros H. replace (10 * (acc + k) + N.of_nat d)%N
      with ((10 * acc + N.of_nat d) + 10 * k)%N by lia.
    rewrite (IH _ (10 * k)%N n H). f_equal.
    change (String.length (String c s)) with (S (String.length s)).
    rewrite Nat2N.inj_succ, N.pow_succ_r'. lia.
Qed.

Lemma field_value (width n : nat) (s : string) :
  is_field width n s = true →
  String.length s = width ∧ decimal_value_from 0 s = Some (N.of_nat n).
Proof.
  intros [Hl Hv]%is_field_inv. split; [done|].
  unfold decimal_value in Hv. by destruct s.
Qed.

(** The six digits of a microsecond are the three digits of the
    millisecond followed by the three digits of the rest. *)
Lemma zero_pad_6_split (us : nat) :
  us < 10 ^ 6 →
  zero_pad 6 us = zero_pad 3 (us / 1000) +:+ zero_pad 3 (us `mod` 1000).
Proof.
  intros Hus.
  assert (Hm : us < 1000 * 1000).
  { replace 6 with (3 + 3) in Hus by done. rewrite Nat.pow_add_r in Hus.
    by change (10 ^ 3) with 1000 in Hus. }
  assert (H3 : 1 ≤ 3) by lia. assert (H6 : 1 ≤ 6) by lia.
  assert (Hq : us / 1000 < 10 ^ 3).
  { change (10 ^ 3) with 1000. apply Nat.Div0.div_lt_upper_bound. lia. }
  assert (Hr : us `mod` 1000 < 10 ^ 3).
  { change (10 ^ 3) with 1000. apply Nat.mod_upper_bound. lia. }
  destruct (field_value _ _ _ (zero_pad_field 6 us H6 Hus)) as [Hl6 Hv6].
  destruct (field_value _ _ _ (zero_pad_field 3 _ H3 Hq)) as [Hlq Hvq].
  destruct (field_value _ _ _ (zero_pad_field 3 _ H3 Hr)) as [Hlr Hvr].
  eapply digits_inj; [|exact Hv6|].
  - rewrite string_length_app. lia.
  - rewrite decimal_value_from_app, Hvq.
    change (decimal_value_from (N.of_nat (us / 1000))
              (zero_pad 3 (us `mod` 1000)) = Some (N.of_nat us)).
    pose proof (decimal_value_from_shift _ 0 (N.of_nat (us / 1000)) _ Hvr) as Hs.
    rewrite N.add_0_l in Hs. rewrite Hs, Hlr. f_equal.
    change (10 ^ N.of_nat 3)%N with 1000%N.
    pose proof (Nat.div_mod_eq us 1000). lia.
Qed.

Lemma substring_prefix (a b : string) :
  String.substring 0 (String.length a) (a +:+ b) = a.
Proof.
  induction a as [|c a IH]; simpl.
  - by destruct b.
  - by rewrite IH.
Qed.

Lemma but_last_3_app (a b : string) :
  String.length b = 3 → but_last_3 (a +:+ b) = a.
Proof.
  intros Hb. unfold but_last_3. rewrite string_length_app, Hb.
  replace (String.length a + 3 - 3) with (String.length a) by lia.
  apply substring_prefix.
Qed.

End StampFacts.

Module StampProofs.
Import Video Sessions Stamp FinalizeProofs NameFacts StampFacts.

(** X23. Timestamps are cut to the millisecond. The timestamp that the
    module's [print] puts in front of a line is the date and time to the
    second, a dot, and the millisecond in three digits: cutting the last
    three characters off [%f] leaves the microsecond divided by 1000,
    rounded down, never up. The line printed is that timestamp in square
    brackets, a space, and the arguments joined by [sep]. *)
Theorem timestamp_milliseconds (now : Instant) (sep : string) (args : list string) :
  microsecond now < 10 ^ 6 →
  let ms := microsecond now / 1000 in
  timestamp now = strftime_seconds (date now) +:+ "." +:+ zero_pad 3 ms
  ∧ is_field 3 ms (zero_pad 3 ms) = true
  ∧ print now sep args
    = "[" +:+ strftime_seconds (date now) +:+ "." +:+ zero_pad 3 ms +:+ "] "
      +:+ String.concat sep args.
Proof.
  intros Hus ms.
  assert (Hm : microsecond now < 1000 * 1000).
  { replace 6 with (3 + 3) in Hus by done. rewrite Nat.pow_add_r in Hus.
    by change (10 ^ 3) with 1000 in Hus. }
  assert (H3 : 1 ≤ 3) by lia.
  assert (Hq : ms < 10 ^ 3).
  { change (10 ^ 3) with 1000. apply Nat.Div0.div_lt_upper_bound. lia. }
  assert (Hr : microsecond now `mod` 1000 < 10 ^ 3).
  { change (10 ^ 3) with 1000. apply Nat.mod_upper_bound. lia. }
  assert (Ht : timestamp now
               = strftime_seconds (date now) +:+ "." +:+ zero_pad 3 ms).
  { unfold timestamp, strftime_f. rewrite (zero_pad_6_split _ Hus).
    fold ms.
    rewrite <- (string_app_assoc "." (zero_pad 3 ms)).
    rewrite <- (string_app_assoc (strftime_seconds (date now))).
    apply but_last_3_app.
    by destruct (field_value _ _ _ (zero_pad_field 3 _ H3 Hr)). }
  split; [done|]. split; [by apply zero_pad_field|].
  unfold print. rewrite Ht. by rewrite !string_app_assoc.
Qed.

End StampProofs.

(** ** More theorems at concrete inputs *)

Module MoreWitnesses.
Import Midi Video Main Sessions Examples Cases.

Lemma note_on_is_event_witness :
  (0 ≤ 9 < 16)%Z
  ∧ note_event_occurred (exec (midi_callback 5%float note_on_10) Midi.init) = true
  ∧ last_event_time (exec (midi_callback 5%float note_on_10) Midi.init)
    = Some 5%float.
Proof.
  assert (H : (0 ≤ 9 < 16)%Z) by lia.
  split; [exact H|].
  destruct (MidiEvents.note_on_is_event 5%float 9 [36; 0]%Z Midi.init H)
    as (_ & Hn & Ht & _).
  split; [exact Hn|exact Ht].
Defined.

Lemma worker_isolation_witness :
  encoding_queue two_sessions
  = EncodeFrames [1] (Some 0)
    :: [EncodeFrames [2] (Some 0); FinalizeRecording (Some 0);
        EncodeFrames [2] (Some 1); EncodeFrames [3] (Some 1);
        FinalizeRecording (Some 1)]
  ∧ output 1 (exec (worker_iteration no_fault) two_sessions)
    = output 1 two_sessions.
Proof.
  assert (Hq : encoding_queue two_sessions
               = EncodeFrames [1] (Some 0)
                 :: [EncodeFrames [2] (Some 0); FinalizeRecording (Some 0);
                     EncodeFrames [2] (Some 1); EncodeFrames [3] (Some 1);
                     FinalizeRecording (Some 1)])
    by (vm_compute; reflexivity).
  split; [exact Hq|].
  assert (Hid : task_id (EncodeFrames [1] (Some 0)) ≠ Some 1) by discriminate.
  destruct (TaskProofs.worker_isolation no_fault _ _ two_sessions 1 Hq Hid)
    as (_ & Hout & _).
  exact Hout.
Defined.


Lemma session_file_witness :
  recording (run [Capture true (Some 1); Capture true (Some 2)] (init (Frame:=nat) 1))
  = false
  ∧ ∃ out,
      files (run (replicate 3 (Worker no_fault))
               (run ([Capture true (Some 3)] ++ [Stop])
                  (start_recording a_start_time
                     (run [Capture true (Some 1); Capture true (Some 2)] (init 1)))))
      !! video_file a_start_time = Some out
      ∧ av_data <$> out = [1; 2; 3].
Proof.
  split; [reflexivity|].
  assert (H1 : 0 < 1) by lia.
  assert (Hok : Forall (encodes_ok (Frame:=nat)) [Capture true (Some 3)])
    by (repeat constructor).
  assert (Hns : Stop ∉ [Capture (Frame:=nat) true (Some 3)]).
  { apply not_elem_of_cons. split; [discriminate|apply not_elem_of_nil]. }
  destruct (FileProofs.session_file 1
              [Capture true (Some 1); Capture true (Some 2)]
              [Capture true (Some 3)] a_start_time H1 eq_refl Hok Hns)
    as (out & Hf & Hd & _).
  exists out. split; [exact Hf|exact Hd].
Defined.

Lemma video_file_injective_witness :
  valid_datetime a_start_time ∧ valid_datetime a_later_time
  ∧ video_file a_start_time ≠ video_file a_later_time.
Proof.
  assert (Hv : ∀ s, s ≤ 59 →
            valid_datetime {| year := 2024; month := 3; day := 7; hour := 9;
                              minute := 5; second := s |}).
  { intros s Hs. unfold valid_datetime.
    cbn [year month day hour minute second].
    repeat split; first [lia | apply Nat.ltb_lt; vm_compute; reflexivity]. }
  assert (H1 : valid_datetime a_start_time) by (apply Hv; lia).
  assert (H2 : valid_datetime a_later_time) by (apply Hv; lia).
  split; [exact H1|]. split; [exact H2|].
  intros Heq.
  pose proof (NameProofs.video_file_injective _ _ H1 H2 Heq) as Ht.
  discriminate Ht.
Defined.

Lemma reconnect_attaches_witness :
  Loop.boot one_keyboard false 1 0%float = inr booted
  ∧ device_connected (Loop.program unplugged) = false
  ∧ midi_listener
      (Loop.program (Loop.hotplug_check (tick 6%float one_keyboard) unplugged))
    = Midi.init
  ∧ device_connected
      (Loop.program (Loop.hotplug_check (tick 6%float one_keyboard) unplugged))
    = true.
Proof.
  assert (Hb : Loop.boot one_keyboard false 1 0%float = inr booted)
    by (vm_compute; reflexivity).
  assert (Hdc : device_connected (Loop.program unplugged) = false)
    by (vm_compute; reflexivity).
  split; [exact Hb|]. split; [exact Hdc|].
  assert (Hdue : Loop.check_due (tick 6%float one_keyboard) unplugged = true)
    by (vm_compute; reflexivity).
  assert (Hcon : Ports.is_device_connected
                   (Loop.ports (tick 6%float one_keyboard)) (Loop.handle unplugged) = true)
    by (vm_compute; reflexivity).
  destruct (LoopProofs.reconnect_attaches one_keyboard false 1 0%float booted
              [Loop.Deliver 1%float note_on_10; Loop.Iterate (tick 1.5%float one_keyboard);
               Loop.Iterate (tick 3%float [])]
              (tick 6%float one_keyboard) Hb Hdue Hdc Hcon eq_refl)
    as (Hd & Hm & _).
  split; [exact Hm|exact Hd].
Defined.

Lemma unplugged_stays_quiet_witness :
  Loop.check_due (tick 3%float []) playing = true
  ∧ recording (video_recorder (Loop.program playing)) = true
  ∧ recording
      (video_recorder
         (Loop.program
            (Loop.run [Loop.Iterate (tick 20%float []);
                       Loop.Iterate (tick 30%float one_keyboard);
                       Loop.Iterate (tick 40%float one_keyboard)]
                      (Loop.iteration (tick 3%float []) playing))))
    = true.
Proof.
  assert (Hdue : Loop.check_due (tick 3%float []) playing = true)
    by (vm_compute; reflexivity).
  assert (Hrec : recording (video_recorder (Loop.program playing)) = true)
    by (vm_compute; reflexivity).
  split; [exact Hdue|]. split; [exact Hrec|].
  assert (Hcon : Ports.is_device_connected (Loop.ports (tick 3%float [])) (Loop.handle playing)
                 = false) by reflexivity.
  assert (Hnd : ∀ now midi_message,
            Loop.Deliver (Frame:=nat) now midi_message
            ∉ [Loop.Iterate (tick 20%float []); Loop.Iterate (tick 30%float one_keyboard);
               Loop.Iterate (tick 40%float one_keyboard)]).
  { intros now msg.
    repeat (apply not_elem_of_cons; split; [discriminate|]).
    apply not_elem_of_nil. }
  destruct (LoopProofs.unplugged_stays_quiet (tick 3%float []) _ playing
              Hdue Hcon Hnd) as (_ & _ & _ & _ & Hr & _).
  exact (eq_trans Hr Hrec).
Defined.

Lemma calls_alternate_witness :
  Loop.boot one_keyboard false 1 0%float = inr booted
  ∧ calls (Loop.program playing) = [CallStart]
  ∧ next_recording_id (video_recorder (Loop.program playing)) = 1.
Proof.
  assert (Hb : Loop.boot one_keyboard false 1 0%float = inr booted)
    by (vm_compute; reflexivity).
  split; [exact Hb|]. split; [vm_compute; reflexivity|].
  destruct (LoopProofs.calls_alternate one_keyboard false 1 0%float booted
              [Loop.Deliver 1%float note_on_10; Loop.Iterate (tick 1.5%float one_keyboard)]
              Hb) as (_ & _ & _ & Hn).
  refine (eq_trans Hn _). vm_compute. reflexivity.
Defined.

Lemma no_stop_within_seven_witness :
  (0 ≤ 9 < 16)%Z
  ∧ Loop.check_due (tick 1.5%float one_keyboard) booted = false
  ∧ recording
      (video_recorder
         (Loop.program
            (Loop.run [Loop.Deliver 1%float note_on_10;
                       Loop.Iterate (tick 1.5%float one_keyboard);
                       Loop.Iterate (tick 7.5%float one_keyboard)]
                      booted)))
    = true.
Proof.
  assert (Hch : (0 ≤ 9 < 16)%Z) by lia.
  assert (Hdue : Loop.check_due (tick 1.5%float one_keyboard) booted = false)
    by (vm_compute; reflexivity).
  split; [exact Hch|]. split; [exact Hdue|].
  assert (Hnd : ∀ now midi_message,
            Loop.Deliver (Frame:=nat) now midi_message
            ∉ [Loop.Iterate (tick 1.5%float one_keyboard);
               Loop.Iterate (tick 7.5%float one_keyboard)]).
  { intros now msg.
    repeat (apply not_elem_of_cons; split; [discriminate|]).
    apply not_elem_of_nil. }
  assert (Hl : ∀ k,
            Loop.Iterate (Frame:=nat) k
            ∈ [Loop.Iterate (tick 1.5%float one_keyboard);
               Loop.Iterate (tick 7.5%float one_keyboard)] →
            Main.lingered (Loop.clock k) (Some 1%float) = false).
  { intros k Hin.
    apply elem_of_cons in Hin as [Hk|Hin]; [injection Hk as ->; reflexivity|].
    apply elem_of_cons in Hin as [Hk|Hin]; [injection Hk as ->; reflexivity|].
    by apply not_elem_of_nil in Hin. }
  destruct (HoldProofs.no_stop_within_seven 1%float 9 [36; 0]%Z _ booted
              Hch Hnd Hl) as (_ & _ & Hstart).
  exact (Hstart _ _ eq_refl eq_refl Hdue).
Defined.

Lemma timestamp_milliseconds_witness :
  Stamp.microsecond an_instant < 10 ^ 6
  ∧ Stamp.timestamp an_instant = "2024-03-07 09:05:00.004".
Proof.
  assert (H : Stamp.microsecond an_instant < 10 ^ 6).
  { apply Nat.lt_le_trans with (10 ^ 4).
    - apply Nat.ltb_lt. vm_compute. reflexivity.
    - apply Nat.pow_le_mono_r; lia. }
  split; [exact H|].
  destruct (StampProofs.timestamp_milliseconds an_instant " " [] H) as (Ht & _).
  refine (eq_trans Ht _). vm_compute. reflexivity.
Defined.

End MoreWitnesses.
